(** * comp_osm: completeness scoring of administrative places over OSM data

    A shallow embedding of [public/data/comp_osm.py] and the properties of
    its resolver, feature counter, scoring engine, retrying HTTP client,
    cache, per-place pipeline and place-list loop.

    Conventions of the embedding
    - a Python [dict] with string keys is a [gmap string _], a Python [set]
      a [gset _];
    - an exception is a value of [exn]; code that can raise returns a
      [result], code that also touches the file cache or the network runs
      in the state-and-exception monad [io];
    - coordinates are IEEE binary64 floats ([PrimFloat.float]), compared
      with the primitive comparison, as Python compares them;
    - the arithmetic of [compute_score] mixes integers with the literals
      0.1, 0.2 and 0.3; it is carried out over the rationals [Q];
    - [row] is a data-frame row all of whose columns are integers, the row
      of a place counted at both radii; [frame_row] is a row as the data
      frame holds it, where a column can be NaN or absent;
    - OSM element ids are integers ([Z]): the source keeps them as the
      attribute text and converts with [int(...)] where it returns them. *)

From Stdlib Require Import ZArith QArith Qminmax Lqa String Floats.
From stdpp Require Import gmap strings list fin_maps pretty.

Local Open Scope string_scope.

(* [set_solver] clears hypotheses it has already consumed. *)
#[local] Set Warnings "-clear-no-such-hyp".

(** ** Exceptions and fallible results *)

Inductive exn : Type :=
| TypeError
| KeyError (key : string)
| UnboundLocalError (var : string)
| IndexError
| AttributeError
| FileNotFoundError (path : string)
| XMLSyntaxError.

Inductive result (A : Type) : Type :=
| Ok (a : A)
| Raise (e : exn).
Arguments Ok {A} a.
Arguments Raise {A} e.

(** Sequencing: the first exception ends the computation. *)
Definition and_then {A B : Type} (m : result A) (k : A → result B) : result B :=
  match m with
  | Ok a => k a
  | Raise e => Raise e
  end.

Notation "'let*' x := m 'in' k" := (and_then m (λ x, k))
  (at level 10, x name, k at level 200).

(** [for x in xs: st = body(st, x)], stopping at the first exception. *)
Fixpoint for_each {S X : Type} (body : S → X → result S) (xs : list X) (st : S)
  : result S :=
  match xs with
  | [] => Ok st
  | x :: xs' =>
      match body st x with
      | Ok st' => for_each body xs' st'
      | Raise e => Raise e
      end
  end.

(** [if b: st = act(st)]. *)
Definition when {S : Type} (b : bool) (act : S → result S) (st : S) : result S :=
  if b then act st else Ok st.

(** A block of statements run one after the other on the same state. *)
Definition chain {S : Type} (steps : list (S → result S)) (st : S) : result S :=
  for_each (λ st step, step st) steps st.

(** ** Tag dictionaries *)

(** [{t.get("k"): t.get("v") for t in e.findall("tag")}]: a later tag with
    the same key replaces an earlier one. *)
Definition tags_of (tag : list (string * string)) : gmap string string :=
  foldl (λ d kv, <[kv.1 := kv.2]> d) ∅ tag.

(** [k in d]. *)
Definition has {V : Type} (k : string) (d : gmap string V) : bool :=
  match d !! k with
  | Some _ => true
  | None => false
  end.

(** [d.get(k) == v]. *)
Definition get_is (d : gmap string string) (k v : string) : bool :=
  match d !! k with
  | Some v' => String.eqb v' v
  | None => false
  end.

(** [d.get(k) in vs] for a tuple [vs] of string literals. *)
Definition get_in (d : gmap string string) (k : string) (vs : list string) : bool :=
  match d !! k with
  | Some v' => existsb (String.eqb v') vs
  | None => false
  end.

(** [d[k] += 1]: a [KeyError] when the key is absent. *)
Definition incr (k : string) (d : gmap string nat) : result (gmap string nat) :=
  match d !! k with
  | Some v => Ok (<[k := S v]> d)
  | None => Raise (KeyError k)
  end.

(** ** The parsed graph *)

Record osm_node : Type := {
  n_id : Z;
  n_lon : float;
  n_lat : float;
  n_tag : list (string * string)
}.

Record osm_way : Type := {
  w_id : Z;
  w_nd : list Z;
  w_tag : list (string * string)
}.

Record osm_member : Type := {
  m_type : string;
  m_ref : Z;
  m_role : string
}.

Record osm_relation : Type := {
  r_id : Z;
  r_tag : list (string * string);
  r_member : list osm_member
}.

(** [xpath("//node")], [xpath("//way")] and [xpath("//relation")] of the
    parsed document, each in document order. *)
Record osm : Type := {
  nodes : list osm_node;
  ways : list osm_way;
  relations : list osm_relation
}.

(** ** Scoring *)

Section Scoring.
Local Open Scope Q_scope.

(** [cap(x, m) = min(x, m)]: Python's [min] returns its first argument
    unless the second is strictly smaller. *)
Definition cap (x m : Q) : Q :=
  match m ?= x with
  | Lt => m
  | _ => x
  end.

(** The columns of a data-frame row that [compute_score] reads. *)
Record row : Type := {
  node : Z;
  boundary : Z;
  places_total_3km : Z;
  road_trunk_3km : Z;
  road_primary_3km : Z;
  road_secondary_3km : Z;
  road_tertiary_3km : Z;
  road_res_uncl_1km : Z;
  road_res_uncl_3km : Z;
  road_bus_stop_3km : Z;
  road_parking_3km : Z;
  road_fuel_3km : Z;
  road_types_3km : Z;
  amenity_gov_3km : Z;
  amenity_health_1km : Z;
  amenity_school_1km : Z;
  amenity_police_1km : Z;
  amenity_post_1km : Z;
  amenity_bank_1km : Z;
  amenity_shop_1km : Z;
  buildings_total_1km : Z;
  buildings_total_3km : Z;
  landuse_types_3km : Z
}.

(** [scores[i] += d] and [scores[i] = cap(scores[i], m)]. *)
Definition add_to (i : nat) (d : Q) (scores : list Q) : list Q :=
  alter (λ s, s + d) i scores.
Definition cap_at (i : nat) (m : Q) (scores : list Q) : list Q :=
  alter (λ s, cap s m) i scores.

(** [if b: scores = f(scores)]. *)
Definition on (b : bool) (f : list Q → list Q) (scores : list Q) : list Q :=
  if b then f scores else scores.

Definition score_existence (r : row) (scores : list Q) : list Q :=
  let scores := on (0 <? node r)%Z (add_to 0 7) scores in
  let scores :=
    on (0 <? boundary r)%Z
       (λ scores, on (node r =? -1)%Z (add_to 0 7) (add_to 0 8 scores)) scores in
  let scores := add_to 0 (cap (inject_Z (places_total_3km r)) 5) scores in
  cap_at 0 20 scores.

Definition score_roads (r : row) (scores : list Q) : list Q :=
  let scores :=
    on (0 <? road_trunk_3km r + road_primary_3km r + road_secondary_3km r)%Z
       (add_to 1 5) scores in
  let scores := add_to 1 (cap (inject_Z (road_tertiary_3km r)) 5) scores in
  let scores :=
    add_to 1 (inject_Z (road_res_uncl_1km r) * (3 # 10)
              + inject_Z (road_res_uncl_3km r) * (2 # 10)) scores in
  let scores := cap_at 1 20 scores in
  let scores := on (0 <? road_bus_stop_3km r)%Z (add_to 1 2) scores in
  let scores := on (0 <? road_parking_3km r)%Z (add_to 1 2) scores in
  let scores := on (0 <? road_fuel_3km r)%Z (add_to 1 2) scores in
  let scores := add_to 1 (cap (inject_Z (road_types_3km r)) 4) scores in
  cap_at 1 30 scores.

Definition score_amenities (r : row) (scores : list Q) : list Q :=
  let scores := on (0 <? amenity_gov_3km r)%Z (add_to 2 5) scores in
  let scores := on (0 <? amenity_health_1km r)%Z (add_to 2 5) scores in
  let scores := on (0 <? amenity_school_1km r)%Z (add_to 2 5) scores in
  let scores := on (0 <? amenity_police_1km r)%Z (add_to 2 5) scores in
  let scores := on (0 <? amenity_post_1km r)%Z (add_to 2 2) scores in
  let scores := on (0 <? amenity_bank_1km r)%Z (add_to 2 2) scores in
  let scores := add_to 2 (cap (inject_Z (amenity_shop_1km r)) 6) scores in
  cap_at 2 30 scores.

Definition score_landuse (r : row) (scores : list Q) : list Q :=
  let scores :=
    add_to 3 (cap (inject_Z (buildings_total_1km r + buildings_total_3km r)
                   * (1 # 10)) 12) scores in
  let scores := add_to 3 (cap (inject_Z (landuse_types_3km r)) 8) scores in
  cap_at 3 20 scores.

Definition compute_score (r : row) : list Q :=
  let scores := [0; 0; 0; 0] in
  let scores := score_existence r scores in
  let scores := score_roads r scores in
  let scores := score_amenities r scores in
  score_landuse r scores.

(** [df["score"] = score_cols.sum(axis=1)]. *)
Definition total_score (r : row) : Q :=
  foldr Qplus 0 (compute_score r).

(** The roads sub-score as the specification words it: the class bonus,
    the capped tertiary count and the density term are summed and capped at
    20; the three presence bonuses and the capped count of road types are
    added; the result is capped at 30. *)
Definition s2_spec (r : row) : Q :=
  let partial :=
    (if (0 <? road_trunk_3km r + road_primary_3km r + road_secondary_3km r)%Z
     then 5 else 0)
    + cap (inject_Z (road_tertiary_3km r)) 5
    + (inject_Z (road_res_uncl_1km r) * (3 # 10)
       + inject_Z (road_res_uncl_3km r) * (2 # 10)) in
  let capped := cap partial 20 in
  let bonus :=
    (if (0 <? road_bus_stop_3km r)%Z then 2 else 0)
    + (if (0 <? road_parking_3km r)%Z then 2 else 0)
    + (if (0 <? road_fuel_3km r)%Z then 2 else 0)
    + cap (inject_Z (road_types_3km r)) 4 in
  cap (capped + bonus) 30.

(** The same terms with the final cap only. *)
Definition s2_single_cap (r : row) : Q :=
  let partial :=
    (if (0 <? road_trunk_3km r + road_primary_3km r + road_secondary_3km r)%Z
     then 5 else 0)
    + cap (inject_Z (road_tertiary_3km r)) 5
    + (inject_Z (road_res_uncl_1km r) * (3 # 10)
       + inject_Z (road_res_uncl_3km r) * (2 # 10)) in
  let bonus :=
    (if (0 <? road_bus_stop_3km r)%Z then 2 else 0)
    + (if (0 <? road_parking_3km r)%Z then 2 else 0)
    + (if (0 <? road_fuel_3km r)%Z then 2 else 0)
    + cap (inject_Z (road_types_3km r)) 4 in
  cap (partial + bonus) 30.

(** The row on which the intermediate cap matters: a primary road, five
    tertiary roads and a hundred residential roads within 1 km. *)
Definition dense_row : row := {|
  node := -1; boundary := -1; places_total_3km := 0;
  road_trunk_3km := 0; road_primary_3km := 1; road_secondary_3km := 0;
  road_tertiary_3km := 5; road_res_uncl_1km := 100; road_res_uncl_3km := 100;
  road_bus_stop_3km := 0; road_parking_3km := 0; road_fuel_3km := 0;
  road_types_3km := 0;
  amenity_gov_3km := 0; amenity_health_1km := 0; amenity_school_1km := 0;
  amenity_police_1km := 0; amenity_post_1km := 0; amenity_bank_1km := 0;
  amenity_shop_1km := 0;
  buildings_total_1km := 0; buildings_total_3km := 0; landuse_types_3km := 0
|}.

End Scoring.

(** ** Feature counting *)

(** The accumulators of [count_features]. *)
Record counters : Type := {
  places : gset Z;
  roads : gmap string nat;
  road_types : gset string;
  amenities : gmap string nat;
  buildings : gset Z;
  landuse_types : gset string
}.

Definition counters_init : counters := {|
  places := ∅;
  roads := {[ "trunk" := 0; "primary" := 0; "secondary" := 0; "tertiary" := 0;
              "res_uncl" := 0; "bus_stop" := 0; "parking" := 0; "fuel" := 0 ]};
  road_types := ∅;
  amenities := {[ "gov" := 0; "health" := 0; "school" := 0; "police" := 0;
                  "post" := 0; "bank" := 0; "shop" := 0 ]};
  buildings := ∅;
  landuse_types := ∅
|}.

(** [places.add(i)], [road_types.add(h)], [buildings.add(i)],
    [landuse_types.add(v)]. *)
Definition add_place (i : Z) (c : counters) : result counters :=
  Ok {| places := {[ i ]} ∪ places c; roads := roads c;
        road_types := road_types c; amenities := amenities c;
        buildings := buildings c; landuse_types := landuse_types c |}.
Definition add_road_type (h : string) (c : counters) : result counters :=
  Ok {| places := places c; roads := roads c;
        road_types := {[ h ]} ∪ road_types c; amenities := amenities c;
        buildings := buildings c; landuse_types := landuse_types c |}.
Definition add_building (i : Z) (c : counters) : result counters :=
  Ok {| places := places c; roads := roads c;
        road_types := road_types c; amenities := amenities c;
        buildings := {[ i ]} ∪ buildings c; landuse_types := landuse_types c |}.
Definition add_landuse (v : string) (c : counters) : result counters :=
  Ok {| places := places c; roads := roads c;
        road_types := road_types c; amenities := amenities c;
        buildings := buildings c; landuse_types := {[ v ]} ∪ landuse_types c |}.

(** [roads[k] += 1] and [amenities[k] += 1]. *)
Definition incr_road (k : string) (c : counters) : result counters :=
  let* d := incr k (roads c) in
  Ok {| places := places c; roads := d;
        road_types := road_types c; amenities := amenities c;
        buildings := buildings c; landuse_types := landuse_types c |}.
Definition incr_amenity (k : string) (c : counters) : result counters :=
  let* d := incr k (amenities c) in
  Ok {| places := places c; roads := roads c;
        road_types := road_types c; amenities := d;
        buildings := buildings c; landuse_types := landuse_types c |}.

Definition minor_road_types : list string :=
  ["residential"; "unclassified"; "service"; "track";
   "cycleway"; "pedestrian"; "footway"; "path"; "steps"].

(** The [if "highway" in tags:] block of the way loop. *)
Definition count_highway (tags : gmap string string) (c : counters)
  : result counters :=
  match tags !! "highway" with
  | None => Ok c
  | Some h =>
      let* c := (if has h (roads c) then incr_road h c
           else if existsb (String.eqb h) ["residential"; "unclassified"]
                then incr_road "res_uncl" c
                else Ok c) in
      if existsb (String.eqb h) minor_road_types
      then when (negb (bool_decide (h ∈ road_types c))) (add_road_type h) c
      else Ok c
  end.

(** [landuse_types.add(tags["landuse"])]: the subscript raises [KeyError]
    when the key is absent. *)
Definition add_landuse_value (tags : gmap string string) (c : counters)
  : result counters :=
  match tags !! "landuse" with
  | Some v => add_landuse v c
  | None => Raise (KeyError "landuse")
  end.

(** [for h in ("leisure", "tourism", "waterway"): if h in tags: ...]. *)
Definition count_leisure (tags : gmap string string) (c : counters)
  : result counters :=
  for_each (λ c h, when (has h tags) (add_landuse h) c)
           ["leisure"; "tourism"; "waterway"] c.

Definition is_gov (tags : gmap string string) : bool :=
  get_is tags "amenity" "townhall" || get_is tags "office" "government".
Definition is_health (tags : gmap string string) : bool :=
  get_in tags "amenity" ["hospital"; "clinic"].
Definition is_school (tags : gmap string string) : bool :=
  get_is tags "amenity" "school" || get_is tags "education" "school".
Definition is_shop (tags : gmap string string) : bool :=
  has "shop" tags || has "cuisine" tags
  || get_in tags "tourism" ["hotel"; "apartment"].
Definition is_bus_stop (tags : gmap string string) : bool :=
  has "bus" tags || get_is tags "highway" "bus_stop"
  || has "public_transport" tags.

(** The body of [for way in osm_root.xpath("//way")]. *)
Definition count_way (c : counters) (way : osm_way) : result counters :=
  let tags := tags_of (w_tag way) in
  chain [
    count_highway tags;
    when (has "building" tags) (add_building (w_id way));
    when (has "man_made" tags) (add_building (w_id way));
    when (is_gov tags) (incr_amenity "gov");
    when (is_health tags) (incr_amenity "health");
    when (is_school tags) (incr_amenity "school");
    when (get_is tags "amenity" "police") (incr_amenity "police");
    when (get_is tags "amenity" "post_office") (incr_amenity "post");
    when (get_is tags "amenity" "bank") (incr_amenity "bank");
    when (is_shop tags) (incr_amenity "shop");
    when (is_bus_stop tags) (incr_road "bus_stop");
    when (get_is tags "amenity" "parking") (incr_road "parking");
    when (get_is tags "amenity" "fuel") (incr_road "fuel");
    when (has "landuse" tags || has "natrual" tags) (add_landuse_value tags);
    count_leisure tags
  ] c.

(** [buildings.add(way.get("id"))] inside the node loop: [way] is the loop
    variable of the way loop, bound to the last way once that loop has run
    and unbound when the graph has no way. *)
Definition add_building_of_way (way : option osm_way) (c : counters)
  : result counters :=
  match way with
  | Some w => add_building (w_id w) c
  | None => Raise (UnboundLocalError "way")
  end.

(** The body of [for node in osm_root.xpath("//node")]. *)
Definition count_node (way : option osm_way) (c : counters) (node : osm_node)
  : result counters :=
  let tags := tags_of (n_tag node) in
  chain [
    when (has "place" tags && has "name" tags) (add_place (n_id node));
    when (is_gov tags) (incr_amenity "gov");
    when (is_health tags) (incr_amenity "health");
    when (is_school tags) (incr_amenity "police");
    when (get_is tags "amenity" "police") (incr_amenity "police");
    when (get_is tags "amenity" "post_office") (incr_amenity "post");
    when (get_is tags "amenity" "bank") (incr_amenity "bank");
    when (is_shop tags) (incr_amenity "shop");
    when (is_bus_stop tags) (incr_road "bus_stop");
    when (get_is tags "amenity" "fuel") (incr_road "fuel");
    when (get_is tags "amenity" "parking") (incr_road "parking");
    when (has "man_made" tags) (add_building_of_way way);
    count_leisure tags
  ] c.

(** What [count_features] returns: [roads, amenities, len(places),
    len(buildings), len(road_types), len(landuse_types)]. *)
Record feature_counts : Type := {
  fc_roads : gmap string nat;
  fc_amenities : gmap string nat;
  fc_places : nat;
  fc_buildings : nat;
  fc_road_types : nat;
  fc_landuse_types : nat
}.

Definition count_features (osm_root : osm) : result feature_counts :=
  let* c := for_each count_way (ways osm_root) counters_init in
  let* c := for_each (count_node (last (ways osm_root))) (nodes osm_root) c in
  Ok {| fc_roads := roads c;
        fc_amenities := amenities c;
        fc_places := size (places c);
        fc_buildings := size (buildings c);
        fc_road_types := size (road_types c);
        fc_landuse_types := size (landuse_types c) |}.

(** ** Entity resolution *)

(** [s in t] on strings: [s] occurs in [t] as a contiguous substring. *)
Fixpoint str_in (s t : string) : bool :=
  String.prefix s t ||
  match t with
  | EmptyString => false
  | String _ t' => str_in s t'
  end.

(** [k in tags and addr_4 == tags.get(k)]. *)
Definition tag_equals (addr_4 : string) (tags : gmap string string) (k : string)
  : bool :=
  has k tags && get_is tags k addr_4.

(** [k in tags and addr_4 in tags.get(k)]. *)
Definition tag_contains (addr_4 : string) (tags : gmap string string) (k : string)
  : bool :=
  match tags !! k with
  | Some v => str_in addr_4 v
  | None => false
  end.

(** The nested [match_name]. With [exact_match] it compares the ten tags of
    the name family for equality. Without it, it tests containment in
    [name] and in the four other tags without a language suffix;
    [addr_4 in tags.get("name")] raises [TypeError] when there is no
    [name] tag. *)
Definition match_name (addr_4 : string) (tags : gmap string string)
    (exact_match : bool) : result bool :=
  if exact_match then
    Ok (get_is tags "name" addr_4
        || tag_equals addr_4 tags "name:zh"
        || tag_equals addr_4 tags "official_name"
        || tag_equals addr_4 tags "official_name:zh"
        || tag_equals addr_4 tags "alt_name"
        || tag_equals addr_4 tags "alt_name:zh"
        || tag_equals addr_4 tags "old_name"
        || tag_equals addr_4 tags "old_name:zh"
        || tag_equals addr_4 tags "short_name"
        || tag_equals addr_4 tags "short_name:zh")
  else
    match tags !! "name" with
    | None => Raise TypeError
    | Some name =>
        Ok (str_in addr_4 name
            || tag_contains addr_4 tags "official_name"
            || tag_contains addr_4 tags "alt_name"
            || tag_contains addr_4 tags "old_name"
            || tag_contains addr_4 tags "short_name")
    end.

(** The local variables of [infer_node_and_boundary]. *)
Record resolution : Type := {
  node_id : Z;
  boundary_id : Z;
  node_lon : option float;
  node_lat : option float;
  place_cands : gmap Z osm_node
}.

Definition resolution_init : resolution := {|
  node_id := -1;
  boundary_id := -1;
  node_lon := None;
  node_lat := None;
  place_cands := ∅
|}.

Definition set_node_id (i : Z) (st : resolution) : resolution :=
  {| node_id := i; boundary_id := boundary_id st; node_lon := node_lon st;
     node_lat := node_lat st; place_cands := place_cands st |}.
Definition set_boundary_id (i : Z) (st : resolution) : resolution :=
  {| node_id := node_id st; boundary_id := i; node_lon := node_lon st;
     node_lat := node_lat st; place_cands := place_cands st |}.
Definition set_coordinate (n : osm_node) (st : resolution) : resolution :=
  {| node_id := node_id st; boundary_id := boundary_id st;
     node_lon := Some (n_lon n); node_lat := Some (n_lat n);
     place_cands := place_cands st |}.
Definition add_place_cand (n : osm_node) (st : resolution) : resolution :=
  {| node_id := node_id st; boundary_id := boundary_id st;
     node_lon := node_lon st; node_lat := node_lat st;
     place_cands := <[n_id n := n]> (place_cands st) |}.

(** The tag test that makes a named node a place candidate. *)
Definition is_place_cand (tags : gmap string string) : bool :=
  has "capital" tags || has "place" tags || has "place:CN" tags
  || (has "amenity" tags && get_is tags "amenity" "townhall")
  || (has "office" tags && get_is tags "office" "government").

(** [has "capital" tags or match_name(addr_4, name_tags, exact_match=True)],
    evaluated left to right. *)
Definition capital_or_exact (addr_4 : string) (tags name_tags : gmap string string)
  : result bool :=
  if has "capital" tags then Ok true else match_name addr_4 name_tags true.

(** The body of [for n in osm_root.xpath("//node")]. *)
Definition scan_node (addr_4 : string) (st : resolution) (n : osm_node)
  : result resolution :=
  let tags := tags_of (n_tag n) in
  if negb (has "name" tags) then Ok st
  else if negb (is_place_cand tags) then Ok st
  else
    let st := add_place_cand n st in
    if negb (node_id st <? 0)%Z then Ok st
    else
      let* fuzzy := match_name addr_4 tags false in
      if negb fuzzy then Ok st
      else
        let st := set_coordinate n st in
        if negb (has "place" tags) then Ok st
        else
          let* accept := capital_or_exact addr_4 tags tags in
          Ok (if accept then set_node_id (n_id n) st else st).

(** [for m in r.findall("member")], where [tags] are the tags of the
    relation [r]; the loop ends at its [break]. *)
Fixpoint scan_members (addr_4 : string) (tags : gmap string string)
    (ms : list osm_member) (st : resolution) : result resolution :=
  match ms with
  | [] => Ok st
  | m :: ms' =>
      if negb (String.eqb (m_type m) "node") then scan_members addr_4 tags ms' st
      else if negb (existsb (String.eqb (m_role m)) ["label"; "admin_centre"])
      then scan_members addr_4 tags ms' st
      else
        match place_cands st !! m_ref m with
        | None => scan_members addr_4 tags ms' st
        | Some node =>
            let node_tags := tags_of (n_tag node) in
            let st := set_coordinate node (set_node_id (-2) st) in
            if negb (has "place" node_tags) then scan_members addr_4 tags ms' st
            else
              let* fuzzy := match_name addr_4 node_tags false in
              if negb fuzzy then scan_members addr_4 tags ms' st
              else
                let* accept := capital_or_exact addr_4 node_tags tags in
                if accept then Ok (set_node_id (n_id node) st)
                else scan_members addr_4 tags ms' st
        end
  end.

(** The test that selects a relation as the boundary. *)
Definition is_boundary (tags : gmap string string) : bool :=
  get_is tags "boundary" "administrative" || get_is tags "boundary" "historic".

(** [for r in osm_root.xpath("//relation")]; the loop ends at its [break]. *)
Fixpoint scan_relations (addr_4 : string) (rs : list osm_relation)
    (st : resolution) : result resolution :=
  match rs with
  | [] => Ok st
  | r :: rs' =>
      let tags := tags_of (r_tag r) in
      if negb (has "name" tags) then scan_relations addr_4 rs' st
      else if negb (is_boundary tags) then scan_relations addr_4 rs' st
      else
        let* fuzzy := match_name addr_4 tags false in
        if negb fuzzy then scan_relations addr_4 rs' st
        else
          let* st := scan_members addr_4 tags (r_member r) (set_boundary_id (r_id r) st) in
          let* exact := match_name addr_4 tags true in
          if exact then Ok st else scan_relations addr_4 rs' st
  end.

(** The branch [if osm_root != None] of [infer_node_and_boundary]. *)
Definition infer_local (addr_4 : string) (osm_root : osm) : result resolution :=
  let* st := for_each (scan_node addr_4) (nodes osm_root) resolution_init in
  scan_relations addr_4 (relations osm_root) st.

(** [return node_id, boundary_id, node_lon, node_lat]. *)
Definition answer (st : resolution) : Z * Z * option float * option float :=
  (node_id st, boundary_id st, node_lon st, node_lat st).

(** ** The world outside: cache files, the Overpass service, the clock *)

(** The text of an Overpass query is determined by the values formatted
    into it: [around] is the query of [get_osm_data], [named] the one of
    the remote branch of [infer_node_and_boundary]. *)
Inductive query : Type :=
| around (radius_m : Z) (lat lon : float)
| named (radius_m : Z) (lat lon : float) (addr_4 : string).

Record response : Type := {
  status_code : Z;
  text : string
}.

(** What one call of [requests.post] does: it returns a response or raises
    a [RequestException] (connection error, timeout, ...). *)
Inductive post_outcome : Type :=
| Responded (r : response)
| RequestException.

(** [files] is the content of the cache directory, [net] what the service
    answers to the n-th request ever posted, [posted] the requests posted so
    far and [slept] the arguments of the calls of [time.sleep] so far. *)
Record world : Type := {
  files : gmap string string;
  net : nat → query → post_outcome;
  posted : list query;
  slept : list nat
}.

Definition io (A : Type) : Type := world → result A * world.

Definition io_ret {A : Type} (a : A) : io A := λ w, (Ok a, w).
Definition io_raise {A : Type} (e : exn) : io A := λ w, (Raise e, w).
Definition io_bind {A B : Type} (m : io A) (k : A → io B) : io B := λ w,
  match m w with
  | (Ok a, w') => k a w'
  | (Raise e, w') => (Raise e, w')
  end.
Definition io_lift {A : Type} (r : result A) : io A := λ w, (r, w).

Notation "'let+' x := m 'in' k" := (io_bind m (λ x, k))
  (at level 10, x name, k at level 200).

(** [requests.post(url, data=data, headers=headers, timeout=timeout)]. *)
Definition requests_post (data : query) : io post_outcome := λ w,
  (Ok (net w (length (posted w)) data),
   {| files := files w; net := net w; posted := posted w ++ [data];
      slept := slept w |}).

(** [time.sleep(seconds)]. *)
Definition time_sleep (seconds : nat) : io unit := λ w,
  (Ok tt,
   {| files := files w; net := net w; posted := posted w;
      slept := slept w ++ [seconds] |}).

(** [path.exists()] and [path.is_file()]. *)
Definition path_exists (path : string) : io bool := λ w,
  (Ok (has path (files w)), w).

Definition load_osm (filename : string) : io string := λ w,
  match files w !! filename with
  | Some content => (Ok content, w)
  | None => (Raise (FileNotFoundError filename), w)
  end.

Definition save_osm (content filename : string) : io unit := λ w,
  (Ok tt,
   {| files := <[filename := content]> (files w); net := net w;
      posted := posted w; slept := slept w |}).

(** ** The retrying HTTP layer *)

(** [r.raise_for_status()] raises [HTTPError], a [RequestException], on a
    4xx or 5xx status. *)
Definition raise_for_status (r : response) : bool :=
  (400 <=? status_code r)%Z && (status_code r <? 600)%Z.

(** Whether the [try] block of one attempt ends in the [except] clause. *)
Definition attempt_fails (o : post_outcome) : bool :=
  match o with
  | Responded r => raise_for_status r
  | RequestException => true
  end.

(** [for attempt in attempts: try: ... return r; except: ...; sleep],
    followed by [return None]. *)
Fixpoint safe_post_attempts (data : query) (attempts : list nat)
  : io (option response) :=
  match attempts with
  | [] => io_ret None
  | attempt :: attempts' =>
      let+ o := requests_post data in
      match o with
      | Responded r =>
          if raise_for_status r
          then let+ _ := time_sleep (2 * attempt) in
               safe_post_attempts data attempts'
          else io_ret (Some r)
      | RequestException =>
          let+ _ := time_sleep (2 * attempt) in
          safe_post_attempts data attempts'
      end
  end.

(** [safe_post(url, data, headers, timeout, max_retry)]; the URL, the
    headers and the timeout are the same in every call and are part of
    [net]. *)
Definition safe_post (data : query) (max_retry : nat) : io (option response) :=
  safe_post_attempts data (seq 1 max_retry).

Definition safe_overpass_xml (data : query) : io (option string) :=
  let+ r := safe_post data 5 in
  io_ret (text <$> r).

(** ** Acquisition with cache *)

Definition get_osm_data (lon lat : float) (radius_m : Z) (osm_file : string)
    (force_update : bool) : io (option string) :=
  let+ cached := path_exists osm_file in
  if cached && negb force_update then
    let+ content := load_osm osm_file in
    io_ret (Some content)
  else
    let+ osm_xml := safe_overpass_xml (around radius_m lat lon) in
    match osm_xml with
    | None => io_ret None
    | Some xml =>
        let+ _ := save_osm xml osm_file in
        let+ _ := time_sleep 2 in
        io_ret (Some xml)
    end.

(** ** The per-place pipeline *)

Definition OFF_LINE : bool := false.

(** [OUTPUT_DIR / f"{pname}_{r}km.osm"]. *)
Definition cache_file (pname : string) (r : Z) : string :=
  "osm_cache/" ++ pname ++ "_" ++ pretty r ++ "km.osm".

(** [nlon != lon] on floats. *)
Definition float_ne (a b : float) : bool := negb (PrimFloat.eqb a b).

(** Lines 517 to 524 of [process_places]: the coordinate the pipeline goes
    on with, and [force_update]. *)
Definition correct_coordinate (lon lat : float) (nlon nlat : option float)
  : float * float * bool :=
  match nlon, nlat with
  | Some nlon, Some nlat =>
      if float_ne nlon lon || float_ne nlat lat
      then (nlon, nlat, true)
      else (lon, lat, false)
  | _, _ => (lon, lat, false)
  end.

(** One processed place: the coordinate and ids of the row, and the counts
    of the radii that were acquired, in the order they were counted. *)
Record place : Type := {
  p_lon : float;
  p_lat : float;
  p_node : Z;
  p_boundary : Z;
  p_force_update : bool;
  p_counts : list (Z * feature_counts)
}.

Section Pipeline.

(** [parse_osm]: the document tree of the text, or [XMLSyntaxError]. *)
Variable parse_osm : string → result osm.

(** [parse_osm(xml)] where [xml] is what [get_osm_data] returned: encoding
    [None] raises [AttributeError]. *)
Definition parse_fetched (xml : option string) : io osm :=
  match xml with
  | Some x => io_lift (parse_osm x)
  | None => io_raise AttributeError
  end.

(** The branch [else] of [infer_node_and_boundary]: the first node and the
    first relation of what the service returns. *)
Definition infer_remote (addr_4 : string) (lon lat : float)
  : io (Z * Z * option float * option float) :=
  if OFF_LINE then io_ret (-1, -1, None, None)%Z
  else
    let+ xml := safe_overpass_xml (named 15000 lat lon addr_4) in
    match xml with
    | None => io_ret (-1, -1, None, None)%Z
    | Some x =>
        let+ root := io_lift (parse_osm x) in
        let st :=
          match nodes root with
          | n :: _ => set_coordinate n (set_node_id (n_id n) resolution_init)
          | [] => resolution_init
          end in
        let st :=
          match relations root with
          | r :: _ => set_boundary_id (r_id r) st
          | [] => st
          end in
        io_ret (answer st)
    end.

(** [addr] is given as the list [addr.split()] of its segments; [[-1]] of
    an empty list raises [IndexError]. *)
Definition infer_node_and_boundary (addr : list string) (lon lat : float)
    (osm_root : option osm) : io (Z * Z * option float * option float) :=
  match last addr with
  | None => io_raise IndexError
  | Some addr_4 =>
      match osm_root with
      | Some root =>
          io_lift (let* st := infer_local addr_4 root in Ok (answer st))
      | None => infer_remote addr_4 lon lat
      end
  end.

(** Lines 510 to 515: the cached 3 km graph, when there is one. *)
Definition cached_root (pname : string) (lon lat : float) : io (option osm) :=
  let osm_file := cache_file pname 3%Z in
  let+ cached := path_exists osm_file in
  if cached then
    let+ xml := get_osm_data lon lat (3 * 1000)%Z osm_file false in
    let+ root := parse_fetched xml in
    io_ret (Some root)
  else io_ret None.

(** [for r in (3, 1)]: acquire, parse and count; the loop ends at its
    [break] when the acquisition fails. *)
Fixpoint count_radii (pname : string) (lon lat : float) (force_update : bool)
    (radii : list Z) : io (list (Z * feature_counts)) :=
  match radii with
  | [] => io_ret []
  | r :: radii' =>
      let+ xml := get_osm_data lon lat (r * 1000)%Z (cache_file pname r)
                               force_update in
      match xml with
      | None => io_ret []
      | Some x =>
          let+ root := io_lift (parse_osm x) in
          let+ fc := io_lift (count_features root) in
          let+ rest := count_radii pname lon lat force_update radii' in
          io_ret ((r, fc) :: rest)
      end
  end.

(** The body of the loop of [process_places] for one place, from the
    existence inference on. *)
Definition process_place (addr : list string) (lon lat : float) (pname : string)
  : io place :=
  let+ osm_root := cached_root pname lon lat in
  let+ found := infer_node_and_boundary addr lon lat osm_root in
  let '(node_id, boundary_id, nlon, nlat) := found in
  let '(lon, lat, force_update) := correct_coordinate lon lat nlon nlat in
  let+ counts := count_radii pname lon lat force_update [3; 1]%Z in
  io_ret {| p_lon := lon; p_lat := lat; p_node := node_id;
            p_boundary := boundary_id; p_force_update := force_update;
            p_counts := counts |}.

End Pipeline.

(** [row[f"road_{k}_{r}km"]] and [row[f"amenity_{k}_{r}km"]] of a place:
    the count of key [k] at radius [r]. *)
Definition count_at (counts : list (Z * feature_counts)) (r : Z)
  : option feature_counts :=
  (list_to_map counts : gmap Z feature_counts) !! r.

Definition column (d : gmap string nat) (k : string) : option Z :=
  Z.of_nat <$> d !! k.

(** The data-frame row of a place for which both radii were counted. *)
Definition row_of_place (p : place) : option row :=
  c3 ← count_at (p_counts p) 3%Z;
  c1 ← count_at (p_counts p) 1%Z;
  trunk3 ← column (fc_roads c3) "trunk";
  primary3 ← column (fc_roads c3) "primary";
  secondary3 ← column (fc_roads c3) "secondary";
  tertiary3 ← column (fc_roads c3) "tertiary";
  res_uncl1 ← column (fc_roads c1) "res_uncl";
  res_uncl3 ← column (fc_roads c3) "res_uncl";
  bus_stop3 ← column (fc_roads c3) "bus_stop";
  parking3 ← column (fc_roads c3) "parking";
  fuel3 ← column (fc_roads c3) "fuel";
  gov3 ← column (fc_amenities c3) "gov";
  health1 ← column (fc_amenities c1) "health";
  school1 ← column (fc_amenities c1) "school";
  police1 ← column (fc_amenities c1) "police";
  post1 ← column (fc_amenities c1) "post";
  bank1 ← column (fc_amenities c1) "bank";
  shop1 ← column (fc_amenities c1) "shop";
  Some {| node := p_node p;
          boundary := p_boundary p;
          places_total_3km := Z.of_nat (fc_places c3);
          road_trunk_3km := trunk3;
          road_primary_3km := primary3;
          road_secondary_3km := secondary3;
          road_tertiary_3km := tertiary3;
          road_res_uncl_1km := res_uncl1;
          road_res_uncl_3km := res_uncl3;
          road_bus_stop_3km := bus_stop3;
          road_parking_3km := parking3;
          road_fuel_3km := fuel3;
          road_types_3km := Z.of_nat (fc_road_types c3);
          amenity_gov_3km := gov3;
          amenity_health_1km := health1;
          amenity_school_1km := school1;
          amenity_police_1km := police1;
          amenity_post_1km := post1;
          amenity_bank_1km := bank1;
          amenity_shop_1km := shop1;
          buildings_total_1km := Z.of_nat (fc_buildings c1);
          buildings_total_3km := Z.of_nat (fc_buildings c3);
          landuse_types_3km := Z.of_nat (fc_landuse_types c3) |}.


(** ** Predicates of the statements *)

(** The tags the fuzzy branch of [match_name] reads. *)
Definition fuzzy_keys : list string :=
  ["name"; "official_name"; "alt_name"; "old_name"; "short_name"].

(** A relation that the relation loop selects as boundary and at which it
    stops: named, an administrative or historic boundary, matching the
    segment fuzzily and exactly. *)
Definition exact_boundary (addr_4 : string) (r : osm_relation) : Prop :=
  let tags := tags_of (r_tag r) in
  has "name" tags = true
  ∧ is_boundary tags = true
  ∧ match_name addr_4 tags false = Ok true
  ∧ match_name addr_4 tags true = Ok true.

(** Every collected place candidate has a [name] tag. *)
Definition cands_named (st : resolution) : Prop :=
  ∀ i n, place_cands st !! i = Some n → has "name" (tags_of (n_tag n)) = true.

(** Whether the resolver found a coordinate that differs from the input of
    the pipeline. *)
Definition coordinate_differs (lon lat : float) (nlon nlat : option float)
  : Prop :=
  ∃ x y, nlon = Some x ∧ nlat = Some y
         ∧ (float_ne x lon = true ∨ float_ne y lat = true).

(** What [process_place] returns when both graphs come from the cache and
    the coordinate stays: the counts of the two cached graphs, 3 km first. *)
Definition counts_from_cache (parse_osm : string → result osm) (root : osm)
    (xml1 : string) (lon lat : float) (st : resolution) : result place :=
  let* fc3 := count_features root in
  let* root1 := parse_osm xml1 in
  let* fc1 := count_features root1 in
  Ok {| p_lon := lon; p_lat := lat; p_node := node_id st;
        p_boundary := boundary_id st; p_force_update := false;
        p_counts := [(3%Z, fc3); (1%Z, fc1)] |}.

(** The element ids that carry a [building] or [man_made] tag, as the
    specification words the building set: ways and nodes, each with its own
    id. *)
Definition carries_building (tags : gmap string string) : bool :=
  has "building" tags || has "man_made" tags.
Definition building_ids_spec (osm_root : osm) : gset Z :=
  list_to_set (w_id <$> filter (λ w, carries_building (tags_of (w_tag w)) = true)
                               (ways osm_root))
  ∪ list_to_set (n_id <$> filter (λ n, carries_building (tags_of (n_tag n)) = true)
                                 (nodes osm_root)).

(** [step] keeps the relation [R] when every run of it that returns relates
    the counters it started from to those it returns. *)
Definition keeps (R : counters → counters → Prop)
    (step : counters → result counters) : Prop :=
  ∀ c c', step c = Ok c' → R c c'.

(** The [school] counter is as it was. *)
Definition same_school (c c' : counters) : Prop :=
  amenities c' !! "school" = amenities c !! "school".

(** The building set has grown by the id [i] at most. *)
Definition buildings_up_to (i : Z) (c c' : counters) : Prop :=
  buildings c' ⊆ buildings c ∪ {[ i ]}.

(** The two dictionaries have the keys they had. *)
Definition same_keys (c c' : counters) : Prop :=
  dom (roads c') = dom (roads c) ∧ dom (amenities c') = dom (amenities c).

(** ** Example inputs *)

(** A tagged way, node and relation with no other content. *)
Definition way_with (i : Z) (tag : list (string * string)) : osm_way :=
  {| w_id := i; w_nd := []; w_tag := tag |}.
Definition node_with (i : Z) (tag : list (string * string)) : osm_node :=
  {| n_id := i; n_lon := 0%float; n_lat := 0%float; n_tag := tag |}.
Definition relation_with (i : Z) (tag : list (string * string)) : osm_relation :=
  {| r_id := i; r_tag := tag; r_member := [] |}.

(** The graph of the specification's example: one [highway=primary] way and
    one [amenity=school] node. *)
Definition school_graph : osm := {|
  nodes := [node_with 2 [("amenity", "school")]];
  ways := [way_with 1 [("highway", "primary")]];
  relations := []
|}.

(** A building way and a node that carries [man_made]. *)
Definition tower_graph : osm := {|
  nodes := [node_with 2 [("man_made", "tower")]];
  ways := [way_with 1 [("building", "yes")]];
  relations := []
|}.

(** A way that carries [natrual] and no [landuse]. *)
Definition natrual_graph : osm := {|
  nodes := [];
  ways := [way_with 1 [("natrual", "wood")]];
  relations := []
|}.

(** A [man_made] node in a graph without ways. *)
Definition lone_tower_graph : osm := {|
  nodes := [node_with 2 [("man_made", "tower")]];
  ways := [];
  relations := []
|}.

(** Tags whose only match for [Mingguang] is [name:zh]. *)
Definition zh_only_tags : gmap string string :=
  tags_of [("name", "Town Hall"); ("name:zh", "Mingguang Road")].

(** The sample place: its four segments, its cache key and its input
    coordinate. *)
Definition sample_addr : list string := ["Anhui"; "Hefei"; "Shiqu"; "Yaohai"].
Definition sample_pname : string := "Anhui_Hefei_Shiqu_Yaohai".
Definition sample_lon : float := 117.25%float.
Definition sample_lat : float := 31.875%float.

(** Two boundary relations for the segment [Yaohai]: relation 10 contains
    it in its name, relation 20 is named exactly so. *)
Definition yaohai_exact : osm_relation :=
  relation_with 20 [("boundary", "administrative"); ("name", "Yaohai")].
Definition yaohai_graph : osm := {|
  nodes := [];
  ways := [];
  relations :=
    [relation_with 10 [("boundary", "administrative"); ("name", "Yaohai District")];
     yaohai_exact]
|}.

(** A graph with a place node and a boundary, neither matching [Yaohai]. *)
Definition elsewhere_graph : osm := {|
  nodes := [node_with 1 [("place", "suburb"); ("name", "Luyang")]];
  ways := [];
  relations :=
    [relation_with 10 [("boundary", "administrative"); ("name", "Luyang District")]]
|}.

(** A cached graph whose place node [Yaohai] lies at the input coordinate
    of the sample place, the parser that reads it from any text, and what
    local resolution finds in it. *)
Definition sample_node : osm_node :=
  {| n_id := 7; n_lon := sample_lon; n_lat := sample_lat;
     n_tag := [("place", "suburb"); ("name", "Yaohai")] |}.
Definition sample_graph : osm := {|
  nodes := [sample_node];
  ways := [way_with 1 [("highway", "primary")]];
  relations := []
|}.
Definition sample_parse (xml : string) : result osm := Ok sample_graph.
Definition sample_resolution : resolution :=
  set_node_id 7 (set_coordinate sample_node
                   (add_place_cand sample_node resolution_init)).

(** A world whose cache holds both graphs of the sample place and whose
    network is down. *)
Definition cached_world : world := {|
  files := {[ cache_file sample_pname 3 := "<osm/>";
              cache_file sample_pname 1 := "<osm/>" ]};
  net := λ _ _, RequestException;
  posted := [];
  slept := []
|}.

(** ** The sub-scores as sums *)

Section ScoringSums.
Local Open Scope Q_scope.

(** [v] when the count is positive. *)
Definition bonus (count : Z) (v : Q) : Q := if (0 <? count)%Z then v else 0.

(** The four blocks of [compute_score] without their last cap. *)
Definition s1_sum (r : row) : Q :=
  bonus (node r) 7
  + (if (0 <? boundary r)%Z then 8 + (if (node r =? -1)%Z then 7 else 0) else 0)
  + cap (inject_Z (places_total_3km r)) 5.

Definition s2_sum (r : row) : Q :=
  cap (bonus (road_trunk_3km r + road_primary_3km r + road_secondary_3km r) 5
       + cap (inject_Z (road_tertiary_3km r)) 5
       + (inject_Z (road_res_uncl_1km r) * (3 # 10)
          + inject_Z (road_res_uncl_3km r) * (2 # 10))) 20
  + bonus (road_bus_stop_3km r) 2
  + bonus (road_parking_3km r) 2
  + bonus (road_fuel_3km r) 2
  + cap (inject_Z (road_types_3km r)) 4.

Definition s3_sum (r : row) : Q :=
  bonus (amenity_gov_3km r) 5
  + bonus (amenity_health_1km r) 5
  + bonus (amenity_school_1km r) 5
  + bonus (amenity_police_1km r) 5
  + bonus (amenity_post_1km r) 2
  + bonus (amenity_bank_1km r) 2
  + cap (inject_Z (amenity_shop_1km r)) 6.

Definition s4_sum (r : row) : Q :=
  cap (inject_Z (buildings_total_1km r + buildings_total_3km r) * (1 # 10)) 12
  + cap (inject_Z (landuse_types_3km r)) 8.

(** The counts of a row that enter a score by their size are not
    negative. *)
Definition counts_nonneg (r : row) : Prop :=
  (0 <= places_total_3km r)%Z
  ∧ (0 <= road_tertiary_3km r)%Z
  ∧ (0 <= road_res_uncl_1km r)%Z
  ∧ (0 <= road_res_uncl_3km r)%Z
  ∧ (0 <= road_types_3km r)%Z
  ∧ (0 <= amenity_shop_1km r)%Z
  ∧ (0 <= buildings_total_1km r)%Z
  ∧ (0 <= buildings_total_3km r)%Z
  ∧ (0 <= landuse_types_3km r)%Z.

End ScoringSums.

(** ** What the counters count *)

(** The number of ways, and of nodes, whose tags pass a test. *)
Definition count_ways (test : gmap string string → bool) (osm_root : osm) : nat :=
  length (filter (λ w, test (tags_of (w_tag w)) = true) (ways osm_root)).
Definition count_nodes (test : gmap string string → bool) (osm_root : osm) : nat :=
  length (filter (λ n, test (tags_of (n_tag n)) = true) (nodes osm_root)).

(** [tags.get("highway") == k] and [tags.get("amenity") == v]. *)
Definition highway_is (k : string) (tags : gmap string string) : bool :=
  get_is tags "highway" k.
Definition amenity_is (v : string) (tags : gmap string string) : bool :=
  get_is tags "amenity" v.

(** [tags.get("highway") in vs]. *)
Definition highway_in (vs : list string) (tags : gmap string string) : bool :=
  get_in tags "highway" vs.

(** The entry [k] of the dictionary [dict] has grown by [n]. *)
Definition adds (dict : counters → gmap string nat) (k : string) (n : nat)
    (c c' : counters) : Prop :=
  dict c' !! k = (λ v, v + n) <$> dict c !! k.

(** What the [highway] block of the way loop adds to [roads[k]]. *)
Definition highway_adds (k : string) (tags : gmap string string) : nat :=
  match tags !! "highway" with
  | Some h =>
      if has h (roads counters_init) then Nat.b2n (String.eqb h k)
      else if existsb (String.eqb h) ["residential"; "unclassified"]
           then Nat.b2n (String.eqb "res_uncl" k)
           else 0
  | None => 0
  end.

(** What one way, and one node, adds to [roads[k]] and [amenities[k]]. *)
Definition way_road_adds (k : string) (tags : gmap string string) : nat :=
  highway_adds k tags
  + Nat.b2n (is_bus_stop tags && String.eqb "bus_stop" k)
  + Nat.b2n (amenity_is "parking" tags && String.eqb "parking" k)
  + Nat.b2n (amenity_is "fuel" tags && String.eqb "fuel" k).
Definition node_road_adds (k : string) (tags : gmap string string) : nat :=
  Nat.b2n (is_bus_stop tags && String.eqb "bus_stop" k)
  + Nat.b2n (amenity_is "fuel" tags && String.eqb "fuel" k)
  + Nat.b2n (amenity_is "parking" tags && String.eqb "parking" k).
Definition way_amenity_adds (k : string) (tags : gmap string string) : nat :=
  Nat.b2n (is_gov tags && String.eqb "gov" k)
  + Nat.b2n (is_health tags && String.eqb "health" k)
  + Nat.b2n (is_school tags && String.eqb "school" k)
  + Nat.b2n (amenity_is "police" tags && String.eqb "police" k)
  + Nat.b2n (amenity_is "post_office" tags && String.eqb "post" k)
  + Nat.b2n (amenity_is "bank" tags && String.eqb "bank" k)
  + Nat.b2n (is_shop tags && String.eqb "shop" k).
Definition node_amenity_adds (k : string) (tags : gmap string string) : nat :=
  Nat.b2n (is_gov tags && String.eqb "gov" k)
  + Nat.b2n (is_health tags && String.eqb "health" k)
  + Nat.b2n (is_school tags && String.eqb "police" k)
  + Nat.b2n (amenity_is "police" tags && String.eqb "police" k)
  + Nat.b2n (amenity_is "post_office" tags && String.eqb "post" k)
  + Nat.b2n (amenity_is "bank" tags && String.eqb "bank" k)
  + Nat.b2n (is_shop tags && String.eqb "shop" k).

(** The statements that touch neither dictionary. *)
Definition keeps_dicts (step : counters → result counters) : Prop :=
  ∀ c c', step c = Ok c' → roads c' = roads c ∧ amenities c' = amenities c.

(** The values of [highway] counted under [res_uncl]. *)
Definition res_uncl_values : list string :=
  ["res_uncl"; "residential"; "unclassified"].

(** ** When the counter raises *)

(** A way that makes the way loop raise: it carries [natrual] and no
    [landuse]. *)
Definition raising_tags (tags : gmap string string) : bool :=
  has "natrual" tags && negb (has "landuse" tags).
Definition raising_way (osm_root : osm) : bool :=
  existsb (λ w, raising_tags (tags_of (w_tag w))) (ways osm_root).

(** A graph without ways in which a node carries [man_made]. *)
Definition unbound_way (osm_root : osm) : bool :=
  match ways osm_root with
  | [] => existsb (λ n, has "man_made" (tags_of (n_tag n))) (nodes osm_root)
  | _ :: _ => false
  end.

(** The dictionaries have the keys they were created with. *)
Definition keyed (c : counters) : Prop := same_keys counters_init c.

(** A statement that returns on every keyed state. *)
Definition returns (step : counters → result counters) : Prop :=
  ∀ c, keyed c → ∃ c', step c = Ok c'.

(** A graph on which each counter is hit: a way tagged as a bus stop by its
    [highway] value, a residential way, a school way, and nodes tagged as
    school, police and bus stop. *)
Definition busy_graph : osm := {|
  nodes := [node_with 11 [("amenity", "school")];
            node_with 12 [("amenity", "police")];
            node_with 13 [("highway", "bus_stop")]];
  ways := [way_with 1 [("highway", "bus_stop")];
           way_with 2 [("highway", "residential")];
           way_with 3 [("amenity", "school"); ("building", "yes")]];
  relations := []
|}.

(** ** What the sets hold *)

(** Which of [leisure], [tourism] and [waterway] are keys of the tags. *)
Definition leisure_keys (tags : gmap string string) : gset string :=
  list_to_set (filter (λ h, has h tags = true) ["leisure"; "tourism"; "waterway"]).

(** What one way adds to [buildings], [road_types] and [landuse_types]. *)
Definition way_buildings (w : osm_way) : gset Z :=
  if carries_building (tags_of (w_tag w)) then {[ w_id w ]} else ∅.
Definition way_road_types (w : osm_way) : gset string :=
  match tags_of (w_tag w) !! "highway" with
  | Some h => if existsb (String.eqb h) minor_road_types then {[ h ]} else ∅
  | None => ∅
  end.
Definition way_landuse (w : osm_way) : gset string :=
  match tags_of (w_tag w) !! "landuse" with
  | Some v => {[ v ]}
  | None => ∅
  end ∪ leisure_keys (tags_of (w_tag w)).

(** What one node adds to [places], [buildings] and [landuse_types], where
    [way] is the last way of the graph. *)
Definition node_places (n : osm_node) : gset Z :=
  if has "place" (tags_of (n_tag n)) && has "name" (tags_of (n_tag n))
  then {[ n_id n ]} else ∅.
Definition node_buildings (way : option osm_way) (n : osm_node) : gset Z :=
  if has "man_made" (tags_of (n_tag n))
  then match way with Some w => {[ w_id w ]} | None => ∅ end
  else ∅.
Definition node_landuse (n : osm_node) : gset string :=
  leisure_keys (tags_of (n_tag n)).

(** The four sets of [count_features] at its [return]. *)
Definition place_set (osm_root : osm) : gset Z :=
  ⋃ (node_places <$> nodes osm_root).
Definition building_set (osm_root : osm) : gset Z :=
  ⋃ (node_buildings (last (ways osm_root)) <$> nodes osm_root)
  ∪ ⋃ (way_buildings <$> ways osm_root).
Definition road_type_set (osm_root : osm) : gset string :=
  ⋃ (way_road_types <$> ways osm_root).
Definition landuse_set (osm_root : osm) : gset string :=
  ⋃ (node_landuse <$> nodes osm_root) ∪ ⋃ (way_landuse <$> ways osm_root).

(** The set [field] has grown by [S]. *)
Definition joins {K : Type} `{Countable K} (field : counters → gset K)
    (S : gset K) (c c' : counters) : Prop :=
  field c' = S ∪ field c.

(** A statement that leaves the four sets alone. *)
Definition keeps_sets (step : counters → result counters) : Prop :=
  ∀ c c', step c = Ok c' →
          places c' = places c ∧ buildings c' = buildings c
          ∧ road_types c' = road_types c ∧ landuse_types c' = landuse_types c.

(** ** Where the resolver's answer comes from *)

(** A relation the relation loop takes as boundary: named, an
    administrative or historic boundary, matching the segment fuzzily. *)
Definition selected (addr_4 : string) (r : osm_relation) : Prop :=
  let tags := tags_of (r_tag r) in
  has "name" tags = true
  ∧ is_boundary tags = true
  ∧ match_name addr_4 tags false = Ok true.

(** A named place candidate of the graph. *)
Definition candidate_of (osm_root : osm) (n : osm_node) : Prop :=
  n ∈ nodes osm_root
  ∧ has "name" (tags_of (n_tag n)) = true
  ∧ is_place_cand (tags_of (n_tag n)) = true.

(** What holds of the local variables of [infer_node_and_boundary] all
    through the two loops over the graph [osm_root]. *)
Definition from_graph (addr_4 : string) (osm_root : osm) (st : resolution)
  : Prop :=
  (node_id st = (-1)%Z ∨ node_id st = (-2)%Z
   ∨ ∃ n, candidate_of osm_root n ∧ n_id n = node_id st
          ∧ has "place" (tags_of (n_tag n)) = true)
  ∧ (boundary_id st = (-1)%Z
     ∨ ∃ r, r ∈ relations osm_root ∧ selected addr_4 r
            ∧ r_id r = boundary_id st)
  ∧ ((node_lon st = None ∧ node_lat st = None)
     ∨ ∃ n, candidate_of osm_root n
            ∧ node_lon st = Some (n_lon n) ∧ node_lat st = Some (n_lat n))
  ∧ (node_id st ≠ (-1)%Z → is_Some (node_lon st) ∧ is_Some (node_lat st)).

(** Every collected place candidate is a candidate of the graph. *)
Definition cands_of (osm_root : osm) (st : resolution) : Prop :=
  ∀ i n, place_cands st !! i = Some n → candidate_of osm_root n.

(** Two boundary relations that contain [Yaohai] in their names, neither
    named exactly so. *)
Definition yaohai_zone : osm_relation :=
  relation_with 30 [("boundary", "administrative");
                    ("name", "Yaohai Development Zone")].
Definition districts_graph : osm := {|
  nodes := [];
  ways := [];
  relations :=
    [relation_with 10 [("boundary", "administrative"); ("name", "Yaohai District")];
     yaohai_zone]
|}.


(** A world with an empty cache whose network is down. *)
Definition offline_world : world := {|
  files := ∅;
  net := λ _ _, RequestException;
  posted := [];
  slept := []
|}.


(** ** The lines of the place list *)

(** What [gd_map(addr)] does: it returns a list or raises
    [NotImplementedError]. *)
Inductive geocoding : Type :=
| Geocoded (geo : list string)
| NotImplementedError.

Definition gd_map (addr : list string) : geocoding :=
  if OFF_LINE then Geocoded [] else NotImplementedError.

Section Lines.

Variable parse_osm : string → result osm.

(** [float(s)]: [None] when it raises [ValueError]. *)
Variable to_float : string → option float.

(** [lazy_pinyin] of [pypinyin] and [str.capitalize]. *)
Variable lazy_pinyin : string → list string.
Variable capitalize : string → string.

(** [addr] is given as the list [addr.strip().split()] of its segments. *)
Definition format_admin_pinyin (addr : list string) : string :=
  String.concat "_"
    ((λ part, capitalize (String.concat "" (lazy_pinyin part)))
       <$> filter (λ part, part ≠ "") addr).

(** The [try] block of [process_places] for a line of four or six fields:
    the coordinate of the line, or [None] when the line is skipped, by a
    [continue] or by the [except] clause, which catches every exception. *)
Definition locate (parts : list string) : option (float * float) :=
  if str_in "addr_1" (default "" (parts !! 0%nat)) then None
  else if Nat.eqb (length parts) 6 then
    match parts !! 4%nat, parts !! 5%nat with
    | Some s_lon, Some s_lat =>
        match to_float s_lon with
        | None => None
        | Some lon =>
            match to_float s_lat with
            | None => None
            | Some lat => Some (lon, lat)
            end
        end
    | _, _ => None
    end
  else if Nat.eqb (length parts) 4 then
    match gd_map (take 4 parts) with
    | NotImplementedError => None
    | Geocoded geo =>
        if bool_decide ("," ∈ geo)
        then None (* [geo.split] of a list: [AttributeError], caught *)
        else None
    end
  else None.

(** The loop of [process_places] over the lines, each given as the list
    [addr.split()] of its fields: the rows, each with its four address
    fields and its place, in the order they are appended. *)
Fixpoint process_lines (lines : list (list string))
  : io (list (list string * place)) :=
  match lines with
  | [] => io_ret []
  | parts :: lines' =>
      if negb (Nat.eqb (length parts) 4) && negb (Nat.eqb (length parts) 6)
      then process_lines lines'
      else
        let addr := take 4 parts in
        match locate parts with
        | None => process_lines lines'
        | Some (lon, lat) =>
            let+ p := process_place parse_osm addr lon lat
                        (format_admin_pinyin addr) in
            let+ rows := process_lines lines' in
            io_ret ((addr, p) :: rows)
        end
  end.

(** Lines 468 to 555: the rows handed to the data frame, or [None] when
    the run ends in [exit(1)]. *)
Definition collect_rows (lines : list (list string))
  : io (option (list (list string * place))) :=
  let+ rows := process_lines lines in
  io_ret (if Nat.ltb (length rows) 1 then None else Some rows).

(** The lines that give a row: six fields, no [addr_1] in the first, and
    two numbers at the end. *)
Definition usable (parts : list string) : bool :=
  Nat.eqb (length parts) 6
  && negb (str_in "addr_1" (default "" (parts !! 0%nat)))
  && bool_decide (is_Some (parts !! 4%nat ≫= to_float))
  && bool_decide (is_Some (parts !! 5%nat ≫= to_float)).

End Lines.

(** A place list: a header, a line without coordinate, a line whose
    numbers do not parse, and the sample place. *)
Definition sample_to_float (s : string) : option float :=
  if bool_decide (s = "117.25") then Some sample_lon
  else if bool_decide (s = "31.875") then Some sample_lat
  else None.
Definition sample_pinyin (s : string) : list string := [s].
Definition sample_capitalize (s : string) : string := s.
Definition header_line : list string :=
  ["addr_1"; "addr_2"; "addr_3"; "addr_4"; "lon"; "lat"].
Definition bare_line : list string := ["Anhui"; "Hefei"; "Shiqu"; "Yaohai"].
Definition broken_line : list string :=
  ["Anhui"; "Hefei"; "Shiqu"; "Yaohai"; "117,25"; "31.875"].
Definition sample_line : list string :=
  ["Anhui"; "Hefei"; "Shiqu"; "Yaohai"; "117.25"; "31.875"].


(** ** The boundary tie-break as the specification words it *)





(** ** Scoring the rows of the data frame *)

(** A cell of a row of the data frame: a number, or NaN where the place of
    the row has no value for a column that another place has (a place
    whose acquisition failed at a radius has no counts for it). *)
Inductive cell : Type :=
| Num (q : Q)
| NaN.

(** A row of the data frame: its numeric columns by name. *)
Definition frame_row : Type := gmap string cell.

Section FrameScoring.
Local Open Scope Q_scope.

(** [row[k]]: [KeyError] when the frame has no column [k]. *)
Definition col (row : frame_row) (k : string) : result cell :=
  match row !! k with
  | Some c => Ok c
  | None => Raise (KeyError k)
  end.

(** Arithmetic with NaN gives NaN; a comparison with NaN is false. *)
Definition cell_add (a b : cell) : cell :=
  match a, b with
  | Num x, Num y => Num (x + y)
  | _, _ => NaN
  end.
Definition cell_mul (a : cell) (k : Q) : cell :=
  match a with
  | Num x => Num (x * k)
  | NaN => NaN
  end.
Definition gt_zero (a : cell) : bool :=
  match a with
  | Num x => match 0 ?= x with Lt => true | _ => false end
  | NaN => false
  end.
Definition is_minus_one (a : cell) : bool :=
  match a with
  | Num x => Qeq_bool x (-1)
  | NaN => false
  end.

(** [cap(x, m)] on a cell: [min(nan, m)] is NaN, since [m < nan] is
    false and [min] then returns its first argument. *)
Definition cap_cell (x : cell) (m : Q) : cell :=
  match x with
  | Num q => Num (cap q m)
  | NaN => NaN
  end.

(** [scores[i] += d] and [scores[i] = cap(scores[i], m)]. *)
Definition bump (i : nat) (d : cell) (scores : list cell) : list cell :=
  alter (λ s, cell_add s d) i scores.
Definition cap_cell_at (i : nat) (m : Q) (scores : list cell) : list cell :=
  alter (λ s, cap_cell s m) i scores.

Definition score_existence_frame (row : frame_row) (scores : list cell)
  : result (list cell) :=
  let* node := col row "node" in
  let scores := if gt_zero node then bump 0 (Num 7) scores else scores in
  let* boundary := col row "boundary" in
  let* scores :=
    if gt_zero boundary then
      let scores := bump 0 (Num 8) scores in
      let* node := col row "node" in
      Ok (if is_minus_one node then bump 0 (Num 7) scores else scores)
    else Ok scores in
  let* places_total := col row "places_total_3km" in
  let scores := bump 0 (cap_cell places_total 5) scores in
  Ok (cap_cell_at 0 20 scores).

Definition score_roads_frame (row : frame_row) (scores : list cell)
  : result (list cell) :=
  let* trunk := col row "road_trunk_3km" in
  let* primary := col row "road_primary_3km" in
  let* secondary := col row "road_secondary_3km" in
  let scores :=
    if gt_zero (cell_add (cell_add trunk primary) secondary)
    then bump 1 (Num 5) scores else scores in
  let* tertiary := col row "road_tertiary_3km" in
  let scores := bump 1 (cap_cell tertiary 5) scores in
  let* res_uncl_1km := col row "road_res_uncl_1km" in
  let* res_uncl_3km := col row "road_res_uncl_3km" in
  let scores :=
    bump 1 (cell_add (cell_mul res_uncl_1km (3 # 10))
                     (cell_mul res_uncl_3km (2 # 10))) scores in
  let scores := cap_cell_at 1 20 scores in
  let* bus_stop := col row "road_bus_stop_3km" in
  let scores := if gt_zero bus_stop then bump 1 (Num 2) scores else scores in
  let* parking := col row "road_parking_3km" in
  let scores := if gt_zero parking then bump 1 (Num 2) scores else scores in
  let* fuel := col row "road_fuel_3km" in
  let scores := if gt_zero fuel then bump 1 (Num 2) scores else scores in
  let* road_types := col row "road_types_3km" in
  let scores := bump 1 (cap_cell road_types 4) scores in
  Ok (cap_cell_at 1 30 scores).

Definition score_amenities_frame (row : frame_row) (scores : list cell)
  : result (list cell) :=
  let* gov := col row "amenity_gov_3km" in
  let scores := if gt_zero gov then bump 2 (Num 5) scores else scores in
  let* health := col row "amenity_health_1km" in
  let scores := if gt_zero health then bump 2 (Num 5) scores else scores in
  let* school := col row "amenity_school_1km" in
  let scores := if gt_zero school then bump 2 (Num 5) scores else scores in
  let* police := col row "amenity_police_1km" in
  let scores := if gt_zero police then bump 2 (Num 5) scores else scores in
  let* post := col row "amenity_post_1km" in
  let scores := if gt_zero post then bump 2 (Num 2) scores else scores in
  let* bank := col row "amenity_bank_1km" in
  let scores := if gt_zero bank then bump 2 (Num 2) scores else scores in
  let* shop := col row "amenity_shop_1km" in
  let scores := bump 2 (cap_cell shop 6) scores in
  Ok (cap_cell_at 2 30 scores).

Definition score_landuse_frame (row : frame_row) (scores : list cell)
  : result (list cell) :=
  let* buildings_1km := col row "buildings_total_1km" in
  let* buildings_3km := col row "buildings_total_3km" in
  let scores :=
    bump 3 (cap_cell (cell_mul (cell_add buildings_1km buildings_3km)
                               (1 # 10)) 12) scores in
  let* landuse_types := col row "landuse_types_3km" in
  let scores := bump 3 (cap_cell landuse_types 8) scores in
  Ok (cap_cell_at 3 20 scores).

(** [compute_score(row)] on a row of the data frame. *)
Definition compute_score_frame (row : frame_row) : result (list cell) :=
  let scores := [Num 0; Num 0; Num 0; Num 0] in
  let* scores := score_existence_frame row scores in
  let* scores := score_roads_frame row scores in
  let* scores := score_amenities_frame row scores in
  score_landuse_frame row scores.

(** The columns [compute_score] reads. *)
Definition score_columns : list string :=
  ["node"; "boundary"; "places_total_3km";
   "road_trunk_3km"; "road_primary_3km"; "road_secondary_3km";
   "road_tertiary_3km"; "road_res_uncl_1km"; "road_res_uncl_3km";
   "road_bus_stop_3km"; "road_parking_3km"; "road_fuel_3km";
   "road_types_3km";
   "amenity_gov_3km"; "amenity_health_1km"; "amenity_school_1km";
   "amenity_police_1km"; "amenity_post_1km"; "amenity_bank_1km";
   "amenity_shop_1km";
   "buildings_total_1km"; "buildings_total_3km"; "landuse_types_3km"].

(** [s <= m] on a cell: false on NaN, as every comparison with NaN is. *)
Definition at_most (s : cell) (m : Q) : Prop :=
  match s with
  | Num q => q <= m
  | NaN => False
  end.

Definition is_num (c : cell) : bool :=
  match c with
  | Num _ => true
  | NaN => false
  end.

(** The row of the data frame for a place whose columns are all counted:
    every cell is the integer of the record. *)
Definition frame_of (r : row) : frame_row :=
  list_to_map
    [("node", Num (inject_Z (node r)));
     ("boundary", Num (inject_Z (boundary r)));
     ("places_total_3km", Num (inject_Z (places_total_3km r)));
     ("road_trunk_3km", Num (inject_Z (road_trunk_3km r)));
     ("road_primary_3km", Num (inject_Z (road_primary_3km r)));
     ("road_secondary_3km", Num (inject_Z (road_secondary_3km r)));
     ("road_tertiary_3km", Num (inject_Z (road_tertiary_3km r)));
     ("road_res_uncl_1km", Num (inject_Z (road_res_uncl_1km r)));
     ("road_res_uncl_3km", Num (inject_Z (road_res_uncl_3km r)));
     ("road_bus_stop_3km", Num (inject_Z (road_bus_stop_3km r)));
     ("road_parking_3km", Num (inject_Z (road_parking_3km r)));
     ("road_fuel_3km", Num (inject_Z (road_fuel_3km r)));
     ("road_types_3km", Num (inject_Z (road_types_3km r)));
     ("amenity_gov_3km", Num (inject_Z (amenity_gov_3km r)));
     ("amenity_health_1km", Num (inject_Z (amenity_health_1km r)));
     ("amenity_school_1km", Num (inject_Z (amenity_school_1km r)));
     ("amenity_police_1km", Num (inject_Z (amenity_police_1km r)));
     ("amenity_post_1km", Num (inject_Z (amenity_post_1km r)));
     ("amenity_bank_1km", Num (inject_Z (amenity_bank_1km r)));
     ("amenity_shop_1km", Num (inject_Z (amenity_shop_1km r)));
     ("buildings_total_1km", Num (inject_Z (buildings_total_1km r)));
     ("buildings_total_3km", Num (inject_Z (buildings_total_3km r)));
     ("landuse_types_3km", Num (inject_Z (landuse_types_3km r)))].

End FrameScoring.

(** ** From the places to the data frame *)

(** Lines 539 to 546: the entries that one radius adds to the row. *)
Definition count_cells (r : Z) (fc : feature_counts) : list (string * cell) :=
  let km := "_" ++ pretty r ++ "km" in
  let num (n : nat) := Num (inject_Z (Z.of_nat n)) in
  ((λ kv, ("road_" ++ kv.1 ++ km, num kv.2)) <$> map_to_list (fc_roads fc))
  ++ ((λ kv, ("amenity_" ++ kv.1 ++ km, num kv.2))
        <$> map_to_list (fc_amenities fc))
  ++ [("places_total" ++ km, num (fc_places fc));
      ("buildings_total" ++ km, num (fc_buildings fc));
      ("road_types" ++ km, num (fc_road_types fc));
      ("landuse_types" ++ km, num (fc_landuse_types fc))].

(** The dictionary [row] of a place when it is appended, without its
    address and coordinate entries, which [compute_score] does not read:
    the counts of the radii that were acquired, then [node] and
    [boundary]. *)
Definition row_cells (p : place) : gmap string cell :=
  foldl (λ row kv, <[kv.1 := kv.2]> row) ∅
    (concat ((λ rc, count_cells rc.1 rc.2) <$> p_counts p)
     ++ [("node", Num (inject_Z (p_node p)));
         ("boundary", Num (inject_Z (p_boundary p)))]).

(** [pd.DataFrame(rows)]: the columns are the keys of all the rows, and a
    row without a key holds NaN in its column. *)
Definition data_frame (rows : list (gmap string cell)) : list frame_row :=
  let columns : gset string := ⋃ (dom <$> rows) in
  (λ row, row ∪ gset_to_gmap NaN columns) <$> rows.

(** A place list of two places and a world without network whose cache
    holds both graphs of the first place and the 3 km graph of the second:
    the 1 km acquisition of the second place fails. *)
Definition luyang_line : list string :=
  ["Anhui"; "Hefei"; "Shiqu"; "Luyang"; "117.25"; "31.875"].
Definition half_cached_world : world := {|
  files := {[ cache_file "Anhui_Hefei_Shiqu_Yaohai" 3 := "<osm/>";
              cache_file "Anhui_Hefei_Shiqu_Yaohai" 1 := "<osm/>";
              cache_file "Anhui_Hefei_Shiqu_Luyang" 3 := "<osm/>" ]};
  net := λ _ _, RequestException;
  posted := [];
  slept := []
|}.

(** * Properties *)

(** ** Scoring *)

Section ScoringFacts.
Local Open Scope Q_scope.

Lemma cap_le_bound (x m : Q) : cap x m <= m.
Proof.
  unfold cap. destruct (m ?= x) eqn:E.
  - apply Qeq_alt in E. rewrite E. apply Qle_refl.
  - apply Qle_refl.
  - apply Qgt_alt in E. apply Qlt_le_weak. exact E.
Qed.

Lemma cap_le_arg (x m : Q) : cap x m <= x.
Proof.
  unfold cap. destruct (m ?= x) eqn:E.
  - apply Qle_refl.
  - apply Qlt_alt in E. apply Qlt_le_weak. exact E.
  - apply Qle_refl.
Qed.

#[local] Instance cap_proper : Proper (Qeq ==> Qeq ==> Qeq) cap.
Proof.
  intros x x' Hx m m' Hm. unfold cap.
  rewrite <- Hx, <- Hm. destruct (m ?= x); assumption.
Qed.

(** Each block of [compute_score] rewrites one entry of the list and ends
    with the cap of that entry. *)
Lemma score_existence_shape (r : row) (a b c d : Q) :
  ∃ x, score_existence r [a; b; c; d] = [cap x 20; b; c; d].
Proof.
  unfold score_existence, on, add_to, cap_at.
  repeat case_match; simpl; eauto.
Qed.

Lemma score_roads_shape (r : row) (a b c d : Q) :
  ∃ x, score_roads r [a; b; c; d] = [a; cap x 30; c; d].
Proof.
  unfold score_roads, on, add_to, cap_at.
  repeat case_match; simpl; eauto.
Qed.

Lemma score_amenities_shape (r : row) (a b c d : Q) :
  ∃ x, score_amenities r [a; b; c; d] = [a; b; cap x 30; d].
Proof.
  unfold score_amenities, on, add_to, cap_at.
  repeat case_match; simpl; eauto.
Qed.

Lemma score_landuse_shape (r : row) (a b c d : Q) :
  ∃ x, score_landuse r [a; b; c; d] = [a; b; c; cap x 20].
Proof.
  unfold score_landuse, add_to, cap_at. simpl. eauto.
Qed.

Lemma compute_score_shape (r : row) :
  ∃ x1 x2 x3 x4,
    compute_score r = [cap x1 20; cap x2 30; cap x3 30; cap x4 20].
Proof.
  unfold compute_score.
  destruct (score_existence_shape r 0 0 0 0) as [x1 ->].
  destruct (score_roads_shape r (cap x1 20) 0 0 0) as [x2 ->].
  destruct (score_amenities_shape r (cap x1 20) (cap x2 30) 0 0) as [x3 ->].
  destruct (score_landuse_shape r (cap x1 20) (cap x2 30) (cap x3 30) 0)
    as [x4 ->].
  eauto.
Qed.

(** The total score is at most 100. *)
Lemma total_score_bound (r : row) : total_score r <= 100.
Proof.
  destruct (compute_score_shape r) as (x1 & x2 & x3 & x4 & E).
  unfold total_score. rewrite E. simpl.
  pose proof (cap_le_bound x1 20). pose proof (cap_le_bound x2 30).
  pose proof (cap_le_bound x3 30). pose proof (cap_le_bound x4 20).
  lra.
Qed.

(** On a row all of whose columns are integers [compute_score] returns
    four sub-scores, bounded by 20, 30, 30 and 20, and the total score,
    their sum, is at most 100. *)
Lemma compute_score_bounded (r : row) :
  ∃ s1 s2 s3 s4,
    compute_score r = [s1; s2; s3; s4]
    ∧ s1 <= 20 ∧ s2 <= 30 ∧ s3 <= 30 ∧ s4 <= 20
    ∧ total_score r == s1 + s2 + s3 + s4
    ∧ total_score r <= 100.
Proof.
  destruct (compute_score_shape r) as (x1 & x2 & x3 & x4 & E).
  exists (cap x1 20), (cap x2 30), (cap x3 30), (cap x4 20).
  pose proof (cap_le_bound x1 20) as H1.
  pose proof (cap_le_bound x2 30) as H2.
  pose proof (cap_le_bound x3 30) as H3.
  pose proof (cap_le_bound x4 20) as H4.
  assert (T : total_score r == cap x1 20 + cap x2 30 + cap x3 30 + cap x4 20).
  { unfold total_score. rewrite E. simpl. ring. }
  repeat split; try assumption.
  rewrite T. lra.
Qed.

Ltac same_inner_cap :=
  match goal with
  | |- context [cap ?A 20 + _] =>
      match goal with
      | |- _ == cap (cap ?B 20 + _) 30 =>
          setoid_replace (cap A 20) with (cap B 20) using relation Qeq
            by (apply cap_proper; [ring | reflexivity])
      end
  end.

(** The roads block computes the specification's expression in the second
    entry and leaves the other entries alone. *)
Lemma score_roads_value (r : row) (a c d : Q) :
  ∃ s2, score_roads r [a; 0; c; d] = [a; s2; c; d] ∧ s2 == s2_spec r.
Proof.
  unfold score_roads, s2_spec, on, add_to, cap_at.
  repeat case_match; simpl; eexists; (split; [reflexivity |]);
    try same_inner_cap; (apply cap_proper; [ring | reflexivity]).
Qed.

(** C3. The roads sub-score is the second entry of the result and follows
    the order of the specification: class bonus, capped tertiary count and
    density term, cap at 20, presence bonuses and capped number of road
    types, cap at 30. The cap at 20 comes before the bonuses and is not
    redundant: on [dense_row] the score is 20, and a single final cap would
    give 30. *)
Theorem roads_score_order :
  (∀ r : row, ∃ s2, compute_score r !! 1%nat = Some s2 ∧ s2 == s2_spec r)
  ∧ (∃ r : row, s2_spec r == 20 ∧ s2_single_cap r == 30).
Proof.
  split.
  - intros r. unfold compute_score.
    destruct (score_existence_shape r 0 0 0 0) as [x1 ->].
    destruct (score_roads_value r (cap x1 20) 0 0) as (s2 & -> & Hs2).
    destruct (score_amenities_shape r (cap x1 20) s2 0 0) as [x3 ->].
    destruct (score_landuse_shape r (cap x1 20) s2 (cap x3 30) 0) as [x4 ->].
    exists s2. split; [reflexivity | exact Hs2].
  - exists dense_row. split; vm_compute; reflexivity.
Qed.

End ScoringFacts.

(** ** Feature counting *)

Section CountingFacts.

(** A relation between the counters before and after a statement, kept by
    a block when every statement of the block keeps it. *)
Context (R : counters → counters → Prop) `{!Reflexive R} `{!Transitive R}.

Lemma for_each_keeps {X : Type} (body : counters → X → result counters)
    (xs : list X) :
  (∀ x, keeps R (λ c, body c x)) → keeps R (for_each body xs).
Proof.
  intros Hbody. induction xs as [| x xs IH]; intros c c' H; cbn in H.
  - injection H as <-. reflexivity.
  - destruct (body c x) as [c1 |] eqn:E; [| discriminate H].
    transitivity c1; [apply (Hbody x c c1 E) | apply (IH c1 c' H)].
Qed.

Lemma chain_keeps (steps : list (counters → result counters)) :
  Forall (keeps R) steps → keeps R (chain steps).
Proof.
  intros Hsteps. unfold chain.
  induction Hsteps as [| step steps Hstep _ IH]; intros c c' H; cbn in H.
  - injection H as <-. reflexivity.
  - destruct (step c) as [c1 |] eqn:E; [| discriminate H].
    transitivity c1; [apply (Hstep c c1 E) | apply (IH c1 c' H)].
Qed.

Lemma when_keeps (b : bool) (act : counters → result counters) :
  keeps R act → keeps R (when b act).
Proof.
  intros Hact c c' H. unfold when in H. destruct b.
  - apply (Hact c c' H).
  - injection H as <-. reflexivity.
Qed.

End CountingFacts.

#[local] Instance same_school_refl : Reflexive same_school.
Proof. intros c. reflexivity. Qed.
#[local] Instance same_school_trans : Transitive same_school.
Proof. intros c1 c2 c3 H12 H23. unfold same_school in *. congruence. Qed.

Lemma incr_amenity_same_school (k : string) :
  k ≠ "school" → keeps same_school (incr_amenity k).
Proof.
  intros Hk c c' H. unfold incr_amenity, incr in H.
  destruct (amenities c !! k); cbn in H; [| discriminate H].
  injection H as <-. unfold same_school. cbn.
  apply lookup_insert_ne. exact Hk.
Qed.

Lemma incr_road_same_school (k : string) : keeps same_school (incr_road k).
Proof.
  intros c c' H. unfold incr_road, incr in H.
  destruct (roads c !! k); cbn in H; [| discriminate H].
  injection H as <-. reflexivity.
Qed.

Lemma count_leisure_same_school (tags : gmap string string) :
  keeps same_school (count_leisure tags).
Proof.
  apply for_each_keeps; [typeclasses eauto .. |].
  intros h. apply when_keeps; [typeclasses eauto |].
  intros c c' H. injection H as <-. reflexivity.
Qed.

(** Whatever the tags of a node, the node loop leaves [school] alone. *)
Lemma count_node_same_school (way : option osm_way) (c c' : counters)
    (n : osm_node) :
  count_node way c n = Ok c' →
  amenities c' !! "school" = amenities c !! "school".
Proof.
  apply (chain_keeps same_school).
  repeat apply Forall_cons_2; try apply Forall_nil_2;
    try (apply when_keeps; [typeclasses eauto |]);
    try (apply incr_amenity_same_school; done);
    try apply incr_road_same_school;
    try apply count_leisure_same_school.
  - intros c1 c2 H. injection H as <-. reflexivity.
  - intros c1 c2 H. unfold add_building_of_way in H.
    destruct way; [| discriminate H]. injection H as <-. reflexivity.
Qed.

(** C2. A node never adds to the [school] counter, whatever its tags; on
    the specification's example graph the school node is counted under
    [police] and [school] stays 0, while the way is counted under
    [primary]. *)
Theorem school_node_counted_as_police :
  (∀ way c n c',
     count_node way c n = Ok c' →
     amenities c' !! "school" = amenities c !! "school")
  ∧ match count_features school_graph with
    | Ok fc =>
        fc_amenities fc !! "school" = Some 0%nat
        ∧ fc_amenities fc !! "police" = Some 1%nat
        ∧ fc_roads fc !! "primary" = Some 1%nat
        ∧ fc_roads fc !! "trunk" = Some 0%nat
    | Raise _ => False
    end.
Proof.
  split.
  - intros way c n c'. apply count_node_same_school.
  - vm_compute. repeat split.
Qed.

#[local] Instance buildings_up_to_refl (i : Z) : Reflexive (buildings_up_to i).
Proof. intros c. unfold buildings_up_to. apply union_subseteq_l. Qed.
#[local] Instance buildings_up_to_trans (i : Z) : Transitive (buildings_up_to i).
Proof.
  intros c1 c2 c3 H12 H23. unfold buildings_up_to in *.
  etransitivity; [exact H23 |].
  apply union_subseteq. split; [exact H12 | apply union_subseteq_r].
Qed.

Lemma incr_amenity_buildings (i : Z) (k : string) :
  keeps (buildings_up_to i) (incr_amenity k).
Proof.
  intros c c' H. unfold incr_amenity, incr in H.
  destruct (amenities c !! k); cbn in H; [| discriminate H].
  injection H as <-. unfold buildings_up_to. cbn.
  apply union_subseteq_l.
Qed.

Lemma incr_road_buildings (i : Z) (k : string) :
  keeps (buildings_up_to i) (incr_road k).
Proof.
  intros c c' H. unfold incr_road, incr in H.
  destruct (roads c !! k); cbn in H; [| discriminate H].
  injection H as <-. unfold buildings_up_to. cbn.
  apply union_subseteq_l.
Qed.

Lemma count_leisure_buildings (i : Z) (tags : gmap string string) :
  keeps (buildings_up_to i) (count_leisure tags).
Proof.
  apply for_each_keeps; [typeclasses eauto .. |].
  intros h. apply when_keeps; [typeclasses eauto |].
  intros c c' H. injection H as <-. unfold buildings_up_to. cbn.
  apply union_subseteq_l.
Qed.

(** The node loop adds no id to the building set but that of the last
    way. *)
Lemma count_node_buildings (w : osm_way) (c c' : counters) (n : osm_node) :
  count_node (Some w) c n = Ok c' →
  buildings c' ⊆ buildings c ∪ {[ w_id w ]}.
Proof.
  apply (chain_keeps (buildings_up_to (w_id w))).
  repeat apply Forall_cons_2; try apply Forall_nil_2;
    try (apply when_keeps; [typeclasses eauto |]);
    try apply incr_amenity_buildings;
    try apply incr_road_buildings;
    try apply count_leisure_buildings.
  - intros c1 c2 H. injection H as <-. unfold buildings_up_to. cbn.
    apply union_subseteq_l.
  - intros c1 c2 H. cbn in H. injection H as <-.
    unfold buildings_up_to. cbn.
    apply union_subseteq. split; [apply union_subseteq_r | apply union_subseteq_l].
Qed.

(** C6. The node loop adds no node id to the building set: what it adds
    is the id of the last way. On [tower_graph] two elements carry a
    [building] or [man_made] tag, the way 1 and the node 2, and
    [count_features] returns 1. *)
Theorem man_made_node_adds_way_id :
  (∀ w c n c',
     count_node (Some w) c n = Ok c' →
     buildings c' ⊆ buildings c ∪ {[ w_id w ]})
  ∧ size (building_ids_spec tower_graph) = 2%nat
  ∧ match count_features tower_graph with
    | Ok fc => fc_buildings fc = 1%nat
    | Raise _ => False
    end.
Proof.
  split; [| split].
  - intros w c n c'. apply count_node_buildings.
  - vm_compute. reflexivity.
  - vm_compute. reflexivity.
Qed.

(** C10. [count_features] raises on a way that carries [natrual] without
    [landuse], and on a [man_made] node in a graph without ways. *)
Theorem count_features_raises :
  count_features natrual_graph = Raise (KeyError "landuse")
  ∧ count_features lone_tower_graph = Raise (UnboundLocalError "way").
Proof.
  split.
  - vm_compute. reflexivity.
  - vm_compute. reflexivity.
Qed.

(** *** The keys of the returned dictionaries and the rows of the data frame *)

#[local] Instance same_keys_refl : Reflexive same_keys.
Proof. intros c. split; reflexivity. Qed.
#[local] Instance same_keys_trans : Transitive same_keys.
Proof.
  intros c1 c2 c3 [Hr12 Ha12] [Hr23 Ha23]. split; congruence.
Qed.

Lemma incr_dom (k : string) (d d' : gmap string nat) :
  incr k d = Ok d' → dom d' = dom d.
Proof.
  unfold incr. destruct (d !! k) as [v |] eqn:E; [| discriminate].
  intros H. injection H as <-. rewrite dom_insert_L.
  apply subseteq_union_1_L, singleton_subseteq_l, elem_of_dom. eauto.
Qed.

Lemma incr_road_same_keys (k : string) : keeps same_keys (incr_road k).
Proof.
  intros c c' H. unfold incr_road in H.
  destruct (incr k (roads c)) as [d |] eqn:E; cbn in H; [| discriminate H].
  injection H as <-. split; cbn; [apply (incr_dom k _ _ E) | reflexivity].
Qed.

Lemma incr_amenity_same_keys (k : string) : keeps same_keys (incr_amenity k).
Proof.
  intros c c' H. unfold incr_amenity in H.
  destruct (incr k (amenities c)) as [d |] eqn:E; cbn in H; [| discriminate H].
  injection H as <-. split; cbn; [reflexivity | apply (incr_dom k _ _ E)].
Qed.

Lemma add_building_same_keys (i : Z) : keeps same_keys (add_building i).
Proof. intros c c' H. injection H as <-. split; reflexivity. Qed.

Lemma add_landuse_same_keys (v : string) : keeps same_keys (add_landuse v).
Proof. intros c c' H. injection H as <-. split; reflexivity. Qed.

Lemma count_leisure_same_keys (tags : gmap string string) :
  keeps same_keys (count_leisure tags).
Proof.
  apply for_each_keeps; [typeclasses eauto .. |].
  intros h. apply when_keeps; [typeclasses eauto |].
  apply add_landuse_same_keys.
Qed.

Lemma count_highway_same_keys (tags : gmap string string) :
  keeps same_keys (count_highway tags).
Proof.
  intros c c' H. unfold count_highway in H.
  destruct (tags !! "highway") as [h |]; [| injection H as <-; reflexivity].
  destruct (if has h (roads c) then incr_road h c
            else if existsb (String.eqb h) ["residential"; "unclassified"]
                 then incr_road "res_uncl" c else Ok c) as [c1 |] eqn:E;
    cbn [and_then] in H; [| discriminate H].
  assert (H1 : same_keys c c1).
  { destruct (has h (roads c)); [apply (incr_road_same_keys h c c1 E) |].
    destruct (existsb _ _); [apply (incr_road_same_keys _ c c1 E) |].
    injection E as <-. reflexivity. }
  transitivity c1; [exact H1 |].
  destruct (existsb _ minor_road_types); [| injection H as <-; reflexivity].
  revert H. apply when_keeps; [typeclasses eauto |].
  intros c2 c3 H. injection H as <-. split; reflexivity.
Qed.

Lemma count_way_same_keys (c c' : counters) (way : osm_way) :
  count_way c way = Ok c' → same_keys c c'.
Proof.
  apply (chain_keeps same_keys).
  repeat apply Forall_cons_2; try apply Forall_nil_2;
    try (apply when_keeps; [typeclasses eauto |]);
    try apply incr_amenity_same_keys;
    try apply incr_road_same_keys;
    try apply add_building_same_keys;
    try apply count_leisure_same_keys;
    try apply count_highway_same_keys.
  intros c1 c2 H. unfold add_landuse_value in H.
  destruct (_ !! "landuse"); [| discriminate H].
  apply (add_landuse_same_keys _ _ _ H).
Qed.

Lemma count_node_same_keys (way : option osm_way) (c c' : counters)
    (n : osm_node) :
  count_node way c n = Ok c' → same_keys c c'.
Proof.
  apply (chain_keeps same_keys).
  repeat apply Forall_cons_2; try apply Forall_nil_2;
    try (apply when_keeps; [typeclasses eauto |]);
    try apply incr_amenity_same_keys;
    try apply incr_road_same_keys;
    try apply count_leisure_same_keys.
  - intros c1 c2 H. injection H as <-. split; reflexivity.
  - intros c1 c2 H. unfold add_building_of_way in H.
    destruct way; [| discriminate H].
    apply (add_building_same_keys _ _ _ H).
Qed.

(** The dictionaries [count_features] returns have the keys they were
    created with: eight road keys and seven amenity keys. *)
Theorem count_features_keys (osm_root : osm) (fc : feature_counts) :
  count_features osm_root = Ok fc →
  dom (fc_roads fc) = dom (roads counters_init)
  ∧ dom (fc_amenities fc) = dom (amenities counters_init).
Proof.
  unfold count_features. intros H.
  destruct (for_each count_way (ways osm_root) counters_init) as [c1 |] eqn:E1;
    cbn [and_then] in H; [| discriminate H].
  destruct (for_each (count_node (last (ways osm_root))) (nodes osm_root) c1)
    as [c2 |] eqn:E2; cbn [and_then] in H; [| discriminate H].
  injection H as <-. cbn [fc_roads fc_amenities].
  assert (H1 : same_keys counters_init c1).
  { revert E1. apply (for_each_keeps same_keys).
    intros w c c'. apply count_way_same_keys. }
  assert (H2 : same_keys c1 c2).
  { revert E2. apply (for_each_keeps same_keys).
    intros n c c'. apply count_node_same_keys. }
  destruct H1 as [Hr1 Ha1], H2 as [Hr2 Ha2]. split; congruence.
Qed.

Lemma count_features_keys_witness :
  ∃ fc, count_features school_graph = Ok fc
        ∧ dom (fc_roads fc) = dom (roads counters_init)
        ∧ dom (fc_amenities fc) = dom (amenities counters_init).
Proof.
  destruct (count_features school_graph) as [fc |] eqn:E;
    [| vm_compute in E; discriminate E].
  exists fc. split; [reflexivity |].
  apply (count_features_keys school_graph fc E).
Defined.

Lemma column_of_key (d d0 : gmap string nat) (k : string) :
  dom d = dom d0 → is_Some (d0 !! k) → ∃ z, column d k = Some z.
Proof.
  intros Hdom Hk. apply elem_of_dom in Hk. rewrite <- Hdom in Hk.
  apply elem_of_dom in Hk as [v Hv]. unfold column. rewrite Hv. cbn. eauto.
Qed.

(** A place whose two graphs were counted has a complete row, and its
    total score is at most 100. *)
Theorem row_of_counted_place (g3 g1 : osm) (fc3 fc1 : feature_counts)
    (p : place) :
  count_features g3 = Ok fc3 →
  count_features g1 = Ok fc1 →
  p_counts p = [(3%Z, fc3); (1%Z, fc1)] →
  ∃ r, row_of_place p = Some r
       ∧ node r = p_node p ∧ boundary r = p_boundary p
       ∧ (total_score r <= 100)%Q.
Proof.
  intros H3 H1 Hp.
  destruct (count_features_keys g3 fc3 H3) as [Hr3 Ha3].
  destruct (count_features_keys g1 fc1 H1) as [Hr1 Ha1].
  unfold row_of_place. rewrite Hp.
  replace (count_at [(3%Z, fc3); (1%Z, fc1)] 3) with (Some fc3) by reflexivity.
  replace (count_at [(3%Z, fc3); (1%Z, fc1)] 1) with (Some fc1) by reflexivity.
  cbn [mbind option_bind].
  repeat
    match goal with
    | |- context [column (fc_roads ?fc) ?k] =>
        let z := fresh "z" in
        let E := fresh "E" in
        destruct (column_of_key (fc_roads fc) (roads counters_init) k)
          as [z E]; [assumption | vm_compute; eauto |];
        rewrite E; cbn [mbind option_bind]
    | |- context [column (fc_amenities ?fc) ?k] =>
        let z := fresh "z" in
        let E := fresh "E" in
        destruct (column_of_key (fc_amenities fc) (amenities counters_init) k)
          as [z E]; [assumption | vm_compute; eauto |];
        rewrite E; cbn [mbind option_bind]
    end.
  eexists. split; [reflexivity |].
  split; [reflexivity |]. split; [reflexivity |].
  apply total_score_bound.
Qed.

Lemma row_of_counted_place_witness :
  ∃ fc, count_features school_graph = Ok fc
        ∧ ∃ r, row_of_place {| p_lon := sample_lon; p_lat := sample_lat;
                               p_node := 7; p_boundary := -1;
                               p_force_update := false;
                               p_counts := [(3%Z, fc); (1%Z, fc)] |} = Some r
               ∧ node r = 7%Z ∧ boundary r = (-1)%Z
               ∧ (total_score r <= 100)%Q.
Proof.
  destruct (count_features school_graph) as [fc |] eqn:E;
    [| vm_compute in E; discriminate E].
  exists fc. split; [reflexivity |].
  apply (row_of_counted_place school_graph school_graph fc fc
           {| p_lon := sample_lon; p_lat := sample_lat;
              p_node := 7; p_boundary := -1; p_force_update := false;
              p_counts := [(3%Z, fc); (1%Z, fc)] |} E E).
  reflexivity.
Defined.

(** ** Entity resolution *)



Lemma has_true {V : Type} (k : string) (d : gmap string V) :
  has k d = true ↔ is_Some (d !! k).
Proof.
  unfold has. destruct (d !! k); split; intros H;
    try reflexivity; try discriminate; eauto.
  destruct H as [? H]. discriminate H.
Qed.

(** The fuzzy branch of [match_name] answers whenever there is a [name]
    tag. *)
Lemma match_name_fuzzy_named (addr_4 : string) (tags : gmap string string) :
  has "name" tags = true → ∃ b, match_name addr_4 tags false = Ok b.
Proof.
  intros H. apply has_true in H as [name H].
  unfold match_name. rewrite H. eauto.
Qed.

Lemma match_name_exact_total (addr_4 : string) (tags : gmap string string) :
  ∃ b, match_name addr_4 tags true = Ok b.
Proof. unfold match_name. eauto. Qed.

Lemma capital_or_exact_total (addr_4 : string) (tags name_tags : gmap string string) :
  ∃ b, capital_or_exact addr_4 tags name_tags = Ok b.
Proof.
  unfold capital_or_exact. destruct (has "capital" tags); [eauto |].
  apply match_name_exact_total.
Qed.


(** C5 as stated fails: [Mingguang] occurs in the [name:zh] tag of
    [zh_only_tags] and in no other tag, and the fuzzy match answers no. *)
Lemma fuzzy_ignores_name_zh :
  tag_contains "Mingguang" zh_only_tags "name:zh" = true
  ∧ match_name "Mingguang" zh_only_tags false = Ok false.
Proof.
  split.
  - vm_compute. reflexivity.
  - vm_compute. reflexivity.
Qed.

(** C5, amended. The fuzzy match succeeds exactly when the element has a
    [name] tag and the segment occurs in one of [name], [official_name],
    [alt_name], [old_name] and [short_name]; the [:zh] tags play no part in
    it: setting any of them leaves the answer as it was. *)
Theorem fuzzy_match_keys (addr_4 : string) (tags : gmap string string) :
  (match_name addr_4 tags false = Ok true
   ↔ has "name" tags = true
     ∧ ∃ k, k ∈ fuzzy_keys ∧ tag_contains addr_4 tags k = true)
  ∧ (∀ k v, k ∉ fuzzy_keys →
       match_name addr_4 (<[k := v]> tags) false = match_name addr_4 tags false).
Proof.
  split.
  - unfold match_name, has, fuzzy_keys. split.
    + destruct (tags !! "name") as [name |] eqn:Hname; [| discriminate].
      intros H. injection H as H. split; [reflexivity |].
      repeat (apply orb_true_iff in H as [H | H]).
      * exists "name". split; [set_solver |].
        unfold tag_contains. rewrite Hname. exact H.
      * exists "official_name". split; [set_solver | exact H].
      * exists "alt_name". split; [set_solver | exact H].
      * exists "old_name". split; [set_solver | exact H].
      * exists "short_name". split; [set_solver | exact H].
    + intros [Hname (k & Hk & H)].
      destruct (tags !! "name") as [name |] eqn:E; [| discriminate].
      f_equal.
      repeat (apply elem_of_cons in Hk as [-> | Hk]);
        [| | | | | by apply elem_of_nil in Hk].
      * unfold tag_contains in H. rewrite E in H. rewrite H. reflexivity.
      * rewrite H. rewrite !orb_true_r. reflexivity.
      * rewrite H. rewrite !orb_true_r. reflexivity.
      * rewrite H. rewrite !orb_true_r. reflexivity.
      * rewrite H. rewrite !orb_true_r. reflexivity.
  - intros k v Hk. unfold match_name, tag_contains, fuzzy_keys in *.
    rewrite !lookup_insert_ne by set_solver. reflexivity.
Qed.

Ltac step := cbn [negb and_then].

Lemma cands_named_init : cands_named resolution_init.
Proof. intros i n H. simpl in H. rewrite lookup_empty in H. discriminate H. Qed.

Lemma cands_named_add (n : osm_node) (st : resolution) :
  has "name" (tags_of (n_tag n)) = true →
  cands_named st → cands_named (add_place_cand n st).
Proof.
  intros Hn Hst i m H. unfold add_place_cand in H. cbn [place_cands] in H.
  destruct (decide (n_id n = i)) as [Heq | Hne].
  - subst i. rewrite lookup_insert_eq in H. injection H as <-. exact Hn.
  - rewrite lookup_insert_ne in H by exact Hne. eapply Hst, H.
Qed.

(** The node loop never raises and never touches [boundary_id]. *)
Lemma scan_node_total (addr_4 : string) (st : resolution) (n : osm_node) :
  cands_named st →
  ∃ st', scan_node addr_4 st n = Ok st'
         ∧ cands_named st' ∧ boundary_id st' = boundary_id st.
Proof.
  intros Hst. unfold scan_node.
  destruct (has "name" (tags_of (n_tag n))) eqn:Hname; step; [| eauto].
  destruct (is_place_cand (tags_of (n_tag n))); step; [| eauto].
  pose proof (cands_named_add n st Hname Hst) as Hadd.
  destruct (node_id _ <? 0)%Z; step; [| eauto].
  destruct (match_name_fuzzy_named addr_4 _ Hname) as [fuzzy ->]. step.
  destruct fuzzy; step; [| eauto].
  destruct (has "place" (tags_of (n_tag n))); step; [| eauto].
  destruct (capital_or_exact_total addr_4 (tags_of (n_tag n)) (tags_of (n_tag n)))
    as [accept ->]. step.
  destruct accept; eauto.
Qed.

Lemma scan_nodes_total (addr_4 : string) (ns : list osm_node) :
  ∀ st, cands_named st →
  ∃ st', for_each (scan_node addr_4) ns st = Ok st'
         ∧ cands_named st' ∧ boundary_id st' = boundary_id st.
Proof.
  induction ns as [| n ns IH]; intros st Hst; simpl; [eauto |].
  destruct (scan_node_total addr_4 st n Hst) as (st1 & -> & H1 & B1).
  destruct (IH st1 H1) as (st2 & -> & H2 & B2).
  exists st2. rewrite B2, B1. auto.
Qed.

(** The member loop never raises; it changes the node id and the
    coordinate only. *)
Lemma scan_members_total (addr_4 : string) (tags : gmap string string)
    (ms : list osm_member) :
  ∀ st, cands_named st →
  ∃ st', scan_members addr_4 tags ms st = Ok st'
         ∧ place_cands st' = place_cands st
         ∧ boundary_id st' = boundary_id st.
Proof.
  induction ms as [| m ms IH]; intros st Hst; cbn [scan_members]; [eauto |].
  destruct (negb (String.eqb (m_type m) "node")); [by apply IH |].
  destruct (negb _); [by apply IH |].
  destruct (place_cands st !! m_ref m) as [node |] eqn:Hnode; [| by apply IH].
  set (st1 := set_coordinate node (set_node_id (-2) st)).
  assert (H1 : cands_named st1) by exact Hst.
  destruct (has "place" (tags_of (n_tag node))); step; [| by apply (IH st1)].
  destruct (match_name_fuzzy_named addr_4 _ (Hst _ _ Hnode)) as [fuzzy ->].
  step. destruct fuzzy; step; [| by apply (IH st1)].
  destruct (capital_or_exact_total addr_4 (tags_of (n_tag node)) tags)
    as [accept ->]. step.
  destruct accept; [eauto | by apply (IH st1)].
Qed.

(** A node that is no candidate or does not match leaves the node id and
    the coordinate as they were. *)
Lemma scan_node_no_match (addr_4 : string) (st : resolution) (n : osm_node) :
  (is_place_cand (tags_of (n_tag n)) = true →
   match_name addr_4 (tags_of (n_tag n)) false ≠ Ok true) →
  ∃ st', scan_node addr_4 st n = Ok st'
         ∧ answer st' = answer st.
Proof.
  intros Hno. unfold scan_node.
  destruct (has "name" (tags_of (n_tag n))) eqn:Hname; step; [| eauto].
  destruct (is_place_cand (tags_of (n_tag n))) eqn:Hcand; step; [| eauto].
  destruct (node_id _ <? 0)%Z; step; [| eauto].
  destruct (match_name_fuzzy_named addr_4 _ Hname) as [fuzzy Hf].
  rewrite Hf. step. destruct fuzzy; step; [| eauto].
  exfalso. apply Hno; [reflexivity | exact Hf].
Qed.

Lemma scan_nodes_no_match (addr_4 : string) (ns : list osm_node) :
  (∀ n, n ∈ ns → is_place_cand (tags_of (n_tag n)) = true →
        match_name addr_4 (tags_of (n_tag n)) false ≠ Ok true) →
  ∀ st, ∃ st', for_each (scan_node addr_4) ns st = Ok st'
               ∧ answer st' = answer st.
Proof.
  induction ns as [| n ns IH]; intros Hno st; simpl; [eauto |].
  destruct (scan_node_no_match addr_4 st n) as (st1 & -> & H1).
  { apply Hno. apply list_elem_of_here. }
  destruct (IH (λ n' Hn', Hno n' (list_elem_of_further _ _ _ Hn')) st1)
    as (st2 & -> & H2).
  exists st2. rewrite H2, H1. auto.
Qed.

Lemma scan_relations_no_match (addr_4 : string) (rs : list osm_relation) :
  (∀ r, r ∈ rs → is_boundary (tags_of (r_tag r)) = true →
        match_name addr_4 (tags_of (r_tag r)) false ≠ Ok true) →
  ∀ st, scan_relations addr_4 rs st = Ok st.
Proof.
  induction rs as [| r rs IH]; intros Hno st; cbn [scan_relations];
    [reflexivity |].
  assert (Htail : scan_relations addr_4 rs st = Ok st).
  { apply IH. intros r' Hr'. apply Hno. by apply list_elem_of_further. }
  destruct (has "name" (tags_of (r_tag r))) eqn:Hname; step; [| exact Htail].
  destruct (is_boundary (tags_of (r_tag r))) eqn:Hb; step; [| exact Htail].
  destruct (match_name_fuzzy_named addr_4 _ Hname) as [fuzzy Hf].
  rewrite Hf. step. destruct fuzzy; step; [| exact Htail].
  exfalso. apply (Hno r); [apply list_elem_of_here | exact Hb | exact Hf].
Qed.

(** C8. In local mode, when no node carries a place-candidate tag and
    matches the segment fuzzily, and no administrative or historic boundary
    relation matches it fuzzily, [infer_node_and_boundary] returns -1 for
    both ids and no coordinate. *)
Theorem no_match_sentinels (parse_osm : string → result osm)
    (addr : list string) (addr_4 : string) (lon lat : float) (root : osm)
    (w : world) :
  last addr = Some addr_4 →
  (∀ n, n ∈ nodes root → is_place_cand (tags_of (n_tag n)) = true →
        match_name addr_4 (tags_of (n_tag n)) false ≠ Ok true) →
  (∀ r, r ∈ relations root → is_boundary (tags_of (r_tag r)) = true →
        match_name addr_4 (tags_of (r_tag r)) false ≠ Ok true) →
  infer_node_and_boundary parse_osm addr lon lat (Some root) w
  = (Ok (-1, -1, None, None)%Z, w).
Proof.
  intros Hlast Hnodes Hrels.
  unfold infer_node_and_boundary, io_lift, infer_local. rewrite Hlast.
  destruct (scan_nodes_no_match addr_4 (nodes root) Hnodes resolution_init)
    as (st1 & -> & H1).
  simpl. rewrite (scan_relations_no_match addr_4 (relations root) Hrels st1).
  simpl. rewrite H1. reflexivity.
Qed.

(** [elsewhere_graph] has a place node and a boundary, and neither matches
    [Yaohai]. *)
Lemma no_match_sentinels_witness :
  infer_node_and_boundary sample_parse sample_addr sample_lon sample_lat
    (Some elsewhere_graph) cached_world
  = (Ok (-1, -1, None, None)%Z, cached_world).
Proof.
  apply (no_match_sentinels sample_parse sample_addr "Yaohai" sample_lon
           sample_lat elsewhere_graph cached_world).
  - reflexivity.
  - intros n Hn _. unfold elsewhere_graph in Hn. simpl in Hn.
    apply elem_of_cons in Hn as [-> | Hn]; [| by apply elem_of_nil in Hn].
    vm_compute. discriminate.
  - intros r Hr _. unfold elsewhere_graph in Hr. simpl in Hr.
    apply elem_of_cons in Hr as [-> | Hr]; [| by apply elem_of_nil in Hr].
    vm_compute. discriminate.
Defined.

(** *** The resolver never raises *)

Lemma scan_relations_total (addr_4 : string) (rs : list osm_relation) :
  ∀ st, cands_named st → ∃ st', scan_relations addr_4 rs st = Ok st'.
Proof.
  induction rs as [| r rs IH]; intros st Hst; cbn [scan_relations];
    [eauto |].
  destruct (has "name" (tags_of (r_tag r))) eqn:Hn; step; [| by apply IH].
  destruct (is_boundary (tags_of (r_tag r))); step; [| by apply IH].
  destruct (match_name_fuzzy_named addr_4 _ Hn) as [fuzzy ->].
  step. destruct fuzzy; step; [| by apply IH].
  destruct (scan_members_total addr_4 (tags_of (r_tag r)) (r_member r)
              (set_boundary_id (r_id r) st) Hst) as (st1 & -> & Hc & _).
  step. destruct (match_name_exact_total addr_4 (tags_of (r_tag r)))
    as [exact ->].
  step. destruct exact; [eauto |].
  apply IH. intros i n Hi. rewrite Hc in Hi. eapply Hst, Hi.
Qed.

(** Local resolution returns on every graph: the guards on the [name] tag
    keep [match_name] from raising. *)
Theorem infer_local_total (addr_4 : string) (osm_root : osm) :
  ∃ st, infer_local addr_4 osm_root = Ok st.
Proof.
  unfold infer_local.
  destruct (scan_nodes_total addr_4 (nodes osm_root) resolution_init
              cands_named_init) as (st1 & -> & Hc & _).
  step. apply scan_relations_total. exact Hc.
Qed.

(** ** The retrying HTTP layer *)

Section Http.
Local Open Scope nat_scope.
Local Open Scope list_scope.

(** One failed attempt: the request is posted, the process sleeps twice the
    attempt number, and the remaining attempts run. *)
Lemma safe_post_attempts_fail (data : query) (a : nat) (rest : list nat)
    (w : world) :
  attempt_fails (net w (length (posted w)) data) = true →
  safe_post_attempts data (a :: rest) w
  = safe_post_attempts data rest
      {| files := files w; net := net w; posted := posted w ++ [data];
         slept := slept w ++ [2 * a] |}.
Proof.
  intros H. cbn [safe_post_attempts]. unfold io_bind at 1.
  cbn [requests_post].
  destruct (net w (length (posted w)) data) as [r |]; cbn in H.
  - rewrite H. reflexivity.
  - reflexivity.
Qed.

(** One successful attempt: the response is returned at once. *)
Lemma safe_post_attempts_success (data : query) (a : nat) (rest : list nat)
    (w : world) (r : response) :
  net w (length (posted w)) data = Responded r →
  raise_for_status r = false →
  safe_post_attempts data (a :: rest) w
  = (Ok (Some r),
     {| files := files w; net := net w; posted := posted w ++ [data];
        slept := slept w |}).
Proof.
  intros H Hok. cbn [safe_post_attempts]. unfold io_bind at 1.
  cbn [requests_post]. rewrite H, Hok. reflexivity.
Qed.

(** What a run of the attempts [a, a+1, ..., a+m-1] does: [k] attempts fail,
    each followed by its sleep; then either the attempts are used up, or
    attempt [a+k] succeeds and its response is returned at once. *)
Lemma safe_post_attempts_spec (data : query) (m : nat) :
  ∀ (a : nat) (w : world),
  ∃ k,
    k ≤ m
    ∧ (∀ i, i < k → attempt_fails (net w (length (posted w) + i) data) = true)
    ∧ slept (safe_post_attempts data (seq a m) w).2
      = slept w ++ ((λ attempt, 2 * attempt) <$> seq a k)
    ∧ files (safe_post_attempts data (seq a m) w).2 = files w
    ∧ net (safe_post_attempts data (seq a m) w).2 = net w
    ∧ ((k = m
        ∧ (safe_post_attempts data (seq a m) w).1 = Ok None
        ∧ posted (safe_post_attempts data (seq a m) w).2
          = posted w ++ replicate m data)
       ∨ (k < m
          ∧ ∃ r, net w (length (posted w) + k) data = Responded r
                 ∧ raise_for_status r = false
                 ∧ (safe_post_attempts data (seq a m) w).1 = Ok (Some r)
                 ∧ posted (safe_post_attempts data (seq a m) w).2
                   = posted w ++ replicate (S k) data)).
Proof.
  induction m as [| m IH]; intros a w.
  - exists 0. cbn. rewrite !app_nil_r.
    repeat split; try lia. left. auto.
  - cbn [seq].
    destruct (attempt_fails (net w (length (posted w)) data)) eqn:Hout.
    + (* the attempt fails: sleep, then go on *)
      rewrite (safe_post_attempts_fail data a (seq (S a) m) w Hout).
      set (w2 := {| files := files w; net := net w;
                    posted := posted w ++ [data];
                    slept := slept w ++ [2 * a] |}).
      destruct (IH (S a) w2) as (k & Hk & Hfail & Hs & Hf & Hn & Hres).
      assert (Hlen : ∀ i, length (posted w2) + i = length (posted w) + S i).
      { intros i. cbn. rewrite length_app. cbn. lia. }
      exists (S k). rewrite Hs, Hf, Hn.
      split; [lia |]. split.
      { intros [| i] Hi.
        - rewrite Nat.add_0_r. exact Hout.
        - rewrite <- Hlen. apply Hfail. lia. }
      split; [cbn; rewrite <- app_assoc; reflexivity |].
      split; [reflexivity |]. split; [reflexivity |].
      destruct Hres as [(-> & Hr & Hp) | (Hlt & r' & Hr' & Hok & Hr & Hp)].
      * left. rewrite Hr, Hp. cbn. rewrite <- app_assoc. repeat split.
      * right. split; [lia |]. exists r'. rewrite Hr, Hp, <- Hlen.
        cbn. rewrite <- app_assoc. repeat split; assumption.
    + (* the attempt succeeds: return at once *)
      destruct (net w (length (posted w)) data) as [r |] eqn:Hr;
        cbn in Hout; [| discriminate Hout].
      rewrite (safe_post_attempts_success data a (seq (S a) m) w r Hr Hout).
      exists 0. cbn. rewrite app_nil_r, Nat.add_0_r.
      split; [lia |]. split; [intros i Hi; lia |].
      repeat split. right. split; [lia |]. exists r. auto.
Qed.

(** C9. [safe_post] never raises. It posts the request at most 5 times;
    after each of the [k] failed attempts it sleeps twice the attempt
    number; it returns [None] exactly when all 5 attempts fail, and
    otherwise the response of the first attempt that succeeds, without
    posting again. *)
Theorem safe_post_retries (data : query) (w : world) :
  ∃ k,
    k ≤ 5
    ∧ (∀ i, i < k → attempt_fails (net w (length (posted w) + i) data) = true)
    ∧ slept (safe_post data 5 w).2
      = slept w ++ ((λ attempt, 2 * attempt) <$> seq 1 k)
    ∧ ((k = 5
        ∧ (safe_post data 5 w).1 = Ok None
        ∧ posted (safe_post data 5 w).2 = posted w ++ replicate 5 data)
       ∨ (k < 5
          ∧ ∃ r, net w (length (posted w) + k) data = Responded r
                 ∧ raise_for_status r = false
                 ∧ (safe_post data 5 w).1 = Ok (Some r)
                 ∧ posted (safe_post data 5 w).2
                   = posted w ++ replicate (S k) data))
    ∧ ((safe_post data 5 w).1 = Ok None
       ↔ ∀ i, i < 5 →
           attempt_fails (net w (length (posted w) + i) data) = true).
Proof.
  unfold safe_post.
  destruct (safe_post_attempts_spec data 5 1 w)
    as (k & Hk & Hfail & Hs & _ & _ & Hres).
  exists k. split; [exact Hk |]. split; [exact Hfail |].
  split; [exact Hs |]. split; [exact Hres |].
  destruct Hres as [(-> & Hr & _) | (Hlt & r & Hout & Hok & Hr & _)].
  - split; [intros _; exact Hfail | intros _; exact Hr].
  - rewrite Hr. split; [discriminate |].
    intros Hall. specialize (Hall k Hlt).
    rewrite Hout in Hall. cbn in Hall. congruence.
Qed.

End Http.

(** ** Cache and forced re-fetch *)

Section PipelineFacts.
Local Open Scope list_scope.

Variable parse_osm : string → result osm.

Lemma io_bind_ok {A B : Type} (m : io A) (k : A → io B) (w w' : world) (a : A) :
  m w = (Ok a, w') → io_bind m k w = k a w'.
Proof. intros H. unfold io_bind. rewrite H. reflexivity. Qed.

(** [force_update] is set exactly when a coordinate was found and one of
    its components differs from the input. *)
Lemma correct_coordinate_spec (lon lat : float) (nlon nlat : option float) :
  (coordinate_differs lon lat nlon nlat →
   ∃ x y, nlon = Some x ∧ nlat = Some y
          ∧ correct_coordinate lon lat nlon nlat = (x, y, true))
  ∧ (¬ coordinate_differs lon lat nlon nlat →
     correct_coordinate lon lat nlon nlat = (lon, lat, false)).
Proof.
  unfold coordinate_differs, correct_coordinate. split.
  - intros (x & y & -> & -> & H). exists x, y.
    apply orb_true_iff in H. rewrite H. auto.
  - intros H. destruct nlon as [x |], nlat as [y |]; try reflexivity.
    destruct (float_ne x lon || float_ne y lat) eqn:E; [| reflexivity].
    exfalso. apply H. exists x, y. apply orb_true_iff in E. auto.
Qed.

Lemma classic_differs (lon lat : float) (nlon nlat : option float) :
  coordinate_differs lon lat nlon nlat ∨ ¬ coordinate_differs lon lat nlon nlat.
Proof.
  unfold coordinate_differs.
  destruct nlon as [x |], nlat as [y |];
    try (right; intros (? & ? & ? & ? & _); discriminate).
  destruct (float_ne x lon || float_ne y lat) eqn:E.
  - left. exists x, y. apply orb_true_iff in E. auto.
  - right. intros (x' & y' & Hx & Hy & H).
    injection Hx as <-. injection Hy as <-.
    apply orb_true_iff in H. congruence.
Qed.

(** A cache hit: the stored text, and the world as it was. *)
Lemma get_osm_data_cached (lon lat : float) (radius_m : Z) (osm_file : string)
    (content : string) (w : world) :
  files w !! osm_file = Some content →
  get_osm_data lon lat radius_m osm_file false w = (Ok (Some content), w).
Proof.
  intros H. unfold get_osm_data, io_bind, path_exists, has, load_osm, io_ret.
  rewrite H. cbn. rewrite H. reflexivity.
Qed.

(** A forced acquisition posts its query first. *)
Lemma get_osm_data_forced (lon lat : float) (radius_m : Z) (osm_file : string)
    (w : world) :
  ∃ rest,
    posted (get_osm_data lon lat radius_m osm_file true w).2
    = posted w ++ around radius_m lat lon :: rest.
Proof.
  unfold get_osm_data. rewrite (io_bind_ok _ _ w w (has osm_file (files w)))
    by reflexivity.
  rewrite andb_false_r.
  unfold safe_overpass_xml, safe_post, io_bind at 1 2.
  destruct (safe_post_attempts_spec (around radius_m lat lon) 5 1 w)
    as (k & _ & _ & _ & _ & _ & Hres).
  destruct (safe_post_attempts (around radius_m lat lon) (seq 1 5) w)
    as [res w1] eqn:E.
  cbn [fst snd] in Hres.
  destruct Hres as [(_ & -> & Hp) | (_ & r & _ & _ & -> & Hp)].
  - cbn. rewrite Hp. cbn. eauto.
  - cbn. rewrite Hp. cbn. eauto.
Qed.

(** Nothing the pipeline does removes a posted request from the log. *)
Lemma safe_post_attempts_posted (data : query) (attempts : list nat) :
  ∀ w, ∃ rest, posted (safe_post_attempts data attempts w).2 = posted w ++ rest.
Proof.
  induction attempts as [| a attempts IH]; intros w.
  - exists []. cbn. rewrite app_nil_r. reflexivity.
  - destruct (attempt_fails (net w (length (posted w)) data)) eqn:Hout.
    + rewrite (safe_post_attempts_fail data a attempts w Hout).
      destruct (IH {| files := files w; net := net w;
                      posted := posted w ++ [data];
                      slept := slept w ++ [2 * a]%nat |}) as [rest ->].
      cbn. rewrite <- app_assoc. eauto.
    + destruct (net w (length (posted w)) data) as [r |] eqn:Hr;
        cbn in Hout; [| discriminate Hout].
      rewrite (safe_post_attempts_success data a attempts w r Hr Hout).
      cbn. eauto.
Qed.

Lemma get_osm_data_posted (lon lat : float) (radius_m : Z) (osm_file : string)
    (force_update : bool) (w : world) :
  ∃ rest,
    posted (get_osm_data lon lat radius_m osm_file force_update w).2
    = posted w ++ rest.
Proof.
  unfold get_osm_data. rewrite (io_bind_ok _ _ w w (has osm_file (files w)))
    by reflexivity.
  destruct (has osm_file (files w) && negb force_update).
  - exists []. rewrite app_nil_r. unfold io_bind, load_osm.
    destruct (files w !! osm_file); reflexivity.
  - unfold safe_overpass_xml, safe_post, io_bind at 1 2.
    destruct (safe_post_attempts_posted (around radius_m lat lon) (seq 1 5) w)
      as [rest Hp].
    destruct (safe_post_attempts (around radius_m lat lon) (seq 1 5) w)
      as [[[r |] | e] w1]; cbn in Hp |- *; eauto.
Qed.

Lemma count_radii_posted (pname : string) (lon lat : float)
    (force_update : bool) (radii : list Z) :
  ∀ w, ∃ rest,
    posted (count_radii parse_osm pname lon lat force_update radii w).2
    = posted w ++ rest.
Proof.
  induction radii as [| r radii IH]; intros w.
  - exists []. cbn. rewrite app_nil_r. reflexivity.
  - cbn [count_radii].
    destruct (get_osm_data_posted lon lat (r * 1000) (cache_file pname r)
                force_update w) as [rest1 H1].
    unfold io_bind at 1.
    destruct (get_osm_data lon lat (r * 1000) (cache_file pname r)
                force_update w) as [[[x |] | e] w1]; cbn [snd] in H1;
      [| cbn; eauto | cbn; eauto].
    unfold io_bind at 1, io_lift at 1.
    destruct (parse_osm x) as [root | e]; [| cbn; eauto].
    unfold io_bind at 1, io_lift at 1.
    destruct (count_features root) as [fc | e]; [| cbn; eauto].
    destruct (IH w1) as [rest2 H2].
    unfold io_bind at 1.
    destruct (count_radii parse_osm pname lon lat force_update radii w1)
      as [[counts | e] w2]; cbn in H2 |- *;
      rewrite H2, H1, <- app_assoc; eauto.
Qed.

(** With [force_update] set, the counting loop starts by posting the query
    of its first radius at the coordinate it was given. *)
Lemma count_radii_forced (pname : string) (lon lat : float) (r : Z)
    (radii : list Z) (w : world) :
  ∃ rest,
    posted (count_radii parse_osm pname lon lat true (r :: radii) w).2
    = posted w ++ around (r * 1000) lat lon :: rest.
Proof.
  cbn [count_radii].
  destruct (get_osm_data_forced lon lat (r * 1000) (cache_file pname r) w)
    as [rest1 H1].
  unfold io_bind at 1.
  destruct (get_osm_data lon lat (r * 1000) (cache_file pname r) true w)
    as [[[x |] | e] w1]; cbn [snd] in H1; [| cbn; eauto | cbn; eauto].
  unfold io_bind at 1, io_lift at 1.
  destruct (parse_osm x) as [root | e]; [| cbn; eauto].
  unfold io_bind at 1, io_lift at 1.
  destruct (count_features root) as [fc | e]; [| cbn; eauto].
  destruct (count_radii_posted pname lon lat true radii w1) as [rest2 H2].
  unfold io_bind at 1.
  destruct (count_radii parse_osm pname lon lat true radii w1)
    as [[counts | e] w2]; cbn in H2 |- *;
    rewrite H2, H1, <- app_assoc; cbn; eauto.
Qed.

(** The start of [process_place] on a cached 3 km graph: the graph is
    read from the cache and resolved locally, and the world stays. *)
Lemma process_place_cached (addr : list string) (addr_4 : string)
    (lon lat : float) (pname xml : string) (root : osm) (st : resolution)
    (w : world) :
  last addr = Some addr_4 →
  files w !! cache_file pname 3 = Some xml →
  parse_osm xml = Ok root →
  infer_local addr_4 root = Ok st →
  process_place parse_osm addr lon lat pname w
  = (let '(lon', lat', force_update) :=
       correct_coordinate lon lat (node_lon st) (node_lat st) in
     let+ counts := count_radii parse_osm pname lon' lat' force_update [3; 1]%Z in
     io_ret {| p_lon := lon'; p_lat := lat'; p_node := node_id st;
               p_boundary := boundary_id st; p_force_update := force_update;
               p_counts := counts |}) w.
Proof.
  intros Hlast Hfile Hparse Hinfer. unfold process_place.
  rewrite (io_bind_ok _ _ w w (Some root)).
  2:{ unfold cached_root.
      rewrite (io_bind_ok _ _ w w true)
        by (unfold path_exists, has; rewrite Hfile; reflexivity).
      rewrite (io_bind_ok _ _ w w (Some xml))
        by (apply get_osm_data_cached; exact Hfile).
      rewrite (io_bind_ok _ _ w w root)
        by (unfold parse_fetched, io_lift; rewrite Hparse; reflexivity).
      reflexivity. }
  rewrite (io_bind_ok _ _ w w (answer st)).
  2:{ unfold infer_node_and_boundary, io_lift. rewrite Hlast, Hinfer.
      reflexivity. }
  unfold answer.
  destruct (correct_coordinate lon lat (node_lon st) (node_lat st))
    as [[lon' lat'] force]. reflexivity.
Qed.

(** C7. On a cached 3 km graph [process_place] sets [force_update] exactly
    when the resolver found a coordinate that differs from the input. When
    it found none, or the input coordinate again, and the 1 km graph is
    cached too, both graphs are read from the cache: nothing is posted,
    nothing is written, and the counts are those of the cached graphs. When
    the coordinate differs, the 3 km query is posted at the new
    coordinate. *)
Theorem refetch_iff_coordinate_differs (addr : list string) (addr_4 : string)
    (lon lat : float) (pname xml : string) (root : osm) (st : resolution)
    (w : world) :
  last addr = Some addr_4 →
  files w !! cache_file pname 3 = Some xml →
  parse_osm xml = Ok root →
  infer_local addr_4 root = Ok st →
  (∀ p, (process_place parse_osm addr lon lat pname w).1 = Ok p →
        (p_force_update p = true
         ↔ coordinate_differs lon lat (node_lon st) (node_lat st)))
  ∧ (¬ coordinate_differs lon lat (node_lon st) (node_lat st) →
     ∀ xml1, files w !! cache_file pname 1 = Some xml1 →
       process_place parse_osm addr lon lat pname w
       = (counts_from_cache parse_osm root xml1 lon lat st, w))
  ∧ (coordinate_differs lon lat (node_lon st) (node_lat st) →
     ∃ x y rest,
       node_lon st = Some x ∧ node_lat st = Some y
       ∧ posted (process_place parse_osm addr lon lat pname w).2
         = posted w ++ around 3000 y x :: rest).
Proof.
  intros Hlast Hfile Hparse Hinfer.
  rewrite (process_place_cached addr addr_4 lon lat pname xml root st w
             Hlast Hfile Hparse Hinfer).
  destruct (correct_coordinate_spec lon lat (node_lon st) (node_lat st))
    as [Hdiff Hsame].
  split; [| split].
  - intros p Hp. split.
    + intros Hforce.
      destruct (classic_differs lon lat (node_lon st) (node_lat st))
        as [Hd | Hn]; [exact Hd |].
      exfalso. rewrite (Hsame Hn) in Hp. unfold io_bind in Hp.
      destruct (count_radii parse_osm pname lon lat false [3; 1]%Z w)
        as [[counts | e] w1]; cbn in Hp; [| discriminate Hp].
      injection Hp as <-. cbn in Hforce. discriminate Hforce.
    + intros Hd. destruct (Hdiff Hd) as (x & y & _ & _ & E).
      rewrite E in Hp. unfold io_bind in Hp.
      destruct (count_radii parse_osm pname x y true [3; 1]%Z w)
        as [[counts | e] w1]; cbn in Hp; [| discriminate Hp].
      injection Hp as <-. reflexivity.
  - intros Hn xml1 Hfile1. rewrite (Hsame Hn).
    unfold counts_from_cache. cbn [count_radii]. unfold io_bind.
    rewrite (get_osm_data_cached lon lat _ _ xml w Hfile).
    unfold io_lift. rewrite Hparse.
    destruct (count_features root) as [fc3 | e]; cbn [and_then];
      [| reflexivity].
    rewrite (get_osm_data_cached lon lat _ _ xml1 w Hfile1).
    destruct (parse_osm xml1) as [root1 | e]; cbn [and_then]; [| reflexivity].
    destruct (count_features root1) as [fc1 | e]; reflexivity.
  - intros Hd. destruct (Hdiff Hd) as (x & y & Hx & Hy & E).
    exists x, y. rewrite E.
    destruct (count_radii_forced pname x y 3 [1%Z] w) as [rest Hp].
    exists rest. split; [exact Hx |]. split; [exact Hy |].
    unfold io_bind.
    destruct (count_radii parse_osm pname x y true [3; 1]%Z w)
      as [[counts | e] w1]; cbn [snd] in Hp |- *; exact Hp.
Qed.

End PipelineFacts.

(** The sample place: both graphs cached, the resolver finds the node
    [Yaohai] at the input coordinate. *)
Lemma refetch_iff_coordinate_differs_witness :
  (∀ p, (process_place sample_parse sample_addr sample_lon sample_lat
           sample_pname cached_world).1 = Ok p →
        (p_force_update p = true
         ↔ coordinate_differs sample_lon sample_lat
             (node_lon sample_resolution) (node_lat sample_resolution)))
  ∧ (¬ coordinate_differs sample_lon sample_lat
         (node_lon sample_resolution) (node_lat sample_resolution) →
     ∀ xml1, files cached_world !! cache_file sample_pname 1 = Some xml1 →
       process_place sample_parse sample_addr sample_lon sample_lat
         sample_pname cached_world
       = (counts_from_cache sample_parse sample_graph xml1 sample_lon
            sample_lat sample_resolution, cached_world))
  ∧ (coordinate_differs sample_lon sample_lat
       (node_lon sample_resolution) (node_lat sample_resolution) →
     ∃ x y rest,
       node_lon sample_resolution = Some x
       ∧ node_lat sample_resolution = Some y
       ∧ posted (process_place sample_parse sample_addr sample_lon sample_lat
                   sample_pname cached_world).2
         = (posted cached_world ++ around 3000 y x :: rest)%list).
Proof.
  apply (refetch_iff_coordinate_differs sample_parse sample_addr "Yaohai"
           sample_lon sample_lat sample_pname "<osm/>" sample_graph
           sample_resolution cached_world).
  - reflexivity.
  - vm_compute. reflexivity.
  - reflexivity.
  - vm_compute. reflexivity.
Defined.

(** ** Scoring: the last caps and the range of the scores *)

Section ScoringSumFacts.
Local Open Scope Q_scope.

#[local] Instance cap_proper' : Proper (Qeq ==> Qeq ==> Qeq) cap.
Proof.
  intros x x' Hx m m' Hm. unfold cap.
  rewrite <- Hx, <- Hm. destruct (m ?= x); assumption.
Qed.

Lemma cap_below (x m : Q) : x <= m → cap x m = x.
Proof.
  intros H. unfold cap. destruct (m ?= x) eqn:E; try reflexivity.
  apply Qlt_alt in E. exfalso. apply (Qlt_not_le _ _ E H).
Qed.

Lemma cap_nonneg (x m : Q) : 0 <= x → 0 <= m → 0 <= cap x m.
Proof. intros Hx Hm. unfold cap. destruct (m ?= x); assumption. Qed.

Lemma bonus_range (count : Z) (v : Q) : 0 <= v → 0 <= bonus count v <= v.
Proof.
  intros Hv. unfold bonus. destruct (0 <? count)%Z; split;
    try assumption; apply Qle_refl.
Qed.

Lemma inject_Z_nonneg (z : Z) : (0 <= z)%Z → 0 <= inject_Z z.
Proof. intros H. change 0 with (inject_Z 0). rewrite <- Zle_Qle. exact H. Qed.

Lemma score_existence_sum (r : row) (b c d : Q) :
  ∃ s1, score_existence r [0; b; c; d] = [s1; b; c; d] ∧ s1 == s1_sum r.
Proof.
  pose proof (cap_le_bound (inject_Z (places_total_3km r)) 5) as Hp.
  unfold score_existence, s1_sum, bonus, on, add_to, cap_at.
  repeat case_match; simpl; eexists; (split; [reflexivity |]);
    first [ exfalso; lia | rewrite cap_below by lra; ring ].
Qed.

Lemma score_roads_sum (r : row) (a c d : Q) :
  ∃ s2, score_roads r [a; 0; c; d] = [a; s2; c; d] ∧ s2 == s2_sum r.
Proof.
  destruct (score_roads_value r a c d) as (s2 & E & H).
  exists s2. split; [exact E |]. rewrite H.
  pose proof (cap_le_bound (inject_Z (road_types_3km r)) 4) as Ht.
  unfold s2_spec, s2_sum, bonus.
  set (partial := (if (0 <? _)%Z then 5 else 0) + _ + _).
  pose proof (cap_le_bound partial 20) as Hc.
  repeat case_match; (rewrite cap_below by lra); ring.
Qed.

Lemma score_amenities_sum (r : row) (a b d : Q) :
  ∃ s3, score_amenities r [a; b; 0; d] = [a; b; s3; d] ∧ s3 == s3_sum r.
Proof.
  pose proof (cap_le_bound (inject_Z (amenity_shop_1km r)) 6) as Hs.
  unfold score_amenities, s3_sum, bonus, on, add_to, cap_at.
  repeat case_match; simpl; eexists; (split; [reflexivity |]);
    (rewrite cap_below by lra); ring.
Qed.

Lemma score_landuse_sum (r : row) (a b c : Q) :
  ∃ s4, score_landuse r [a; b; c; 0] = [a; b; c; s4] ∧ s4 == s4_sum r.
Proof.
  pose proof (cap_le_bound
                (inject_Z (buildings_total_1km r + buildings_total_3km r)
                 * (1 # 10)) 12) as Hb.
  pose proof (cap_le_bound (inject_Z (landuse_types_3km r)) 8) as Hl.
  unfold score_landuse, s4_sum, add_to, cap_at. simpl.
  eexists. split; [reflexivity |]. rewrite cap_below by lra. ring.
Qed.

Lemma compute_score_sums (r : row) :
  ∃ s1 s2 s3 s4,
    compute_score r = [s1; s2; s3; s4]
    ∧ s1 == s1_sum r ∧ s2 == s2_sum r ∧ s3 == s3_sum r ∧ s4 == s4_sum r.
Proof.
  unfold compute_score.
  destruct (score_existence_sum r 0 0 0) as (s1 & -> & H1).
  destruct (score_roads_sum r s1 0 0) as (s2 & -> & H2).
  destruct (score_amenities_sum r s1 s2 0) as (s3 & -> & H3).
  destruct (score_landuse_sum r s1 s2 s3) as (s4 & -> & H4).
  exists s1, s2, s3, s4. auto.
Qed.

(** The last cap of each block of [compute_score] never binds: the four
    sub-scores are the sums of their terms, of which only the place count,
    the tertiary count, the road density with the two terms before it, the
    number of road types, the shop count, the building term and the number
    of land-use types are capped. *)
Theorem last_caps_never_bind (r : row) :
  ∃ s1 s2 s3 s4,
    compute_score r = [s1; s2; s3; s4]
    ∧ s1 == s1_sum r ∧ s2 == s2_sum r ∧ s3 == s3_sum r ∧ s4 == s4_sum r.
Proof.
  destruct (compute_score_sums r) as (s1 & s2 & s3 & s4 & H).
  exists s1, s2, s3, s4. exact H.
Qed.

(** On a row whose counts are not negative every sub-score is at least 0,
    so the total score lies between 0 and 100. *)
Theorem scores_not_negative (r : row) :
  counts_nonneg r →
  ∃ s1 s2 s3 s4,
    compute_score r = [s1; s2; s3; s4]
    ∧ 0 <= s1 ∧ 0 <= s2 ∧ 0 <= s3 ∧ 0 <= s4
    ∧ 0 <= total_score r <= 100.
Proof.
  intros (Hpl & Hte & Hr1 & Hr3 & Hrt & Hsh & Hb1 & Hb3 & Hlu).
  destruct (compute_score_sums r) as (s1 & s2 & s3 & s4 & E & H1 & H2 & H3 & H4).
  exists s1, s2, s3, s4. split; [exact E |].
  assert (P1 : 0 <= s1).
  { rewrite H1. unfold s1_sum.
    pose proof (bonus_range (node r) 7 ltac:(lra)).
    pose proof (cap_nonneg (inject_Z (places_total_3km r)) 5
                  (inject_Z_nonneg _ Hpl) ltac:(lra)).
    repeat case_match; lra. }
  assert (P2 : 0 <= s2).
  { rewrite H2. unfold s2_sum.
    pose proof (bonus_range (road_trunk_3km r + road_primary_3km r
                             + road_secondary_3km r) 5 ltac:(lra)) as B0.
    pose proof (bonus_range (road_bus_stop_3km r) 2 ltac:(lra)).
    pose proof (bonus_range (road_parking_3km r) 2 ltac:(lra)).
    pose proof (bonus_range (road_fuel_3km r) 2 ltac:(lra)).
    pose proof (cap_nonneg (inject_Z (road_types_3km r)) 4
                  (inject_Z_nonneg _ Hrt) ltac:(lra)).
    pose proof (cap_nonneg (inject_Z (road_tertiary_3km r)) 5
                  (inject_Z_nonneg _ Hte) ltac:(lra)) as C0.
    pose proof (inject_Z_nonneg _ Hr1) as R1.
    pose proof (inject_Z_nonneg _ Hr3) as R3.
    match goal with
    | |- 0 <= cap ?x 20 + _ + _ + _ + _ =>
        pose proof (cap_nonneg x 20 ltac:(nra) ltac:(lra))
    end.
    lra. }
  assert (P3 : 0 <= s3).
  { rewrite H3. unfold s3_sum.
    pose proof (bonus_range (amenity_gov_3km r) 5 ltac:(lra)).
    pose proof (bonus_range (amenity_health_1km r) 5 ltac:(lra)).
    pose proof (bonus_range (amenity_school_1km r) 5 ltac:(lra)).
    pose proof (bonus_range (amenity_police_1km r) 5 ltac:(lra)).
    pose proof (bonus_range (amenity_post_1km r) 2 ltac:(lra)).
    pose proof (bonus_range (amenity_bank_1km r) 2 ltac:(lra)).
    pose proof (cap_nonneg (inject_Z (amenity_shop_1km r)) 6
                  (inject_Z_nonneg _ Hsh) ltac:(lra)).
    lra. }
  assert (P4 : 0 <= s4).
  { rewrite H4. unfold s4_sum.
    pose proof (inject_Z_nonneg _ (Z.add_nonneg_nonneg _ _ Hb1 Hb3)) as B.
    pose proof (cap_nonneg
                  (inject_Z (buildings_total_1km r + buildings_total_3km r)
                   * (1 # 10)) 12 ltac:(nra) ltac:(lra)).
    pose proof (cap_nonneg (inject_Z (landuse_types_3km r)) 8
                  (inject_Z_nonneg _ Hlu) ltac:(lra)).
    lra. }
  repeat split; try assumption.
  - unfold total_score. rewrite E. simpl. lra.
  - apply total_score_bound.
Qed.

Lemma scores_not_negative_witness :
  ∃ s1 s2 s3 s4,
    compute_score dense_row = [s1; s2; s3; s4]
    ∧ 0 <= s1 ∧ 0 <= s2 ∧ 0 <= s3 ∧ 0 <= s4
    ∧ 0 <= total_score dense_row <= 100.
Proof.
  apply (scores_not_negative dense_row).
  unfold counts_nonneg, dense_row. simpl. repeat split; lia.
Defined.

End ScoringSumFacts.

(** ** Scoring: the rows of the data frame *)

Section FrameScoringFacts.
Local Open Scope Q_scope.

Lemma cap_cell_at_most (x : cell) (m : Q) :
  cap_cell x m = NaN ∨ at_most (cap_cell x m) m.
Proof.
  destruct x as [q |]; [right | left; reflexivity].
  apply cap_le_bound.
Qed.

Lemma num_at_most (s : cell) (m : Q) :
  is_num s = true → s = NaN ∨ at_most s m → ∃ q, s = Num q ∧ q <= m.
Proof.
  destruct s as [q |]; [| discriminate].
  intros _ [H | H]; [discriminate H | eauto].
Qed.

Ltac in_columns :=
  unfold score_columns;
  repeat first [apply list_elem_of_here | apply list_elem_of_further].

(** A cell that is read and is not NaN is a number. *)
Ltac numeric Hnn :=
  repeat match goal with
         | H : ?row !! ?k = Some NaN |- _ =>
             exfalso; apply (Hnn k); [in_columns | exact H]
         end.

Tactic Notation "present" constr(Hall) constr(k) ident(c) ident(E) :=
  destruct (Hall k) as [c E]; [in_columns |].

(** Each block ends with its cap, and leaves the other scores alone. *)
Lemma score_existence_frame_shape (row : frame_row) (a b c d : cell) :
  (∀ k, k ∈ score_columns → is_Some (row !! k)) →
  ∃ x, score_existence_frame row [a; b; c; d] = Ok [cap_cell x 20; b; c; d]
       ∧ (is_num a = true →
          (∀ k, k ∈ score_columns → row !! k ≠ Some NaN) →
          is_num x = true).
Proof.
  intros Hall.
  present Hall "node" node En.
  present Hall "boundary" boundary Eb.
  present Hall "places_total_3km" places Ep.
  unfold score_existence_frame, col. rewrite !En, Eb, Ep. cbn [and_then].
  destruct (gt_zero node), (gt_zero boundary), (is_minus_one node);
    cbn [and_then bump cap_cell_at alter list_alter];
    (eexists; split; [reflexivity |]);
    intros Ha Hnn; destruct a, places; try discriminate Ha; numeric Hnn;
    reflexivity.
Qed.

Lemma score_roads_frame_shape (row : frame_row) (a b c d : cell) :
  (∀ k, k ∈ score_columns → is_Some (row !! k)) →
  ∃ x, score_roads_frame row [a; b; c; d] = Ok [a; cap_cell x 30; c; d]
       ∧ (is_num b = true →
          (∀ k, k ∈ score_columns → row !! k ≠ Some NaN) →
          is_num x = true).
Proof.
  intros Hall.
  present Hall "road_trunk_3km" trunk E1.
  present Hall "road_primary_3km" primary E2.
  present Hall "road_secondary_3km" secondary E3.
  present Hall "road_tertiary_3km" tertiary E4.
  present Hall "road_res_uncl_1km" res1 E5.
  present Hall "road_res_uncl_3km" res3 E6.
  present Hall "road_bus_stop_3km" bus_stop E7.
  present Hall "road_parking_3km" parking E8.
  present Hall "road_fuel_3km" fuel E9.
  present Hall "road_types_3km" road_types E10.
  unfold score_roads_frame, col.
  rewrite E1, E2, E3, E4, E5, E6, E7, E8, E9, E10. cbn [and_then].
  destruct (gt_zero (cell_add (cell_add trunk primary) secondary)),
    (gt_zero bus_stop), (gt_zero parking), (gt_zero fuel);
    cbn [and_then bump cap_cell_at alter list_alter];
    (eexists; split; [reflexivity |]);
    intros Hb Hnn; destruct b, tertiary, res1, res3, road_types;
    try discriminate Hb; numeric Hnn; reflexivity.
Qed.

Lemma score_amenities_frame_shape (row : frame_row) (a b c d : cell) :
  (∀ k, k ∈ score_columns → is_Some (row !! k)) →
  ∃ x, score_amenities_frame row [a; b; c; d] = Ok [a; b; cap_cell x 30; d]
       ∧ (is_num c = true →
          (∀ k, k ∈ score_columns → row !! k ≠ Some NaN) →
          is_num x = true).
Proof.
  intros Hall.
  present Hall "amenity_gov_3km" gov E1.
  present Hall "amenity_health_1km" health E2.
  present Hall "amenity_school_1km" school E3.
  present Hall "amenity_police_1km" police E4.
  present Hall "amenity_post_1km" post E5.
  present Hall "amenity_bank_1km" bank E6.
  present Hall "amenity_shop_1km" shop E7.
  unfold score_amenities_frame, col.
  rewrite E1, E2, E3, E4, E5, E6, E7. cbn [and_then].
  destruct (gt_zero gov), (gt_zero health), (gt_zero school),
    (gt_zero police), (gt_zero post), (gt_zero bank);
    cbn [and_then bump cap_cell_at alter list_alter];
    (eexists; split; [reflexivity |]);
    intros Hc Hnn; destruct c, shop; try discriminate Hc; numeric Hnn;
    reflexivity.
Qed.

Lemma score_landuse_frame_shape (row : frame_row) (a b c d : cell) :
  (∀ k, k ∈ score_columns → is_Some (row !! k)) →
  ∃ x, score_landuse_frame row [a; b; c; d] = Ok [a; b; c; cap_cell x 20]
       ∧ (is_num d = true →
          (∀ k, k ∈ score_columns → row !! k ≠ Some NaN) →
          is_num x = true).
Proof.
  intros Hall.
  present Hall "buildings_total_1km" b1 E1.
  present Hall "buildings_total_3km" b3 E2.
  present Hall "landuse_types_3km" landuse E3.
  unfold score_landuse_frame, col. rewrite E1, E2, E3.
  cbn [and_then bump cap_cell_at alter list_alter].
  eexists. split; [reflexivity |].
  intros Hd Hnn. destruct d, b1, b3, landuse; try discriminate Hd;
    numeric Hnn; reflexivity.
Qed.

(** C1 as stated fails. The place list holds two places; the cache has
    both graphs of the first and the 3 km graph of the second, and the
    network is down. The row of the second place is appended with its
    3 km counts only, the data frame holds NaN in its 1 km columns, and
    [compute_score] returns NaN for its roads, amenities and land-use
    scores: NaN is not at most 30 or 20. *)
Lemma nan_scores_unbounded :
  ∃ rows w' row_b,
    process_lines sample_parse sample_to_float sample_pinyin sample_capitalize
      [sample_line; luyang_line] half_cached_world = (Ok rows, w')
    ∧ data_frame (row_cells ∘ snd <$> rows) !! 1%nat = Some row_b
    ∧ compute_score_frame row_b = Ok [Num 1; NaN; NaN; NaN]
    ∧ ¬ at_most NaN 30 ∧ ¬ at_most NaN 20.
Proof.
  eexists _, _, _. split; [vm_compute; reflexivity |].
  split; [vm_compute; reflexivity |].
  split; [vm_compute; reflexivity |]. split; intros [].
Qed.

(** C1, amended. On every row that has the columns [compute_score] reads,
    it returns four sub-scores, each of them NaN or at most its cap 20,
    30, 30, 20. When none of these columns is NaN, the four sub-scores are
    numbers, bounded by 20, 30, 30 and 20, and their sum is at most
    100. *)
Theorem compute_score_frame_bounded (row : frame_row) :
  (∀ k, k ∈ score_columns → is_Some (row !! k)) →
  ∃ s1 s2 s3 s4,
    compute_score_frame row = Ok [s1; s2; s3; s4]
    ∧ (s1 = NaN ∨ at_most s1 20) ∧ (s2 = NaN ∨ at_most s2 30)
    ∧ (s3 = NaN ∨ at_most s3 30) ∧ (s4 = NaN ∨ at_most s4 20)
    ∧ ((∀ k, k ∈ score_columns → row !! k ≠ Some NaN) →
       ∃ q1 q2 q3 q4,
         s1 = Num q1 ∧ s2 = Num q2 ∧ s3 = Num q3 ∧ s4 = Num q4
         ∧ q1 <= 20 ∧ q2 <= 30 ∧ q3 <= 30 ∧ q4 <= 20
         ∧ q1 + q2 + q3 + q4 <= 100).
Proof.
  intros Hall. unfold compute_score_frame.
  destruct (score_existence_frame_shape row (Num 0) (Num 0) (Num 0) (Num 0)
              Hall) as (x1 & -> & N1).
  cbn [and_then].
  destruct (score_roads_frame_shape row (cap_cell x1 20) (Num 0) (Num 0)
              (Num 0) Hall) as (x2 & -> & N2).
  cbn [and_then].
  destruct (score_amenities_frame_shape row (cap_cell x1 20) (cap_cell x2 30)
              (Num 0) (Num 0) Hall) as (x3 & -> & N3).
  cbn [and_then].
  destruct (score_landuse_frame_shape row (cap_cell x1 20) (cap_cell x2 30)
              (cap_cell x3 30) (Num 0) Hall) as (x4 & -> & N4).
  exists (cap_cell x1 20), (cap_cell x2 30), (cap_cell x3 30),
    (cap_cell x4 20).
  split; [reflexivity |].
  split; [apply cap_cell_at_most |]. split; [apply cap_cell_at_most |].
  split; [apply cap_cell_at_most |]. split; [apply cap_cell_at_most |].
  intros Hnn.
  specialize (N1 eq_refl Hnn). specialize (N2 eq_refl Hnn).
  specialize (N3 eq_refl Hnn). specialize (N4 eq_refl Hnn).
  destruct x1 as [q1 |], x2 as [q2 |], x3 as [q3 |], x4 as [q4 |];
    try discriminate.
  exists (cap q1 20), (cap q2 30), (cap q3 30), (cap q4 20).
  pose proof (cap_le_bound q1 20). pose proof (cap_le_bound q2 30).
  pose proof (cap_le_bound q3 30). pose proof (cap_le_bound q4 20).
  repeat (split; [first [reflexivity | assumption] |]). lra.
Qed.

End FrameScoringFacts.

(** ** Scoring: the two models agree on counted rows *)

Section FrameAgreement.
Local Open Scope Q_scope.

Lemma frame_of_columns (r : row) :
  col (frame_of r) "node" = Ok (Num (inject_Z (node r)))
  ∧ col (frame_of r) "boundary" = Ok (Num (inject_Z (boundary r)))
  ∧ col (frame_of r) "places_total_3km" = Ok (Num (inject_Z (places_total_3km r)))
  ∧ col (frame_of r) "road_trunk_3km" = Ok (Num (inject_Z (road_trunk_3km r)))
  ∧ col (frame_of r) "road_primary_3km" = Ok (Num (inject_Z (road_primary_3km r)))
  ∧ col (frame_of r) "road_secondary_3km" = Ok (Num (inject_Z (road_secondary_3km r)))
  ∧ col (frame_of r) "road_tertiary_3km" = Ok (Num (inject_Z (road_tertiary_3km r)))
  ∧ col (frame_of r) "road_res_uncl_1km" = Ok (Num (inject_Z (road_res_uncl_1km r)))
  ∧ col (frame_of r) "road_res_uncl_3km" = Ok (Num (inject_Z (road_res_uncl_3km r)))
  ∧ col (frame_of r) "road_bus_stop_3km" = Ok (Num (inject_Z (road_bus_stop_3km r)))
  ∧ col (frame_of r) "road_parking_3km" = Ok (Num (inject_Z (road_parking_3km r)))
  ∧ col (frame_of r) "road_fuel_3km" = Ok (Num (inject_Z (road_fuel_3km r)))
  ∧ col (frame_of r) "road_types_3km" = Ok (Num (inject_Z (road_types_3km r)))
  ∧ col (frame_of r) "amenity_gov_3km" = Ok (Num (inject_Z (amenity_gov_3km r)))
  ∧ col (frame_of r) "amenity_health_1km" = Ok (Num (inject_Z (amenity_health_1km r)))
  ∧ col (frame_of r) "amenity_school_1km" = Ok (Num (inject_Z (amenity_school_1km r)))
  ∧ col (frame_of r) "amenity_police_1km" = Ok (Num (inject_Z (amenity_police_1km r)))
  ∧ col (frame_of r) "amenity_post_1km" = Ok (Num (inject_Z (amenity_post_1km r)))
  ∧ col (frame_of r) "amenity_bank_1km" = Ok (Num (inject_Z (amenity_bank_1km r)))
  ∧ col (frame_of r) "amenity_shop_1km" = Ok (Num (inject_Z (amenity_shop_1km r)))
  ∧ col (frame_of r) "buildings_total_1km" = Ok (Num (inject_Z (buildings_total_1km r)))
  ∧ col (frame_of r) "buildings_total_3km" = Ok (Num (inject_Z (buildings_total_3km r)))
  ∧ col (frame_of r) "landuse_types_3km" = Ok (Num (inject_Z (landuse_types_3km r))).
Proof. repeat split; vm_compute; reflexivity. Qed.

Lemma gt_zero_inject (z : Z) : gt_zero (Num (inject_Z z)) = (0 <? z)%Z.
Proof.
  unfold gt_zero, Qcompare, inject_Z. cbn [Qnum Qden].
  rewrite !Z.mul_1_r. reflexivity.
Qed.

Lemma inject_Z_plus_eq (a b : Z) : inject_Z a + inject_Z b = inject_Z (a + b).
Proof.
  unfold Qplus, inject_Z. cbn [Qnum Qden]. f_equal. lia.
Qed.

Lemma gt_zero_sum (a b c : Z) :
  gt_zero (cell_add (cell_add (Num (inject_Z a)) (Num (inject_Z b)))
                    (Num (inject_Z c)))
  = (0 <? a + b + c)%Z.
Proof.
  cbn [cell_add]. rewrite !inject_Z_plus_eq. apply gt_zero_inject.
Qed.

Lemma is_minus_one_inject (z : Z) :
  is_minus_one (Num (inject_Z z)) = (z =? -1)%Z.
Proof.
  unfold is_minus_one, Qeq_bool, inject_Z. cbn [Qnum Qden].
  rewrite Z.mul_1_r. reflexivity.
Qed.

Lemma score_existence_frame_of (r : row) (a b c d : Q) :
  score_existence_frame (frame_of r) (Num <$> [a; b; c; d])
  = Ok (Num <$> score_existence r [a; b; c; d]).
Proof.
  destruct (frame_of_columns r) as (E1 & E2 & E3 & _).
  unfold score_existence_frame, score_existence, on.
  rewrite !E1, E2, E3. cbn [and_then].
  rewrite gt_zero_inject, gt_zero_inject, is_minus_one_inject.
  destruct (0 <? node r)%Z, (0 <? boundary r)%Z, (node r =? -1)%Z;
    reflexivity.
Qed.

Lemma score_roads_frame_of (r : row) (a b c d : Q) :
  score_roads_frame (frame_of r) (Num <$> [a; b; c; d])
  = Ok (Num <$> score_roads r [a; b; c; d]).
Proof.
  destruct (frame_of_columns r)
    as (_ & _ & _ & E1 & E2 & E3 & E4 & E5 & E6 & E7 & E8 & E9 & E10 & _).
  unfold score_roads_frame, score_roads, on.
  rewrite E1, E2, E3, E4, E5, E6, E7, E8, E9, E10. cbn [and_then].
  rewrite gt_zero_sum, !gt_zero_inject.
  destruct (0 <? road_trunk_3km r + road_primary_3km r
                 + road_secondary_3km r)%Z,
    (0 <? road_bus_stop_3km r)%Z, (0 <? road_parking_3km r)%Z,
    (0 <? road_fuel_3km r)%Z; reflexivity.
Qed.

Lemma score_amenities_frame_of (r : row) (a b c d : Q) :
  score_amenities_frame (frame_of r) (Num <$> [a; b; c; d])
  = Ok (Num <$> score_amenities r [a; b; c; d]).
Proof.
  destruct (frame_of_columns r)
    as (_ & _ & _ & _ & _ & _ & _ & _ & _ & _ & _ & _ & _
        & E1 & E2 & E3 & E4 & E5 & E6 & E7 & _).
  unfold score_amenities_frame, score_amenities, on.
  rewrite E1, E2, E3, E4, E5, E6, E7. cbn [and_then].
  rewrite !gt_zero_inject.
  destruct (0 <? amenity_gov_3km r)%Z, (0 <? amenity_health_1km r)%Z,
    (0 <? amenity_school_1km r)%Z, (0 <? amenity_police_1km r)%Z,
    (0 <? amenity_post_1km r)%Z, (0 <? amenity_bank_1km r)%Z; reflexivity.
Qed.

Lemma score_landuse_frame_of (r : row) (a b c d : Q) :
  score_landuse_frame (frame_of r) (Num <$> [a; b; c; d])
  = Ok (Num <$> score_landuse r [a; b; c; d]).
Proof.
  destruct (frame_of_columns r)
    as (_ & _ & _ & _ & _ & _ & _ & _ & _ & _ & _ & _ & _
        & _ & _ & _ & _ & _ & _ & _ & E1 & E2 & E3).
  unfold score_landuse_frame, score_landuse.
  rewrite E1, E2, E3. cbn [and_then cell_add].
  rewrite inject_Z_plus_eq. reflexivity.
Qed.

(** On the row of a place whose columns are all counted the data-frame
    model computes what [compute_score] computes on the record of its
    integers. *)
Lemma compute_score_frame_of (r : row) :
  compute_score_frame (frame_of r) = Ok (Num <$> compute_score r).
Proof.
  unfold compute_score_frame, compute_score.
  change [Num 0; Num 0; Num 0; Num 0] with (Num <$> [0; 0; 0; 0]).
  rewrite score_existence_frame_of. cbn [and_then].
  destruct (score_existence_shape r 0 0 0 0) as [x1 ->].
  rewrite score_roads_frame_of. cbn [and_then].
  destruct (score_roads_shape r (cap x1 20) 0 0 0) as [x2 ->].
  rewrite score_amenities_frame_of. cbn [and_then].
  destruct (score_amenities_shape r (cap x1 20) (cap x2 30) 0 0) as [x3 ->].
  apply score_landuse_frame_of.
Qed.

End FrameAgreement.

(** The dense row, all of whose columns are counted. *)
Lemma compute_score_frame_bounded_witness :
  ∃ s1 s2 s3 s4,
    compute_score_frame (frame_of dense_row) = Ok [s1; s2; s3; s4]
    ∧ (s1 = NaN ∨ at_most s1 20) ∧ (s2 = NaN ∨ at_most s2 30)
    ∧ (s3 = NaN ∨ at_most s3 30) ∧ (s4 = NaN ∨ at_most s4 20)
    ∧ ((∀ k, k ∈ score_columns → frame_of dense_row !! k ≠ Some NaN) →
       ∃ q1 q2 q3 q4,
         s1 = Num q1 ∧ s2 = Num q2 ∧ s3 = Num q3 ∧ s4 = Num q4
         ∧ (q1 <= 20)%Q ∧ (q2 <= 30)%Q ∧ (q3 <= 30)%Q ∧ (q4 <= 20)%Q
         ∧ (q1 + q2 + q3 + q4 <= 100)%Q).
Proof.
  apply (compute_score_frame_bounded (frame_of dense_row)).
  intros k Hk. unfold score_columns in Hk.
  repeat (apply elem_of_cons in Hk as [-> | Hk]; [vm_compute; eauto |]).
  by apply elem_of_nil in Hk.
Defined.

(** ** Feature counting: what the counters count *)

Section CounterSums.
Local Open Scope nat_scope.
Local Open Scope list_scope.

Lemma adds_refl (dict : counters → gmap string nat) (k : string) (c : counters) :
  adds dict k 0 c c.
Proof.
  unfold adds. destruct (dict c !! k) as [v |]; cbn; [| reflexivity].
  f_equal. lia.
Qed.

Lemma adds_trans (dict : counters → gmap string nat) (k : string) (n m : nat)
    (c1 c2 c3 : counters) :
  adds dict k n c1 c2 → adds dict k m c2 c3 → adds dict k (n + m) c1 c3.
Proof.
  unfold adds. intros H12 H23. rewrite H23, H12.
  destruct (dict c1 !! k) as [v |]; cbn; [| reflexivity]. f_equal. lia.
Qed.

(** A block adds the sum of what its statements add. *)
Lemma chain_adds (dict : counters → gmap string nat) (k : string)
    (steps : list (counters → result counters)) (ns : list nat) :
  Forall2 (λ step n, ∀ c c', step c = Ok c' → adds dict k n c c') steps ns →
  ∀ c c', chain steps c = Ok c' → adds dict k (sum_list ns) c c'.
Proof.
  unfold chain. induction 1 as [| step n steps ns Hstep _ IH];
    intros c c' H; cbn in H.
  - injection H as <-. apply adds_refl.
  - destruct (step c) as [c1 |] eqn:E; [| discriminate H].
    cbn [sum_list foldr]. eapply adds_trans; [apply (Hstep c c1 E) |].
    apply (IH c1 c' H).
Qed.

Lemma for_each_adds {X : Type} (Inv : counters → Prop)
    (dict : counters → gmap string nat) (k : string) (f : X → nat)
    (body : counters → X → result counters) (xs : list X) :
  (∀ c x c', Inv c → body c x = Ok c' → Inv c' ∧ adds dict k (f x) c c') →
  ∀ c c', Inv c → for_each body xs c = Ok c' →
          Inv c' ∧ adds dict k (sum_list (f <$> xs)) c c'.
Proof.
  intros Hbody. induction xs as [| x xs IH]; intros c c' Hc H; cbn in H.
  - injection H as <-. split; [exact Hc | apply adds_refl].
  - destruct (body c x) as [c1 |] eqn:E; [| discriminate H].
    destruct (Hbody c x c1 Hc E) as [H1 A1].
    destruct (IH c1 c' H1 H) as [H2 A2].
    split; [exact H2 |]. cbn. eapply adds_trans; eassumption.
Qed.

Lemma sum_list_b2n {X : Type} (test : X → bool) (xs : list X) :
  sum_list ((λ x, Nat.b2n (test x)) <$> xs)
  = length (filter (λ x, test x = true) xs).
Proof.
  induction xs as [| x xs IH]; [reflexivity |].
  cbn [fmap list_fmap sum_list foldr]. rewrite filter_cons.
  destruct (test x) eqn:E.
  - rewrite decide_True by reflexivity. cbn. f_equal. exact IH.
  - rewrite decide_False by discriminate. exact IH.
Qed.

Lemma sum_list_plus {X : Type} (f g : X → nat) (xs : list X) :
  sum_list ((λ x, f x + g x) <$> xs)
  = sum_list (f <$> xs) + sum_list (g <$> xs).
Proof.
  induction xs as [| x xs IH]; [reflexivity |]. cbn in *. lia.
Qed.

Lemma sum_list_ext {X : Type} (f g : X → nat) (xs : list X) :
  (∀ x, f x = g x) → sum_list (f <$> xs) = sum_list (g <$> xs).
Proof.
  intros H. induction xs as [| x xs IH]; [reflexivity |].
  cbn in *. rewrite H, IH. reflexivity.
Qed.

(** The statements of the two loops, one by one. *)
Lemma incr_adds (k0 k : string) (d d' : gmap string nat) :
  incr k0 d = Ok d' →
  d' !! k = (λ v, v + Nat.b2n (String.eqb k0 k)) <$> d !! k.
Proof.
  unfold incr. destruct (d !! k0) as [v |] eqn:E; [| discriminate].
  intros H. injection H as <-.
  destruct (String.eqb_spec k0 k) as [-> | Hne].
  - rewrite lookup_insert_eq, E. cbn. f_equal. lia.
  - rewrite lookup_insert_ne by exact Hne.
    destruct (d !! k); cbn; [f_equal; lia | reflexivity].
Qed.

Lemma when_incr_amenity_adds (b : bool) (k0 k : string) (c c' : counters) :
  when b (incr_amenity k0) c = Ok c' →
  adds amenities k (Nat.b2n (b && String.eqb k0 k)) c c'.
Proof.
  unfold when. destruct b; cbn [andb].
  - unfold incr_amenity. destruct (incr k0 (amenities c)) as [d |] eqn:E;
      cbn [and_then]; [| discriminate].
    intros H. injection H as <-. apply (incr_adds k0 k _ _ E).
  - intros H. injection H as <-. apply adds_refl.
Qed.

Lemma when_incr_road_adds (b : bool) (k0 k : string) (c c' : counters) :
  when b (incr_road k0) c = Ok c' →
  adds roads k (Nat.b2n (b && String.eqb k0 k)) c c'.
Proof.
  unfold when. destruct b; cbn [andb].
  - unfold incr_road. destruct (incr k0 (roads c)) as [d |] eqn:E;
      cbn [and_then]; [| discriminate].
    intros H. injection H as <-. apply (incr_adds k0 k _ _ E).
  - intros H. injection H as <-. apply adds_refl.
Qed.

Lemma same_dict_adds (dict : counters → gmap string nat) (k : string)
    (c c' : counters) :
  dict c' = dict c → adds dict k 0 c c'.
Proof.
  intros H. unfold adds. rewrite H.
  destruct (dict c !! k); cbn; [f_equal; lia | reflexivity].
Qed.

Lemma when_incr_amenity_roads (b : bool) (k0 k : string) (c c' : counters) :
  when b (incr_amenity k0) c = Ok c' → adds roads k 0 c c'.
Proof.
  unfold when, incr_amenity. destruct b.
  - destruct (incr k0 (amenities c)); cbn [and_then]; [| discriminate].
    intros H. injection H as <-. apply same_dict_adds. reflexivity.
  - intros H. injection H as <-. apply adds_refl.
Qed.

Lemma when_incr_road_amenities (b : bool) (k0 k : string) (c c' : counters) :
  when b (incr_road k0) c = Ok c' → adds amenities k 0 c c'.
Proof.
  unfold when, incr_road. destruct b.
  - destruct (incr k0 (roads c)); cbn [and_then]; [| discriminate].
    intros H. injection H as <-. apply same_dict_adds. reflexivity.
  - intros H. injection H as <-. apply adds_refl.
Qed.

Lemma when_keeps_dicts (b : bool) (act : counters → result counters) :
  keeps_dicts act → keeps_dicts (when b act).
Proof.
  intros Hact c c' H. unfold when in H. destruct b; [apply (Hact c c' H) |].
  injection H as <-. auto.
Qed.

Lemma add_building_keeps_dicts (i : Z) : keeps_dicts (add_building i).
Proof. intros c c' H. injection H as <-. auto. Qed.

Lemma add_place_keeps_dicts (i : Z) : keeps_dicts (add_place i).
Proof. intros c c' H. injection H as <-. auto. Qed.

Lemma add_landuse_keeps_dicts (v : string) : keeps_dicts (add_landuse v).
Proof. intros c c' H. injection H as <-. auto. Qed.

Lemma add_landuse_value_keeps_dicts (tags : gmap string string) :
  keeps_dicts (add_landuse_value tags).
Proof.
  intros c c' H. unfold add_landuse_value in H.
  destruct (tags !! "landuse"); [| discriminate H].
  apply (add_landuse_keeps_dicts _ _ _ H).
Qed.

Lemma add_building_of_way_keeps_dicts (way : option osm_way) :
  keeps_dicts (add_building_of_way way).
Proof.
  intros c c' H. unfold add_building_of_way in H.
  destruct way; [| discriminate H].
  apply (add_building_keeps_dicts _ _ _ H).
Qed.

Lemma count_leisure_keeps_dicts (tags : gmap string string) :
  keeps_dicts (count_leisure tags).
Proof.
  unfold count_leisure.
  generalize ["leisure"; "tourism"; "waterway"].
  intros hs. induction hs as [| h hs IH]; intros c c' H; cbn in H.
  - injection H as <-. auto.
  - destruct (when (has h tags) (add_landuse h) c) as [c1 |] eqn:E;
      [| discriminate H].
    destruct (when_keeps_dicts _ _ (add_landuse_keeps_dicts h) c c1 E)
      as [Hr Ha].
    destruct (IH c1 c' H) as [Hr' Ha']. split; congruence.
Qed.

Lemma keeps_dicts_adds (dict : counters → gmap string nat) (k : string)
    (step : counters → result counters) (c c' : counters) :
  (dict = roads ∨ dict = amenities) →
  keeps_dicts step → step c = Ok c' → adds dict k 0 c c'.
Proof.
  intros Hd Hstep H. destruct (Hstep c c' H) as [Hr Ha].
  apply same_dict_adds. destruct Hd as [-> | ->]; assumption.
Qed.


Lemma has_same_dom {V : Type} (h : string) (d d0 : gmap string V) :
  dom d = dom d0 → has h d = has h d0.
Proof.
  intros Hdom. unfold has.
  destruct (d !! h) as [v |] eqn:E, (d0 !! h) as [v0 |] eqn:E0; try reflexivity.
  - assert (Hin : h ∈ dom d0) by (rewrite <- Hdom; apply elem_of_dom; eauto).
    apply elem_of_dom in Hin as [? Hin]. congruence.
  - assert (Hin : h ∈ dom d) by (rewrite Hdom; apply elem_of_dom; eauto).
    apply elem_of_dom in Hin as [? Hin]. congruence.
Qed.

(** The [highway] block adds [highway_adds] to the road entries and leaves
    the amenities alone. *)
Lemma count_highway_adds (k : string) (tags : gmap string string)
    (c c' : counters) :
  dom (roads c) = dom (roads counters_init) →
  count_highway tags c = Ok c' →
  adds roads k (highway_adds k tags) c c' ∧ amenities c' = amenities c.
Proof.
  intros Hdom H. unfold count_highway in H. unfold highway_adds.
  destruct (tags !! "highway") as [h |];
    [| injection H as <-; split; [apply adds_refl | reflexivity]].
  rewrite <- (has_same_dom h _ _ Hdom).
  assert (Hrest : ∀ c1, (if existsb (String.eqb h) minor_road_types
                         then when (negb (bool_decide (h ∈ road_types c1)))
                                   (add_road_type h) c1
                         else Ok c1) = Ok c' →
                        roads c' = roads c1 ∧ amenities c' = amenities c1).
  { intros c1 H1. destruct (existsb _ minor_road_types);
      [| injection H1 as <-; auto].
    unfold when in H1. destruct (negb _); injection H1 as <-; auto. }
  destruct (has h (roads c)).
  - pose proof (when_incr_road_adds true h k c) as Hadd.
    pose proof (when_incr_amenity_roads false h k c) as _.
    unfold when in Hadd. cbn [andb] in Hadd.
    destruct (incr_road h c) as [c1 |] eqn:E; cbn [and_then] in H;
      [| discriminate H].
    destruct (Hrest c1 H) as [Hr Ha].
    pose proof (when_incr_road_amenities true h k c c1 E) as Ham.
    split.
    + unfold adds. rewrite Hr. apply (Hadd c1 eq_refl).
    + rewrite Ha. unfold incr_road in E.
      destruct (incr h (roads c)); cbn [and_then] in E; [| discriminate E].
      injection E as <-. reflexivity.
  - destruct (existsb (String.eqb h) ["residential"; "unclassified"]).
    + pose proof (when_incr_road_adds true "res_uncl" k c) as Hadd.
      unfold when in Hadd. cbn [andb] in Hadd.
      destruct (incr_road "res_uncl" c) as [c1 |] eqn:E; cbn [and_then] in H;
        [| discriminate H].
      destruct (Hrest c1 H) as [Hr Ha]. split.
      * unfold adds. rewrite Hr. apply (Hadd c1 eq_refl).
      * rewrite Ha. unfold incr_road in E.
        destruct (incr "res_uncl" (roads c)); cbn [and_then] in E;
          [| discriminate E].
        injection E as <-. reflexivity.
    + cbn [and_then] in H. destruct (Hrest c H) as [Hr Ha]. split.
      * apply same_dict_adds. exact Hr.
      * exact Ha.
Qed.

Ltac dict_step k :=
  first
    [ intros ? ?; apply when_incr_road_adds
    | intros ? ?; apply when_incr_amenity_adds
    | intros ? ?; apply when_incr_road_amenities
    | intros ? ?; apply when_incr_amenity_roads
    | let H := fresh in
      intros ? ? H;
      eapply keeps_dicts_adds; [ | | exact H ];
      [ first [ left; reflexivity | right; reflexivity ]
      | first [ apply when_keeps_dicts | idtac ];
        first [ apply add_building_keeps_dicts
              | apply add_place_keeps_dicts
              | apply add_landuse_value_keeps_dicts
              | apply add_building_of_way_keeps_dicts
              | apply count_leisure_keeps_dicts ] ] ].

Lemma chain_cons (step : counters → result counters)
    (steps : list (counters → result counters)) (c c' : counters) :
  chain (step :: steps) c = Ok c' →
  ∃ c1, step c = Ok c1 ∧ chain steps c1 = Ok c'.
Proof.
  unfold chain. cbn. destruct (step c) as [c1 |]; [eauto | discriminate].
Qed.

(** What one way adds to the entry [k] of the two dictionaries. *)
Lemma count_way_adds (k : string) (c c' : counters) (way : osm_way) :
  dom (roads c) = dom (roads counters_init) →
  count_way c way = Ok c' →
  adds roads k (way_road_adds k (tags_of (w_tag way))) c c'
  ∧ adds amenities k (way_amenity_adds k (tags_of (w_tag way))) c c'.
Proof.
  intros Hdom H. unfold count_way in H.
  apply chain_cons in H as (c1 & H1 & H).
  destruct (count_highway_adds k _ c c1 Hdom H1) as [Hr1 Ha1].
  set (tags := tags_of (w_tag way)) in *.
  split.
  - replace (way_road_adds k tags)
      with (highway_adds k tags
            + sum_list [0; 0; 0; 0; 0; 0; 0; 0; 0;
                        Nat.b2n (is_bus_stop tags && String.eqb "bus_stop" k);
                        Nat.b2n (get_is tags "amenity" "parking"
                                 && String.eqb "parking" k);
                        Nat.b2n (get_is tags "amenity" "fuel"
                                 && String.eqb "fuel" k);
                        0; 0])
      by (unfold way_road_adds, amenity_is; cbn; lia).
    eapply adds_trans; [exact Hr1 |].
    revert H. apply chain_adds.
    repeat (constructor; [dict_step k |]). constructor.
  - replace (way_amenity_adds k tags)
      with (0 + sum_list [0; 0;
                          Nat.b2n (is_gov tags && String.eqb "gov" k);
                          Nat.b2n (is_health tags && String.eqb "health" k);
                          Nat.b2n (is_school tags && String.eqb "school" k);
                          Nat.b2n (get_is tags "amenity" "police"
                                   && String.eqb "police" k);
                          Nat.b2n (get_is tags "amenity" "post_office"
                                   && String.eqb "post" k);
                          Nat.b2n (get_is tags "amenity" "bank"
                                   && String.eqb "bank" k);
                          Nat.b2n (is_shop tags && String.eqb "shop" k);
                          0; 0; 0; 0; 0])
      by (unfold way_amenity_adds, amenity_is; cbn; lia).
    eapply adds_trans; [apply same_dict_adds; exact Ha1 |].
    revert H. apply chain_adds.
    repeat (constructor; [dict_step k |]). constructor.
Qed.

(** What one node adds to the entry [k] of the two dictionaries. *)
Lemma count_node_adds (k : string) (way : option osm_way) (c c' : counters)
    (n : osm_node) :
  count_node way c n = Ok c' →
  adds roads k (node_road_adds k (tags_of (n_tag n))) c c'
  ∧ adds amenities k (node_amenity_adds k (tags_of (n_tag n))) c c'.
Proof.
  intros H. unfold count_node in H.
  set (tags := tags_of (n_tag n)) in *.
  split.
  - replace (node_road_adds k tags)
      with (sum_list [0; 0; 0; 0; 0; 0; 0; 0;
                      Nat.b2n (is_bus_stop tags && String.eqb "bus_stop" k);
                      Nat.b2n (get_is tags "amenity" "fuel"
                               && String.eqb "fuel" k);
                      Nat.b2n (get_is tags "amenity" "parking"
                               && String.eqb "parking" k);
                      0; 0])
      by (unfold node_road_adds, amenity_is; cbn; lia).
    revert H. apply chain_adds.
    repeat (constructor; [dict_step k |]). constructor.
  - replace (node_amenity_adds k tags)
      with (sum_list [0;
                      Nat.b2n (is_gov tags && String.eqb "gov" k);
                      Nat.b2n (is_health tags && String.eqb "health" k);
                      Nat.b2n (is_school tags && String.eqb "police" k);
                      Nat.b2n (get_is tags "amenity" "police"
                               && String.eqb "police" k);
                      Nat.b2n (get_is tags "amenity" "post_office"
                               && String.eqb "post" k);
                      Nat.b2n (get_is tags "amenity" "bank"
                               && String.eqb "bank" k);
                      Nat.b2n (is_shop tags && String.eqb "shop" k);
                      0; 0; 0; 0; 0])
      by (unfold node_amenity_adds, amenity_is; cbn; lia).
    revert H. apply chain_adds.
    repeat (constructor; [dict_step k |]). constructor.
Qed.

End CounterSums.

Section CounterTotals.
Local Open Scope nat_scope.
Local Open Scope list_scope.

(** Every entry of the two returned dictionaries is its initial value plus
    what the ways and the nodes add to it. *)
Lemma count_features_entries (osm_root : osm) (fc : feature_counts)
    (k : string) :
  count_features osm_root = Ok fc →
  fc_roads fc !! k
  = (λ v, v + (sum_list ((λ w, way_road_adds k (tags_of (w_tag w)))
                           <$> ways osm_root)
               + sum_list ((λ n, node_road_adds k (tags_of (n_tag n)))
                             <$> nodes osm_root)))
      <$> roads counters_init !! k
  ∧ fc_amenities fc !! k
    = (λ v, v + (sum_list ((λ w, way_amenity_adds k (tags_of (w_tag w)))
                             <$> ways osm_root)
                 + sum_list ((λ n, node_amenity_adds k (tags_of (n_tag n)))
                               <$> nodes osm_root)))
        <$> amenities counters_init !! k.
Proof.
  unfold count_features. intros H.
  destruct (for_each count_way (ways osm_root) counters_init) as [c1 |] eqn:E1;
    cbn [and_then] in H; [| discriminate H].
  destruct (for_each (count_node (last (ways osm_root))) (nodes osm_root) c1)
    as [c2 |] eqn:E2; cbn [and_then] in H; [| discriminate H].
  injection H as <-. cbn [fc_roads fc_amenities].
  set (Inv := λ c : counters, dom (roads c) = dom (roads counters_init)).
  assert (Hway : ∀ dict f,
            (∀ c w c', Inv c → count_way c w = Ok c' →
                       adds dict k (f w) c c') →
            adds dict k (sum_list (f <$> ways osm_root)) counters_init c1).
  { intros dict f Hf.
    apply (for_each_adds Inv dict k f count_way (ways osm_root));
      [| reflexivity | exact E1].
    intros c w c' Hc Hw. split; [| apply (Hf c w c' Hc Hw)].
    destruct (count_way_same_keys c c' w Hw) as [Hr _].
    unfold Inv in *. congruence. }
  assert (Hnode : ∀ dict f,
            (∀ c n c', count_node (last (ways osm_root)) c n = Ok c' →
                       adds dict k (f n) c c') →
            adds dict k (sum_list (f <$> nodes osm_root)) c1 c2).
  { intros dict f Hf.
    apply (for_each_adds (λ _, True) dict k f
             (count_node (last (ways osm_root))) (nodes osm_root));
      [| exact I | exact E2].
    intros c n c' _ Hn. split; [exact I | apply (Hf c n c' Hn)]. }
  split.
  - apply (adds_trans roads k _ _ counters_init c1 c2).
    + apply Hway. intros c w c' Hc Hw. apply (count_way_adds k c c' w Hc Hw).
    + apply Hnode. intros c n c' Hn. apply (count_node_adds k _ c c' n Hn).
  - apply (adds_trans amenities k _ _ counters_init c1 c2).
    + apply Hway. intros c w c' Hc Hw. apply (count_way_adds k c c' w Hc Hw).
    + apply Hnode. intros c n c' Hn. apply (count_node_adds k _ c c' n Hn).
Qed.

(** For a key of [roads] other than [res_uncl], the [highway] block counts
    the ways whose [highway] value is the key itself. *)
Lemma highway_adds_key (k : string) (tags : gmap string string) :
  has k (roads counters_init) = true → k ≠ "res_uncl" →
  highway_adds k tags = Nat.b2n (highway_is k tags).
Proof.
  intros Hk Hne. unfold highway_adds, highway_is, get_is.
  destruct (tags !! "highway") as [h |]; [| reflexivity].
  destruct (String.eqb_spec h k) as [-> | Hhk].
  - rewrite Hk. reflexivity.
  - destruct (has h (roads counters_init)); [reflexivity |].
    destruct (existsb _ _); [| reflexivity].
    destruct (String.eqb_spec "res_uncl" k) as [<- | _];
      [contradiction | reflexivity].
Qed.

Lemma highway_adds_res_uncl (tags : gmap string string) :
  highway_adds "res_uncl" tags
  = Nat.b2n (highway_in res_uncl_values tags).
Proof.
  unfold highway_adds, highway_in, get_in, res_uncl_values.
  destruct (tags !! "highway") as [h |]; [| reflexivity].
  destruct (String.eqb_spec h "res_uncl") as [-> | H1]; [reflexivity |].
  destruct (String.eqb_spec h "residential") as [-> | H2]; [reflexivity |].
  destruct (String.eqb_spec h "unclassified") as [-> | H3]; [reflexivity |].
  cbn [existsb orb].
  destruct (String.eqb_spec h "res_uncl") as [? | _]; [contradiction |].
  destruct (String.eqb_spec h "residential") as [? | _]; [contradiction |].
  destruct (String.eqb_spec h "unclassified") as [? | _]; [contradiction |].
  destruct (has h _); reflexivity.
Qed.

Lemma count_ways_sum (test : gmap string string → bool) (osm_root : osm) :
  sum_list ((λ w, Nat.b2n (test (tags_of (w_tag w)))) <$> ways osm_root)
  = count_ways test osm_root.
Proof. apply (sum_list_b2n (λ w, test (tags_of (w_tag w)))). Qed.

Lemma count_nodes_sum (test : gmap string string → bool) (osm_root : osm) :
  sum_list ((λ n, Nat.b2n (test (tags_of (n_tag n)))) <$> nodes osm_root)
  = count_nodes test osm_root.
Proof. apply (sum_list_b2n (λ n, test (tags_of (n_tag n)))). Qed.


Ltac eval_eqb :=
  repeat match goal with
         | |- context [String.eqb ?a ?b] =>
             let v := eval vm_compute in (String.eqb a b) in
             change (String.eqb a b) with v
         end;
  rewrite ?andb_true_r, ?andb_false_r; cbn [Nat.b2n].

Lemma sum_list_zero {X : Type} (xs : list X) :
  sum_list ((λ _, 0) <$> xs) = 0.
Proof. induction xs as [| x xs IH]; [reflexivity | exact IH]. Qed.

Lemma count_ways_sum2 (t1 t2 : gmap string string → bool) (osm_root : osm) :
  sum_list ((λ w, Nat.b2n (t1 (tags_of (w_tag w)))
                  + Nat.b2n (t2 (tags_of (w_tag w)))) <$> ways osm_root)
  = count_ways t1 osm_root + count_ways t2 osm_root.
Proof.
  rewrite (sum_list_plus (λ w, Nat.b2n (t1 (tags_of (w_tag w))))
             (λ w, Nat.b2n (t2 (tags_of (w_tag w))))).
  rewrite !count_ways_sum. reflexivity.
Qed.

Lemma count_nodes_sum2 (t1 t2 : gmap string string → bool) (osm_root : osm) :
  sum_list ((λ n, Nat.b2n (t1 (tags_of (n_tag n)))
                  + Nat.b2n (t2 (tags_of (n_tag n)))) <$> nodes osm_root)
  = count_nodes t1 osm_root + count_nodes t2 osm_root.
Proof.
  rewrite (sum_list_plus (λ n, Nat.b2n (t1 (tags_of (n_tag n))))
             (λ n, Nat.b2n (t2 (tags_of (n_tag n))))).
  rewrite !count_nodes_sum. reflexivity.
Qed.

(** The entry [k] of a dictionary, given what a way and a node add to it
    as functions [fw] and [fn] of the tags. *)
Ltac pointwise :=
  intros ?; unfold way_road_adds, node_road_adds, way_amenity_adds,
              node_amenity_adds;
  rewrite ?highway_adds_res_uncl,
    ?highway_adds_key by (reflexivity || discriminate);
  eval_eqb; lia.

Ltac road_entry osm_root fc H k fw fn :=
  destruct (count_features_entries osm_root fc k H) as [-> _];
  change (roads counters_init !! k) with (Some 0);
  cbn [fmap option_fmap option_map]; f_equal;
  rewrite (sum_list_ext _ (λ w, fw (tags_of (w_tag w))) (ways osm_root))
    by pointwise;
  rewrite (sum_list_ext _ (λ n, fn (tags_of (n_tag n))) (nodes osm_root))
    by pointwise;
  cbn beta;
  rewrite ?sum_list_zero, ?count_ways_sum2, ?count_nodes_sum2,
    ?count_ways_sum, ?count_nodes_sum; lia.

Ltac amenity_entry osm_root fc H k fw fn :=
  destruct (count_features_entries osm_root fc k H) as [_ ->];
  change (amenities counters_init !! k) with (Some 0);
  cbn [fmap option_fmap option_map]; f_equal;
  rewrite (sum_list_ext _ (λ w, fw (tags_of (w_tag w))) (ways osm_root))
    by pointwise;
  rewrite (sum_list_ext _ (λ n, fn (tags_of (n_tag n))) (nodes osm_root))
    by pointwise;
  cbn beta;
  rewrite ?sum_list_zero, ?count_ways_sum2, ?count_nodes_sum2,
    ?count_ways_sum, ?count_nodes_sum; lia.

(** Whenever [count_features] returns, its road dictionary holds: under
    each of the four road classes the number of ways with that [highway]
    value; under [res_uncl] the ways whose [highway] is residential,
    unclassified or the key itself; under [bus_stop], [parking] and [fuel]
    the ways and nodes that pass the test of the counter, and once more
    the ways whose [highway] value is the name of the counter. *)
Theorem road_counts (osm_root : osm) (fc : feature_counts) :
  count_features osm_root = Ok fc →
  (∀ k, k ∈ ["trunk"; "primary"; "secondary"; "tertiary"] →
        fc_roads fc !! k = Some (count_ways (highway_is k) osm_root))
  ∧ fc_roads fc !! "res_uncl"
    = Some (count_ways (highway_in res_uncl_values) osm_root)
  ∧ fc_roads fc !! "bus_stop"
    = Some (count_ways (highway_is "bus_stop") osm_root
            + count_ways is_bus_stop osm_root
            + count_nodes is_bus_stop osm_root)
  ∧ fc_roads fc !! "parking"
    = Some (count_ways (highway_is "parking") osm_root
            + count_ways (amenity_is "parking") osm_root
            + count_nodes (amenity_is "parking") osm_root)
  ∧ fc_roads fc !! "fuel"
    = Some (count_ways (highway_is "fuel") osm_root
            + count_ways (amenity_is "fuel") osm_root
            + count_nodes (amenity_is "fuel") osm_root).
Proof.
  intros H. repeat split.
  - intros k Hk.
    repeat (apply elem_of_cons in Hk as [-> | Hk]);
      [| | | | by apply elem_of_nil in Hk].
    + road_entry osm_root fc H "trunk"
        (λ tags : gmap string string, Nat.b2n (highway_is "trunk" tags))
        (λ _ : gmap string string, 0).
    + road_entry osm_root fc H "primary"
        (λ tags : gmap string string, Nat.b2n (highway_is "primary" tags))
        (λ _ : gmap string string, 0).
    + road_entry osm_root fc H "secondary"
        (λ tags : gmap string string, Nat.b2n (highway_is "secondary" tags))
        (λ _ : gmap string string, 0).
    + road_entry osm_root fc H "tertiary"
        (λ tags : gmap string string, Nat.b2n (highway_is "tertiary" tags))
        (λ _ : gmap string string, 0).
  - road_entry osm_root fc H "res_uncl"
        (λ tags : gmap string string, Nat.b2n (highway_in res_uncl_values tags))
        (λ _ : gmap string string, 0).
  - road_entry osm_root fc H "bus_stop"
        (λ tags : gmap string string, Nat.b2n (highway_is "bus_stop" tags) + Nat.b2n (is_bus_stop tags))
        (λ tags : gmap string string, Nat.b2n (is_bus_stop tags)).
  - road_entry osm_root fc H "parking"
        (λ tags : gmap string string, Nat.b2n (highway_is "parking" tags) + Nat.b2n (amenity_is "parking" tags))
        (λ tags : gmap string string, Nat.b2n (amenity_is "parking" tags)).
  - road_entry osm_root fc H "fuel"
        (λ tags : gmap string string, Nat.b2n (highway_is "fuel" tags) + Nat.b2n (amenity_is "fuel" tags))
        (λ tags : gmap string string, Nat.b2n (amenity_is "fuel" tags)).
Qed.

(** Whenever [count_features] returns, its amenity dictionary holds: under
    [gov], [health], [post], [bank] and [shop] the ways and the nodes that
    pass the test of the class; under [school] the ways that pass the
    school test and no node; under [police] the ways and nodes tagged as
    police and the nodes that pass the school test. *)
Theorem amenity_counts (osm_root : osm) (fc : feature_counts) :
  count_features osm_root = Ok fc →
  fc_amenities fc !! "gov"
  = Some (count_ways is_gov osm_root + count_nodes is_gov osm_root)
  ∧ fc_amenities fc !! "health"
    = Some (count_ways is_health osm_root + count_nodes is_health osm_root)
  ∧ fc_amenities fc !! "school" = Some (count_ways is_school osm_root)
  ∧ fc_amenities fc !! "police"
    = Some (count_ways (amenity_is "police") osm_root
            + count_nodes (amenity_is "police") osm_root
            + count_nodes is_school osm_root)
  ∧ fc_amenities fc !! "post"
    = Some (count_ways (amenity_is "post_office") osm_root
            + count_nodes (amenity_is "post_office") osm_root)
  ∧ fc_amenities fc !! "bank"
    = Some (count_ways (amenity_is "bank") osm_root
            + count_nodes (amenity_is "bank") osm_root)
  ∧ fc_amenities fc !! "shop"
    = Some (count_ways is_shop osm_root + count_nodes is_shop osm_root).
Proof.
  intros H. repeat split.
  - amenity_entry osm_root fc H "gov"
        (λ tags : gmap string string, Nat.b2n (is_gov tags))
        (λ tags : gmap string string, Nat.b2n (is_gov tags)).
  - amenity_entry osm_root fc H "health"
        (λ tags : gmap string string, Nat.b2n (is_health tags))
        (λ tags : gmap string string, Nat.b2n (is_health tags)).
  - amenity_entry osm_root fc H "school"
        (λ tags : gmap string string, Nat.b2n (is_school tags))
        (λ _ : gmap string string, 0).
  - amenity_entry osm_root fc H "police"
        (λ tags : gmap string string, Nat.b2n (amenity_is "police" tags))
        (λ tags : gmap string string, Nat.b2n (amenity_is "police" tags) + Nat.b2n (is_school tags)).
  - amenity_entry osm_root fc H "post"
        (λ tags : gmap string string, Nat.b2n (amenity_is "post_office" tags))
        (λ tags : gmap string string, Nat.b2n (amenity_is "post_office" tags)).
  - amenity_entry osm_root fc H "bank"
        (λ tags : gmap string string, Nat.b2n (amenity_is "bank" tags))
        (λ tags : gmap string string, Nat.b2n (amenity_is "bank" tags)).
  - amenity_entry osm_root fc H "shop"
        (λ tags : gmap string string, Nat.b2n (is_shop tags))
        (λ tags : gmap string string, Nat.b2n (is_shop tags)).
Qed.

End CounterTotals.

(** ** Feature counting: when the counter raises *)

Section CounterOutcome.
Local Open Scope list_scope.

Lemma keyed_init : keyed counters_init.
Proof. split; reflexivity. Qed.

Lemma keyed_step (step : counters → result counters) (c c' : counters) :
  keeps same_keys step → keyed c → step c = Ok c' → keyed c'.
Proof.
  intros Hstep Hc H. unfold keyed in *.
  transitivity c; [exact Hc | apply (Hstep c c' H)].
Qed.

Lemma incr_returns (k : string) (d d0 : gmap string nat) :
  dom d = dom d0 → has k d0 = true → ∃ d', incr k d = Ok d'.
Proof.
  intros Hdom Hk. rewrite <- (has_same_dom k d d0 Hdom) in Hk.
  unfold has in Hk. unfold incr. destruct (d !! k); [eauto | discriminate].
Qed.

Lemma incr_road_returns (k : string) :
  has k (roads counters_init) = true → returns (incr_road k).
Proof.
  intros Hk c [Hr _]. unfold incr_road.
  destruct (incr_returns k (roads c) _ Hr Hk) as [d ->]. cbn. eauto.
Qed.

Lemma incr_amenity_returns (k : string) :
  has k (amenities counters_init) = true → returns (incr_amenity k).
Proof.
  intros Hk c [_ Ha]. unfold incr_amenity.
  destruct (incr_returns k (amenities c) _ Ha Hk) as [d ->]. cbn. eauto.
Qed.

Lemma when_returns (b : bool) (act : counters → result counters) :
  returns act → returns (when b act).
Proof. intros Hact c Hc. unfold when. destruct b; [apply (Hact c Hc) | eauto]. Qed.

Lemma count_leisure_returns (tags : gmap string string) :
  returns (count_leisure tags).
Proof.
  intros c _. unfold count_leisure, when, add_landuse. cbn.
  repeat (destruct (has _ tags); cbn); eauto.
Qed.

Lemma count_highway_returns (tags : gmap string string) :
  returns (count_highway tags).
Proof.
  intros c Hc. unfold count_highway.
  destruct (tags !! "highway") as [h |]; [| eauto].
  assert (Hrest : ∀ c1, ∃ c', (if existsb (String.eqb h) minor_road_types
                                then when (negb (bool_decide (h ∈ road_types c1)))
                                          (add_road_type h) c1
                                else Ok c1) = Ok c').
  { intros c1. destruct (existsb _ minor_road_types); [| eauto].
    unfold when. destruct (negb _); cbn; eauto. }
  destruct (has h (roads c)) eqn:Hh.
  - unfold incr_road, incr. unfold has in Hh.
    destruct (roads c !! h); [| discriminate Hh]. cbn [and_then]. apply Hrest.
  - destruct (existsb (String.eqb h) ["residential"; "unclassified"]).
    + destruct (incr_road_returns "res_uncl" eq_refl c Hc) as [c1 ->].
      cbn [and_then]. apply Hrest.
    + cbn [and_then]. apply Hrest.
Qed.

(** A block of statements that keep the keys and return on keyed states
    returns on keyed states. *)
Lemma chain_returns (steps : list (counters → result counters)) :
  Forall (λ step, keeps same_keys step ∧ returns step) steps →
  ∀ c, keyed c → ∃ c', chain steps c = Ok c' ∧ keyed c'.
Proof.
  unfold chain. induction 1 as [| step steps [Hk Hr] _ IH]; intros c Hc; cbn.
  - eauto.
  - destruct (Hr c Hc) as [c1 E]. rewrite E.
    apply IH. apply (keyed_step step c c1 Hk Hc E).
Qed.

Lemma chain_app (l1 l2 : list (counters → result counters)) (c : counters) :
  chain (l1 ++ l2) c = and_then (chain l1 c) (chain l2).
Proof.
  unfold chain. revert c. induction l1 as [| step l1 IH]; intros c; cbn.
  - reflexivity.
  - destruct (step c) as [c1 |]; [apply IH | reflexivity].
Qed.

Ltac safe_step :=
  split;
  [ first [ apply count_highway_same_keys
          | apply count_leisure_same_keys
          | apply when_keeps; [typeclasses eauto |];
            first [ apply incr_amenity_same_keys
                  | apply incr_road_same_keys
                  | apply add_building_same_keys
                  | apply add_landuse_same_keys
                  | intros ? ? ?H; injection H as <-; split; reflexivity ] ]
  | first [ apply count_highway_returns
          | apply count_leisure_returns
          | apply when_returns;
            first [ apply incr_amenity_returns; reflexivity
                  | apply incr_road_returns; reflexivity
                  | intros ? _; cbn; eauto ] ] ].

(** The statements of the way loop before the [landuse] statement. *)
Lemma count_way_prefix (way : osm_way) (c : counters) :
  keyed c →
  ∃ c1, keyed c1 ∧
        count_way c way
        = chain [when (has "landuse" (tags_of (w_tag way))
                       || has "natrual" (tags_of (w_tag way)))
                      (add_landuse_value (tags_of (w_tag way)));
                 count_leisure (tags_of (w_tag way))] c1.
Proof.
  intros Hc. unfold count_way.
  set (tags := tags_of (w_tag way)).
  match goal with
  | |- context [chain ?l c] =>
      change l with (firstn 13 l ++ skipn 13 l)
  end.
  cbn [firstn skipn]. rewrite chain_app.
  match goal with
  | |- context [chain ?l c] =>
      destruct (chain_returns l) with (c := c) as (c1 & -> & H1)
  end.
  - repeat (apply Forall_cons_2; [safe_step |]). apply Forall_nil_2.
  - exact Hc.
  - exists c1. split; [exact H1 | reflexivity].
Qed.

Lemma landuse_step_returns (tags : gmap string string) :
  raising_tags tags = false →
  returns (when (has "landuse" tags || has "natrual" tags)
                (add_landuse_value tags)).
Proof.
  intros Hraise c _. unfold raising_tags in Hraise.
  unfold when, add_landuse_value. unfold has in *.
  destruct (tags !! "landuse"); cbn [orb]; [cbn; eauto |].
  destruct (tags !! "natrual"); [discriminate Hraise | eauto].
Qed.

Lemma landuse_step_keeps (tags : gmap string string) :
  keeps same_keys (when (has "landuse" tags || has "natrual" tags)
                        (add_landuse_value tags)).
Proof.
  apply when_keeps; [typeclasses eauto |].
  intros c c' H. unfold add_landuse_value in H.
  destruct (tags !! "landuse"); [| discriminate H].
  apply (add_landuse_same_keys _ _ _ H).
Qed.

(** One way: [KeyError] on a way with [natrual] and without [landuse],
    a keyed state on every other way. *)
Lemma count_way_outcome (way : osm_way) (c : counters) :
  keyed c →
  if raising_tags (tags_of (w_tag way))
  then count_way c way = Raise (KeyError "landuse")
  else ∃ c', count_way c way = Ok c' ∧ keyed c'.
Proof.
  intros Hc. destruct (count_way_prefix way c Hc) as (c1 & H1 & ->).
  set (tags := tags_of (w_tag way)).
  destruct (raising_tags tags) eqn:Hraise.
  - unfold raising_tags in Hraise. apply andb_true_iff in Hraise as [Hn Hl].
    apply negb_true_iff in Hl.
    unfold chain. cbn [for_each]. rewrite Hn, Hl. cbn [orb when].
    unfold add_landuse_value. unfold has in Hl.
    destruct (tags !! "landuse"); [discriminate Hl | reflexivity].
  - apply chain_returns; [| exact H1].
    apply Forall_cons_2;
      [split; [apply landuse_step_keeps
              | apply (landuse_step_returns tags Hraise)] |].
    apply Forall_cons_2; [safe_step | apply Forall_nil_2].
Qed.

(** One node: [UnboundLocalError] on a [man_made] node when no way was
    seen, a keyed state otherwise. *)
Lemma count_node_outcome (way : option osm_way) (n : osm_node) (c : counters) :
  keyed c →
  if has "man_made" (tags_of (n_tag n)) && bool_decide (way = None)
  then count_node way c n = Raise (UnboundLocalError "way")
  else ∃ c', count_node way c n = Ok c' ∧ keyed c'.
Proof.
  intros Hc. unfold count_node. set (tags := tags_of (n_tag n)).
  destruct (has "man_made" tags && bool_decide (way = None)) eqn:Hbad.
  - apply andb_true_iff in Hbad as [Hm Hw].
    apply bool_decide_eq_true in Hw. subst way.
    match goal with
    | |- context [chain ?l c] =>
        change l with (firstn 11 l ++ skipn 11 l)
    end.
    cbn [firstn skipn]. rewrite chain_app.
    match goal with
    | |- context [and_then (chain ?l c)] =>
        destruct (chain_returns l) with (c := c) as (c1 & -> & H1)
    end.
    + repeat (apply Forall_cons_2; [safe_step |]). apply Forall_nil_2.
    + exact Hc.
    + cbn [and_then]. unfold chain. cbn [for_each]. rewrite Hm. reflexivity.
  - apply chain_returns; [| exact Hc].
    repeat (apply Forall_cons_2; [first [safe_step | idtac] |]);
      try apply Forall_nil_2.
    split.
    + apply when_keeps; [typeclasses eauto |].
      intros c1 c2 H. unfold add_building_of_way in H.
      destruct way; [| discriminate H].
      apply (add_building_same_keys _ _ _ H).
    + destruct way as [w |].
      * apply when_returns. intros c1 _. cbn. eauto.
      * rewrite bool_decide_eq_true_2, andb_true_r in Hbad by reflexivity.
        rewrite Hbad. intros c1 _. cbn. eauto.
Qed.

Lemma for_each_outcome {X : Type} (bad : X → bool) (e : exn)
    (body : counters → X → result counters) (xs : list X) :
  (∀ c x, keyed c →
          if bad x then body c x = Raise e
          else ∃ c', body c x = Ok c' ∧ keyed c') →
  ∀ c, keyed c →
       if existsb bad xs then for_each body xs c = Raise e
       else ∃ c', for_each body xs c = Ok c' ∧ keyed c'.
Proof.
  intros Hbody. induction xs as [| x xs IH]; intros c Hc; cbn.
  - eauto.
  - specialize (Hbody c x Hc). destruct (bad x); cbn [orb].
    + rewrite Hbody. reflexivity.
    + destruct Hbody as (c1 & -> & H1). apply IH. exact H1.
Qed.

Lemma unbound_way_nodes (osm_root : osm) :
  existsb (λ n, has "man_made" (tags_of (n_tag n))
                && bool_decide (last (ways osm_root) = None))
          (nodes osm_root)
  = unbound_way osm_root.
Proof.
  unfold unbound_way. destruct (ways osm_root) as [| w ws] eqn:E.
  - cbn [last]. induction (nodes osm_root) as [| n ns IH]; [reflexivity |].
    cbn [existsb]. rewrite IH, bool_decide_eq_true_2 by reflexivity.
    rewrite andb_true_r. reflexivity.
  - destruct (last (w :: ws)) as [w' |] eqn:El.
    + induction (nodes osm_root) as [| n ns IH]; [reflexivity |].
      cbn [existsb]. rewrite IH, bool_decide_eq_false_2 by discriminate.
      rewrite andb_false_r. reflexivity.
    + apply last_None in El. discriminate El.
Qed.

(** What [count_features] does on every graph: it raises [KeyError] when a
    way carries [natrual] and no [landuse]; otherwise it raises
    [UnboundLocalError] when the graph has no way and a node carries
    [man_made]; otherwise it returns. *)
Theorem count_features_outcome (osm_root : osm) :
  (raising_way osm_root = true →
   count_features osm_root = Raise (KeyError "landuse"))
  ∧ (raising_way osm_root = false → unbound_way osm_root = true →
     count_features osm_root = Raise (UnboundLocalError "way"))
  ∧ (raising_way osm_root = false → unbound_way osm_root = false →
     ∃ fc, count_features osm_root = Ok fc).
Proof.
  pose proof (for_each_outcome (λ w, raising_tags (tags_of (w_tag w)))
                (KeyError "landuse") count_way (ways osm_root)
                (λ c w Hc, count_way_outcome w c Hc) counters_init keyed_init)
    as Hways.
  fold (raising_way osm_root) in Hways.
  unfold count_features.
  destruct (raising_way osm_root).
  - rewrite Hways. repeat split; intros; try discriminate; reflexivity.
  - destruct Hways as (c1 & -> & H1). cbn [and_then].
    pose proof (for_each_outcome
                  (λ n, has "man_made" (tags_of (n_tag n))
                        && bool_decide (last (ways osm_root) = None))
                  (UnboundLocalError "way")
                  (count_node (last (ways osm_root))) (nodes osm_root)
                  (λ c n Hc, count_node_outcome _ n c Hc) c1 H1) as Hnodes.
    rewrite unbound_way_nodes in Hnodes.
    destruct (unbound_way osm_root).
    + rewrite Hnodes. repeat split; intros; try discriminate; reflexivity.
    + destruct Hnodes as (c2 & -> & _). cbn [and_then].
      repeat split; intros; try discriminate; eauto.
Qed.

End CounterOutcome.

(** ** Feature counting: what the sets hold *)

Section CounterSets.
Local Open Scope list_scope.
Context {K : Type} `{Countable K}.
Variable field : counters → gset K.

Lemma joins_refl (c : counters) : joins field ∅ c c.
Proof. unfold joins. rewrite (left_id_L ∅ (∪)). reflexivity. Qed.

Lemma joins_trans (S1 S2 : gset K) (c1 c2 c3 : counters) :
  joins field S1 c1 c2 → joins field S2 c2 c3 → joins field (S1 ∪ S2) c1 c3.
Proof.
  unfold joins. intros H12 H23. rewrite H23, H12.
  rewrite (assoc_L (∪)). f_equal. apply (comm_L (∪)).
Qed.

Lemma same_field_joins (c c' : counters) :
  field c' = field c → joins field ∅ c c'.
Proof. intros E. unfold joins. rewrite E, (left_id_L ∅ (∪)). reflexivity. Qed.

Lemma chain_joins (steps : list (counters → result counters))
    (Ss : list (gset K)) :
  Forall2 (λ step S, ∀ c c', step c = Ok c' → joins field S c c') steps Ss →
  ∀ c c', chain steps c = Ok c' → joins field (⋃ Ss) c c'.
Proof.
  unfold chain. induction 1 as [| step S steps Ss Hstep _ IH];
    intros c c' E; cbn in E.
  - injection E as <-. apply joins_refl.
  - destruct (step c) as [c1 |] eqn:E1; [| discriminate E].
    rewrite union_list_cons.
    eapply joins_trans; [apply (Hstep c c1 E1) | apply (IH c1 c' E)].
Qed.

Lemma for_each_joins {X : Type} (f : X → gset K)
    (body : counters → X → result counters) (xs : list X) :
  (∀ c x c', body c x = Ok c' → joins field (f x) c c') →
  ∀ c c', for_each body xs c = Ok c' → joins field (⋃ (f <$> xs)) c c'.
Proof.
  intros Hbody. induction xs as [| x xs IH]; intros c c' E; cbn in E.
  - injection E as <-. apply joins_refl.
  - destruct (body c x) as [c1 |] eqn:E1; [| discriminate E].
    cbn [fmap list_fmap]. rewrite union_list_cons.
    eapply joins_trans; [apply (Hbody c x c1 E1) | apply (IH c1 c' E)].
Qed.

End CounterSets.

Section CounterSetSteps.
Local Open Scope list_scope.

Lemma when_keeps_sets (b : bool) (act : counters → result counters) :
  keeps_sets act → keeps_sets (when b act).
Proof.
  intros Hact c c' E. unfold when in E. destruct b; [apply (Hact c c' E) |].
  injection E as <-. auto.
Qed.

Lemma incr_amenity_keeps_sets (k : string) : keeps_sets (incr_amenity k).
Proof.
  intros c c' E. unfold incr_amenity in E.
  destruct (incr k (amenities c)); cbn [and_then] in E; [| discriminate E].
  injection E as <-. auto.
Qed.

Lemma incr_road_keeps_sets (k : string) : keeps_sets (incr_road k).
Proof.
  intros c c' E. unfold incr_road in E.
  destruct (incr k (roads c)); cbn [and_then] in E; [| discriminate E].
  injection E as <-. auto.
Qed.

(** The four set fields, and the lemma that a statement which keeps the
    sets adds nothing to any of them. *)
Lemma keeps_sets_joins {K : Type} `{Countable K} (field : counters → gset K)
    (step : counters → result counters) (c c' : counters) :
  (∀ c c', places c' = places c ∧ buildings c' = buildings c
           ∧ road_types c' = road_types c ∧ landuse_types c' = landuse_types c →
           field c' = field c) →
  keeps_sets step → step c = Ok c' → joins field ∅ c c'.
Proof.
  intros Hfield Hstep E. apply same_field_joins.
  apply Hfield. apply (Hstep c c' E).
Qed.

End CounterSetSteps.

Section CounterSetFacts.
Local Open Scope list_scope.

(** A statement whose every return leaves [field] as it was. *)
Ltac unchanged :=
  let E := fresh "E" in
  intros ? ? E; apply same_field_joins;
  unfold when, add_building_of_way, add_landuse_value, add_building,
    add_place, add_landuse, add_road_type, incr_amenity, incr_road, incr in E;
  repeat (case_match; cbn [and_then] in E); simplify_eq; reflexivity.

Lemma count_leisure_landuse (tags : gmap string string) (c c' : counters) :
  count_leisure tags c = Ok c' →
  landuse_types c' = leisure_keys tags ∪ landuse_types c
  ∧ places c' = places c ∧ buildings c' = buildings c
  ∧ road_types c' = road_types c.
Proof.
  unfold count_leisure, leisure_keys, when, add_landuse. cbn.
  destruct (has "leisure" tags), (has "tourism" tags), (has "waterway" tags);
    cbn; intros E; simplify_eq; cbn; (split; [set_solver | auto]).
Qed.

Lemma count_highway_road_types (w : osm_way) (c c' : counters) :
  count_highway (tags_of (w_tag w)) c = Ok c' →
  road_types c' = way_road_types w ∪ road_types c
  ∧ places c' = places c ∧ buildings c' = buildings c
  ∧ landuse_types c' = landuse_types c.
Proof.
  unfold count_highway, way_road_types, when, add_road_type, incr_road, incr.
  intros E.
  destruct (tags_of (w_tag w) !! "highway") as [h |];
    [| simplify_eq; split; [set_solver | auto]].
  repeat (case_match; cbn [and_then] in E); simplify_eq; cbn;
    try (split; [set_solver | auto]);
    match goal with
    | Hin : negb (bool_decide (h ∈ _)) = false |- _ =>
        apply negb_false_iff, bool_decide_eq_true in Hin;
        split; [set_solver | auto]
    end.
Qed.

Lemma when_add_building_joins (b : bool) (i : Z) (c c' : counters) :
  when b (add_building i) c = Ok c' →
  joins buildings (if b then {[ i ]} else ∅) c c'.
Proof.
  unfold when, add_building, joins. intros E.
  destruct b; simplify_eq; cbn; set_solver.
Qed.

Lemma when_add_place_joins (b : bool) (i : Z) (c c' : counters) :
  when b (add_place i) c = Ok c' →
  joins places (if b then {[ i ]} else ∅) c c'.
Proof.
  unfold when, add_place, joins. intros E.
  destruct b; simplify_eq; cbn; set_solver.
Qed.

Lemma when_add_building_of_way_joins (b : bool) (way : option osm_way)
    (c c' : counters) :
  when b (add_building_of_way way) c = Ok c' →
  joins buildings
    (if b then match way with Some w => {[ w_id w ]} | None => ∅ end else ∅)
    c c'.
Proof.
  unfold when, add_building_of_way, add_building, joins. intros E.
  destruct b, way; simplify_eq; cbn; set_solver.
Qed.

Lemma when_add_landuse_value_joins (tags : gmap string string)
    (c c' : counters) :
  when (has "landuse" tags || has "natrual" tags) (add_landuse_value tags) c
  = Ok c' →
  joins landuse_types
    (match tags !! "landuse" with Some v => {[ v ]} | None => ∅ end) c c'.
Proof.
  unfold when, add_landuse_value, add_landuse, joins, has. intros E.
  destruct (tags !! "landuse"); cbn [orb] in E.
  - simplify_eq. reflexivity.
  - destruct (tags !! "natrual"); simplify_eq. cbn. set_solver.
Qed.

Ltac set_step :=
  first
    [ intros ? ?; apply when_add_building_joins
    | intros ? ?; apply when_add_place_joins
    | intros ? ?; apply when_add_building_of_way_joins
    | intros ? ?; apply when_add_landuse_value_joins
    | let E := fresh "E" in
      intros ? ? E; apply count_leisure_landuse in E;
      first [ apply (proj1 E)
            | apply same_field_joins; apply E ]
    | let E := fresh "E" in
      intros ? ? E; apply count_highway_road_types in E;
      first [ apply (proj1 E)
            | apply same_field_joins; apply E ]
    | unchanged ].

(** What one way adds to the four sets. *)
Lemma count_way_sets (c c' : counters) (w : osm_way) :
  count_way c w = Ok c' →
  joins places ∅ c c'
  ∧ joins buildings (way_buildings w) c c'
  ∧ joins road_types (way_road_types w) c c'
  ∧ joins landuse_types (way_landuse w) c c'.
Proof.
  intros E. unfold count_way in E.
  set (tags := tags_of (w_tag w)) in *.
  repeat split.
  - replace (∅ : gset Z) with (⋃ (replicate 15 (∅ : gset Z)))
      by (cbn; set_solver).
    revert E. apply chain_joins. cbn [replicate].
    repeat (constructor; [set_step |]). constructor.
  - replace (way_buildings w)
      with (⋃ [∅; if has "building" tags then {[ w_id w ]} else ∅;
               if has "man_made" tags then {[ w_id w ]} else ∅ : gset Z])
      by (unfold way_buildings, carries_building; fold tags; cbn;
          destruct (has "building" tags), (has "man_made" tags); set_solver).
    replace (⋃ _) with (⋃ ([∅; if has "building" tags then {[ w_id w ]} else ∅;
                           if has "man_made" tags then {[ w_id w ]} else ∅]
                          ++ replicate 12 (∅ : gset Z)))
      by (rewrite union_list_app_L; cbn; set_solver).
    revert E. apply chain_joins. cbn [replicate app].
    repeat (constructor; [set_step |]). constructor.
  - replace (way_road_types w)
      with (⋃ (way_road_types w :: replicate 14 (∅ : gset string)))
      by (cbn; set_solver).
    revert E. apply chain_joins. cbn [replicate].
    repeat (constructor; [set_step |]). constructor.
  - replace (way_landuse w)
      with (⋃ (replicate 13 (∅ : gset string)
               ++ [match tags !! "landuse" with
                   | Some v => {[ v ]}
                   | None => ∅
                   end; leisure_keys tags]))
      by (rewrite union_list_app_L; unfold way_landuse; fold tags; cbn;
          set_solver).
    revert E. apply chain_joins. cbn [replicate app].
    repeat (constructor; [set_step |]). constructor.
Qed.

(** What one node adds to the four sets. *)
Lemma count_node_sets (way : option osm_way) (c c' : counters) (n : osm_node) :
  count_node way c n = Ok c' →
  joins places (node_places n) c c'
  ∧ joins buildings (node_buildings way n) c c'
  ∧ joins road_types ∅ c c'
  ∧ joins landuse_types (node_landuse n) c c'.
Proof.
  intros E. unfold count_node in E.
  set (tags := tags_of (n_tag n)) in *.
  repeat split.
  - replace (node_places n)
      with (⋃ ((if has "place" tags && has "name" tags
                then {[ n_id n ]} else ∅)
               :: replicate 12 (∅ : gset Z)))
      by (unfold node_places; fold tags; cbn; set_solver).
    revert E. apply chain_joins. cbn [replicate].
    repeat (constructor; [set_step |]). constructor.
  - replace (node_buildings way n)
      with (⋃ (replicate 11 (∅ : gset Z)
               ++ [if has "man_made" tags
                   then match way with Some w => {[ w_id w ]} | None => ∅ end
                   else ∅; ∅]))
      by (rewrite union_list_app_L; unfold node_buildings; fold tags; cbn;
          set_solver).
    revert E. apply chain_joins. cbn [replicate app].
    repeat (constructor; [set_step |]). constructor.
  - replace (∅ : gset string) with (⋃ (replicate 13 (∅ : gset string)))
      by (cbn; set_solver).
    revert E. apply chain_joins. cbn [replicate].
    repeat (constructor; [set_step |]). constructor.
  - replace (node_landuse n)
      with (⋃ (replicate 12 (∅ : gset string) ++ [leisure_keys tags]))
      by (rewrite union_list_app_L; unfold node_landuse; fold tags; cbn;
          set_solver).
    revert E. apply chain_joins. cbn [replicate app].
    repeat (constructor; [set_step |]). constructor.
Qed.

End CounterSetFacts.

Section CounterSetTotals.
Local Open Scope nat_scope.
Local Open Scope list_scope.

Lemma union_list_empties {K X : Type} `{Countable K} (xs : list X) :
  ⋃ ((λ _, (∅ : gset K)) <$> xs) = ∅.
Proof.
  induction xs as [| x xs IH]; [reflexivity |].
  cbn [fmap list_fmap]. rewrite union_list_cons, IH.
  apply (left_id_L ∅ (∪)).
Qed.

Lemma size_union_le {K : Type} `{Countable K} (S T : gset K) :
  size (S ∪ T) ≤ size S + size T.
Proof.
  rewrite size_union_alt.
  assert (Hsub : T ∖ S ⊆ T) by (intros x Hx; apply elem_of_difference in Hx; tauto).
  pose proof (subseteq_size (T ∖ S) T Hsub). lia.
Qed.

Lemma size_union_list_le {K X : Type} `{Countable K} (f : X → gset K)
    (xs : list X) :
  (∀ x, size (f x) ≤ 1) → size (⋃ (f <$> xs)) ≤ length xs.
Proof.
  intros Hf. induction xs as [| x xs IH].
  - cbn. rewrite size_empty. lia.
  - cbn [fmap list_fmap length]. rewrite union_list_cons.
    pose proof (size_union_le (f x) (⋃ (f <$> xs))). specialize (Hf x). lia.
Qed.

(** The four sets at the [return] of [count_features]. *)
Lemma count_features_sets (osm_root : osm) (fc : feature_counts) :
  count_features osm_root = Ok fc →
  fc_places fc = size (place_set osm_root)
  ∧ fc_buildings fc = size (building_set osm_root)
  ∧ fc_road_types fc = size (road_type_set osm_root)
  ∧ fc_landuse_types fc = size (landuse_set osm_root).
Proof.
  unfold count_features. intros E.
  destruct (for_each count_way (ways osm_root) counters_init) as [c1 |] eqn:E1;
    cbn [and_then] in E; [| discriminate E].
  destruct (for_each (count_node (last (ways osm_root))) (nodes osm_root) c1)
    as [c2 |] eqn:E2; cbn [and_then] in E; [| discriminate E].
  injection E as <-. cbn [fc_places fc_buildings fc_road_types fc_landuse_types].
  pose proof (for_each_joins places (λ _, ∅) count_way (ways osm_root)
                (λ c w c' Hw, proj1 (count_way_sets c c' w Hw))
                _ _ E1) as Wp.
  pose proof (for_each_joins buildings way_buildings count_way (ways osm_root)
                (λ c w c' Hw, proj1 (proj2 (count_way_sets c c' w Hw)))
                _ _ E1) as Wb.
  pose proof (for_each_joins road_types way_road_types count_way
                (ways osm_root)
                (λ c w c' Hw, proj1 (proj2 (proj2 (count_way_sets c c' w Hw))))
                _ _ E1) as Wr.
  pose proof (for_each_joins landuse_types way_landuse count_way
                (ways osm_root)
                (λ c w c' Hw, proj2 (proj2 (proj2 (count_way_sets c c' w Hw))))
                _ _ E1) as Wl.
  pose proof (for_each_joins places node_places
                (count_node (last (ways osm_root))) (nodes osm_root)
                (λ c n c' Hn, proj1 (count_node_sets _ c c' n Hn))
                _ _ E2) as Np.
  pose proof (for_each_joins buildings (node_buildings (last (ways osm_root)))
                (count_node (last (ways osm_root))) (nodes osm_root)
                (λ c n c' Hn, proj1 (proj2 (count_node_sets _ c c' n Hn)))
                _ _ E2) as Nb.
  pose proof (for_each_joins road_types (λ _, ∅)
                (count_node (last (ways osm_root))) (nodes osm_root)
                (λ c n c' Hn,
                   proj1 (proj2 (proj2 (count_node_sets _ c c' n Hn))))
                _ _ E2) as Nr.
  pose proof (for_each_joins landuse_types node_landuse
                (count_node (last (ways osm_root))) (nodes osm_root)
                (λ c n c' Hn,
                   proj2 (proj2 (proj2 (count_node_sets _ c c' n Hn))))
                _ _ E2) as Nl.
  unfold joins in *. cbn [places buildings road_types landuse_types
                           counters_init] in Wp, Wb, Wr, Wl.
  rewrite union_list_empties in Wp. rewrite union_list_empties in Nr.
  rewrite (right_id_L ∅ (∪)) in Wp. rewrite (right_id_L ∅ (∪)) in Wb.
  rewrite (right_id_L ∅ (∪)) in Wr. rewrite (right_id_L ∅ (∪)) in Wl.
  rewrite (left_id_L ∅ (∪)) in Nr.
  rewrite Wp, (right_id_L ∅ (∪)) in Np.
  rewrite Wb in Nb. rewrite Wr in Nr. rewrite Wl in Nl.
  rewrite Np, Nb, Nr, Nl.
  unfold place_set, building_set, road_type_set, landuse_set. auto.
Qed.

(** Whenever [count_features] returns: the place count is the number of
    distinct ids of the nodes that carry [place] and [name]; the building
    count is the number of distinct ids of the ways that carry [building]
    or [man_made], with the id of the last way added when a node carries
    [man_made]; the road-type count is the number of distinct [highway]
    values of the ways among the nine minor classes; the land-use count is
    the number of distinct [landuse] values of the ways together with
    those of [leisure], [tourism] and [waterway] that occur as a key of a
    way or of a node. *)
Theorem set_counts (osm_root : osm) (fc : feature_counts) :
  count_features osm_root = Ok fc →
  fc_places fc = size (place_set osm_root)
  ∧ fc_buildings fc = size (building_set osm_root)
  ∧ fc_road_types fc = size (road_type_set osm_root)
  ∧ fc_landuse_types fc = size (landuse_set osm_root).
Proof. intros E. apply count_features_sets. exact E. Qed.

Lemma node_buildings_last (osm_root : osm) (n : osm_node) :
  node_buildings (last (ways osm_root)) n
  ⊆ ⋃ ((λ w, {[ w_id w ]}) <$> ways osm_root).
Proof.
  unfold node_buildings. destruct (has "man_made" _); [| set_solver].
  destruct (last (ways osm_root)) as [w |] eqn:E; [| set_solver].
  intros i Hi. apply elem_of_singleton in Hi as ->.
  apply elem_of_union_list. exists {[ w_id w ]}. split; [| set_solver].
  apply list_elem_of_fmap. exists w. split; [reflexivity |].
  apply last_Some in E as [l ->]. apply elem_of_app. right.
  apply list_elem_of_here.
Qed.

(** Whenever [count_features] returns, the place count is at most the
    number of nodes, the building count at most the number of ways, nodes
    or not, and the road-type count at most 9. *)
Theorem set_count_bounds (osm_root : osm) (fc : feature_counts) :
  count_features osm_root = Ok fc →
  fc_places fc ≤ length (nodes osm_root)
  ∧ fc_buildings fc ≤ length (ways osm_root)
  ∧ fc_road_types fc ≤ 9.
Proof.
  intros E. destruct (count_features_sets osm_root fc E) as (-> & -> & -> & _).
  repeat split.
  - apply size_union_list_le. intros n. unfold node_places.
    destruct (_ && _); [rewrite size_singleton | rewrite size_empty]; lia.
  - etransitivity;
      [| apply (size_union_list_le (λ w, {[ w_id w ]}) (ways osm_root));
         intros w; rewrite size_singleton; lia].
    apply subseteq_size. unfold building_set.
    apply union_subseteq. split.
    + intros i Hi. apply elem_of_union_list in Hi as (S & HS & Hi).
      apply list_elem_of_fmap in HS as (n & -> & _).
      apply (node_buildings_last osm_root n i Hi).
    + intros i Hi. apply elem_of_union_list in Hi as (S & HS & Hi).
      apply list_elem_of_fmap in HS as (w & -> & Hw).
      apply elem_of_union_list. exists {[ w_id w ]}. split.
      * apply list_elem_of_fmap. exists w. auto.
      * unfold way_buildings in Hi. destruct (carries_building _);
          [exact Hi | set_solver].
  - etransitivity;
      [| apply (size_union_list_le (λ h : string, {[ h ]}) minor_road_types);
         intros h; rewrite size_singleton; lia].
    apply subseteq_size. unfold road_type_set.
    intros h Hh. apply elem_of_union_list in Hh as (S & HS & Hh).
    apply list_elem_of_fmap in HS as (w & -> & _).
    unfold way_road_types in Hh.
    destruct (tags_of (w_tag w) !! "highway") as [h' |]; [| set_solver].
    destruct (existsb (String.eqb h') minor_road_types) eqn:Ex; [| set_solver].
    apply elem_of_singleton in Hh as ->.
    apply existsb_exists in Ex as (x & Hx & Heq).
    apply String.eqb_eq in Heq as ->.
    apply elem_of_union_list. exists {[ x ]}. split; [| set_solver].
    apply list_elem_of_fmap. exists x. split; [reflexivity |].
    apply list_elem_of_In. exact Hx.
Qed.

End CounterSetTotals.

(** On [busy_graph] the counter returns, and the bus-stop way is counted
    twice: once for its [highway] value, once by the bus-stop test. *)
Lemma road_counts_witness :
  ∃ fc, count_features busy_graph = Ok fc
        ∧ fc_roads fc !! "bus_stop"
          = Some (count_ways (highway_is "bus_stop") busy_graph
                  + count_ways is_bus_stop busy_graph
                  + count_nodes is_bus_stop busy_graph)%nat.
Proof.
  destruct (count_features busy_graph) as [fc |] eqn:E;
    [| vm_compute in E; discriminate E].
  exists fc. split; [reflexivity |].
  apply (road_counts busy_graph fc E).
Defined.

Lemma amenity_counts_witness :
  ∃ fc, count_features busy_graph = Ok fc
        ∧ fc_amenities fc !! "school" = Some (count_ways is_school busy_graph).
Proof.
  destruct (count_features busy_graph) as [fc |] eqn:E;
    [| vm_compute in E; discriminate E].
  exists fc. split; [reflexivity |].
  apply (amenity_counts busy_graph fc E).
Defined.

Lemma set_counts_witness :
  ∃ fc, count_features busy_graph = Ok fc
        ∧ fc_places fc = size (place_set busy_graph)
        ∧ fc_buildings fc = size (building_set busy_graph)
        ∧ fc_road_types fc = size (road_type_set busy_graph)
        ∧ fc_landuse_types fc = size (landuse_set busy_graph).
Proof.
  destruct (count_features busy_graph) as [fc |] eqn:E;
    [| vm_compute in E; discriminate E].
  exists fc. split; [reflexivity |].
  apply (set_counts busy_graph fc E).
Defined.

Lemma set_count_bounds_witness :
  ∃ fc, count_features busy_graph = Ok fc
        ∧ (fc_places fc ≤ length (nodes busy_graph))%nat
        ∧ (fc_buildings fc ≤ length (ways busy_graph))%nat
        ∧ (fc_road_types fc ≤ 9)%nat.
Proof.
  destruct (count_features busy_graph) as [fc |] eqn:E;
    [| vm_compute in E; discriminate E].
  exists fc. split; [reflexivity |].
  apply (set_count_bounds busy_graph fc E).
Defined.

(** ** Entity resolution: where the answer comes from *)

Section ResolverOrigin.
Local Open Scope list_scope.

Variable addr_4 : string.
Variable osm_root : osm.

Lemma from_graph_init : from_graph addr_4 osm_root resolution_init.
Proof.
  unfold from_graph. cbn.
  split; [auto | split; [auto | split; [auto | intros Hne; contradiction]]].
Qed.

Lemma cands_of_named (st : resolution) : cands_of osm_root st → cands_named st.
Proof. intros Hc i n Hi. apply (Hc i n Hi). Qed.

(** The node loop keeps the invariant. *)
Lemma scan_node_origin (st st' : resolution) (n : osm_node) :
  n ∈ nodes osm_root →
  from_graph addr_4 osm_root st → cands_of osm_root st →
  scan_node addr_4 st n = Ok st' →
  from_graph addr_4 osm_root st' ∧ cands_of osm_root st'
  ∧ boundary_id st' = boundary_id st.
Proof.
  intros Hn Hst Hc E. unfold scan_node in E.
  destruct (has "name" (tags_of (n_tag n))) eqn:Hname; cbn [negb] in E;
    [| simplify_eq; auto].
  destruct (is_place_cand (tags_of (n_tag n))) eqn:Hcand; cbn [negb] in E;
    [| simplify_eq; auto].
  assert (Hcn : candidate_of osm_root n) by (split; auto).
  assert (Hc1 : cands_of osm_root (add_place_cand n st)).
  { intros i m Hi. unfold add_place_cand in Hi. cbn [place_cands] in Hi.
    destruct (decide (n_id n = i)) as [Heq | Hne].
    - subst i. rewrite lookup_insert_eq in Hi. simplify_eq. exact Hcn.
    - rewrite lookup_insert_ne in Hi by exact Hne. apply (Hc i m Hi). }
  assert (H1 : from_graph addr_4 osm_root (add_place_cand n st)) by exact Hst.
  destruct (node_id (add_place_cand n st) <? 0)%Z eqn:Hneg; cbn [negb] in E;
    [| simplify_eq; auto].
  destruct (match_name addr_4 (tags_of (n_tag n)) false) as [fuzzy |] eqn:Hf;
    cbn [and_then] in E; [| discriminate E].
  destruct fuzzy; cbn [negb] in E; [| simplify_eq; auto].
  destruct Hst as (Hid & Hb & Hco & Himp).
  assert (H2 : from_graph addr_4 osm_root
                 (set_coordinate n (add_place_cand n st))).
  { unfold from_graph. cbn. repeat split; eauto; right; exists n; auto. }
  destruct (has "place" (tags_of (n_tag n))) eqn:Hplace; cbn [negb] in E;
    [| simplify_eq; auto].
  destruct (capital_or_exact addr_4 (tags_of (n_tag n)) (tags_of (n_tag n)))
    as [accept |]; cbn [and_then] in E; [| discriminate E].
  destruct accept; simplify_eq; [| auto].
  split; [| auto].
  unfold from_graph. cbn.
  repeat split; eauto;
    first [ right; right; exists n; by auto | right; exists n; by auto ].
Qed.

Lemma scan_nodes_origin (ns : list osm_node) :
  (∀ n, n ∈ ns → n ∈ nodes osm_root) →
  ∀ st st', from_graph addr_4 osm_root st → cands_of osm_root st →
            for_each (scan_node addr_4) ns st = Ok st' →
            from_graph addr_4 osm_root st' ∧ cands_of osm_root st'
            ∧ boundary_id st' = boundary_id st.
Proof.
  induction ns as [| n ns IH]; intros Hns st st' Hst Hc E; cbn in E.
  - simplify_eq. auto.
  - destruct (scan_node addr_4 st n) as [st1 |] eqn:E1; [| discriminate E].
    destruct (scan_node_origin st st1 n (Hns n (list_elem_of_here _ _)) Hst Hc E1)
      as (H1 & Hc1 & Hb1).
    destruct (IH (λ m Hm, Hns m (list_elem_of_further _ _ _ Hm)) st1 st' H1 Hc1 E)
      as (H2 & Hc2 & Hb2).
    split; [exact H2 | split; [exact Hc2 | congruence]].
Qed.

(** The member loop keeps the invariant and the boundary. *)
Lemma scan_members_origin (tags : gmap string string) (ms : list osm_member) :
  ∀ st st', from_graph addr_4 osm_root st → cands_of osm_root st →
            scan_members addr_4 tags ms st = Ok st' →
            from_graph addr_4 osm_root st' ∧ place_cands st' = place_cands st
            ∧ boundary_id st' = boundary_id st.
Proof.
  induction ms as [| m ms IH]; intros st st' Hst Hc E; cbn [scan_members] in E.
  - simplify_eq. auto.
  - destruct (negb (String.eqb (m_type m) "node")); [apply (IH st st' Hst Hc E) |].
    destruct (negb _); [apply (IH st st' Hst Hc E) |].
    destruct (place_cands st !! m_ref m) as [node |] eqn:Hnode;
      [| apply (IH st st' Hst Hc E)].
    pose proof (Hc _ _ Hnode) as Hcn.
    set (st1 := set_coordinate node (set_node_id (-2) st)) in *.
    assert (H1 : from_graph addr_4 osm_root st1).
    { destruct Hst as (Hid & Hb & Hco & Himp).
      unfold from_graph, st1. cbn.
      repeat split; eauto; right; exists node; auto. }
    assert (Hc1 : cands_of osm_root st1) by exact Hc.
    assert (Hrec : scan_members addr_4 tags ms st1 = Ok st' →
                   from_graph addr_4 osm_root st'
                   ∧ place_cands st' = place_cands st
                   ∧ boundary_id st' = boundary_id st).
    { intros E'. apply (IH st1 st' H1 Hc1 E'). }
    destruct (has "place" (tags_of (n_tag node))) eqn:Hplace; cbn [negb] in E;
      [| apply (Hrec E)].
    destruct (match_name addr_4 (tags_of (n_tag node)) false) as [fuzzy |];
      cbn [and_then] in E; [| discriminate E].
    destruct fuzzy; cbn [negb] in E; [| apply (Hrec E)].
    destruct (capital_or_exact addr_4 (tags_of (n_tag node)) tags)
      as [accept |]; cbn [and_then] in E; [| discriminate E].
    destruct accept; [| apply (Hrec E)].
    simplify_eq. split; [| auto].
    destruct H1 as (Hid & Hb & Hco & Himp).
    unfold from_graph. cbn.
    repeat split; eauto; right; right; exists node; auto.
Qed.

(** The relation loop keeps the invariant. *)
Lemma scan_relations_origin (rs : list osm_relation) :
  (∀ r, r ∈ rs → r ∈ relations osm_root) →
  ∀ st st', from_graph addr_4 osm_root st → cands_of osm_root st →
            scan_relations addr_4 rs st = Ok st' →
            from_graph addr_4 osm_root st'.
Proof.
  induction rs as [| r rs IH]; intros Hrs st st' Hst Hc E;
    cbn [scan_relations] in E.
  - simplify_eq. exact Hst.
  - assert (Htail : ∀ st0, from_graph addr_4 osm_root st0 →
                          cands_of osm_root st0 →
                          scan_relations addr_4 rs st0 = Ok st' →
                          from_graph addr_4 osm_root st').
    { intros st0. apply IH. intros r' Hr'. apply Hrs.
      by apply list_elem_of_further. }
    destruct (has "name" (tags_of (r_tag r))) eqn:Hname; cbn [negb] in E;
      [| apply (Htail st Hst Hc E)].
    destruct (is_boundary (tags_of (r_tag r))) eqn:Hb; cbn [negb] in E;
      [| apply (Htail st Hst Hc E)].
    destruct (match_name addr_4 (tags_of (r_tag r)) false) as [fuzzy |] eqn:Hf;
      cbn [and_then] in E; [| discriminate E].
    destruct fuzzy; cbn [negb] in E; [| apply (Htail st Hst Hc E)].
    assert (H1 : from_graph addr_4 osm_root (set_boundary_id (r_id r) st)).
    { destruct Hst as (Hid & _ & Hco & Himp).
      unfold from_graph. cbn.
      split; [exact Hid | split; [| split; [exact Hco | exact Himp]]].
      right. exists r. split; [apply Hrs, list_elem_of_here |].
      split; [| reflexivity]. unfold selected. auto. }
    destruct (scan_members addr_4 (tags_of (r_tag r)) (r_member r)
                (set_boundary_id (r_id r) st)) as [st1 |] eqn:Em;
      cbn [and_then] in E; [| discriminate E].
    destruct (scan_members_origin _ _ _ _ H1 Hc Em) as (H2 & Hc2 & _).
    destruct (match_name addr_4 (tags_of (r_tag r)) true) as [exact |];
      cbn [and_then] in E; [| discriminate E].
    destruct exact; [simplify_eq; exact H2 |].
    apply (Htail st1 H2); [| exact E].
    intros i n Hi. rewrite Hc2 in Hi. apply (Hc i n Hi).
Qed.

End ResolverOrigin.

(** Local resolution returns, and what it returns comes from the graph:
    the node id is -1, -2 or the id of a named node that carries [place];
    the boundary id is -1 or the id of a named administrative or historic
    boundary that matches the segment fuzzily; the coordinate is absent as
    a whole or that of a named place candidate of the graph; and a node id
    other than -1 always comes with a coordinate. *)
Theorem infer_local_origin (addr_4 : string) (osm_root : osm) :
  ∃ st, infer_local addr_4 osm_root = Ok st
        ∧ from_graph addr_4 osm_root st.
Proof.
  unfold infer_local.
  destruct (scan_nodes_total addr_4 (nodes osm_root) resolution_init
              cands_named_init) as (st1 & E1 & Hn1 & _).
  rewrite E1. cbn [and_then].
  destruct (scan_relations_total addr_4 (relations osm_root) st1 Hn1)
    as [st E].
  exists st. split; [exact E |].
  destruct (scan_nodes_origin addr_4 osm_root (nodes osm_root) (λ n Hn, Hn)
              resolution_init st1 (from_graph_init addr_4 osm_root)) as (H1 & Hc1 & _).
  - intros i n Hi. cbn in Hi. rewrite lookup_empty in Hi. discriminate Hi.
  - exact E1.
  - apply (scan_relations_origin addr_4 osm_root (relations osm_root)
             (λ r Hr, Hr) st1 st H1 Hc1 E).
Qed.

(** ** Entity resolution: which boundary is returned *)

Section BoundaryChoice.
Local Open Scope list_scope.

Variable addr_4 : string.

(** The scan stops at an exact boundary: what follows it is not read. *)
Lemma scan_relations_stops (E : osm_relation) (pre post : list osm_relation) :
  exact_boundary addr_4 E →
  ∀ st, scan_relations addr_4 (pre ++ E :: post) st
        = scan_relations addr_4 (pre ++ [E]) st.
Proof.
  intros (Hn & Hb & Hf & He).
  induction pre as [| r pre IH]; intros st; cbn [app scan_relations].
  - rewrite Hn, Hb, Hf, He. cbn [negb and_then].
    destruct (scan_members _ _ _ _); reflexivity.
  - destruct (negb (has "name" (tags_of (r_tag r)))); [apply IH |].
    destruct (negb (is_boundary (tags_of (r_tag r)))); [apply IH |].
    destruct (match_name addr_4 (tags_of (r_tag r)) false) as [fuzzy |];
      cbn [and_then]; [| reflexivity].
    destruct (negb fuzzy); [apply IH |].
    destruct (scan_members _ _ _ _) as [st1 |]; cbn [and_then]; [| reflexivity].
    destruct (match_name addr_4 (tags_of (r_tag r)) true) as [exact |];
      cbn [and_then]; [| reflexivity].
    destruct exact; [reflexivity | apply IH].
Qed.

(** Relations that are no exact boundary are scanned through. *)
Lemma scan_relations_through (pre rest : list osm_relation) :
  (∀ r, r ∈ pre → ¬ exact_boundary addr_4 r) →
  ∀ st, cands_named st →
        ∃ st1, cands_named st1
               ∧ scan_relations addr_4 (pre ++ rest) st
                 = scan_relations addr_4 rest st1.
Proof.
  induction pre as [| r pre IH]; intros Hpre st Hst; cbn [app scan_relations].
  - eauto.
  - assert (Htail : ∀ st0, cands_named st0 →
              ∃ st1, cands_named st1
                     ∧ scan_relations addr_4 (pre ++ rest) st0
                       = scan_relations addr_4 rest st1).
    { apply IH. intros r' Hr'. apply Hpre. by apply list_elem_of_further. }
    destruct (has "name" (tags_of (r_tag r))) eqn:Hn; step; [| by apply Htail].
    destruct (is_boundary (tags_of (r_tag r))) eqn:Hb; step; [| by apply Htail].
    destruct (match_name_fuzzy_named addr_4 _ Hn) as [fuzzy Hf].
    rewrite Hf. step. destruct fuzzy; step; [| by apply Htail].
    destruct (scan_members_total addr_4 (tags_of (r_tag r)) (r_member r)
                (set_boundary_id (r_id r) st) Hst) as (st1 & -> & Hc & _).
    step. destruct (match_name_exact_total addr_4 (tags_of (r_tag r)))
      as [exact He].
    rewrite He. step. destruct exact.
    + exfalso. apply (Hpre r (list_elem_of_here _ _)).
      unfold exact_boundary. auto.
    + apply Htail. intros i n Hi. rewrite Hc in Hi. eapply Hst, Hi.
Qed.

(** Relations that are not selected leave the state as it is. *)
Lemma scan_relations_unselected (post : list osm_relation) :
  (∀ r, r ∈ post → ¬ selected addr_4 r) →
  ∀ st, scan_relations addr_4 post st = Ok st.
Proof.
  intros Hpost. apply scan_relations_no_match.
  intros r Hr Hb Hf. apply (Hpost r Hr). unfold selected.
  split; [| auto].
  unfold match_name in Hf. unfold has.
  destruct (tags_of (r_tag r) !! "name"); [reflexivity | discriminate Hf].
Qed.

End BoundaryChoice.

(** Relations that follow an exact boundary have no part in local
    resolution: the answer is the same without them. *)
Theorem relations_after_exact_ignored (addr_4 : string) (ns : list osm_node)
    (ws : list osm_way) (pre post : list osm_relation) (E : osm_relation) :
  exact_boundary addr_4 E →
  infer_local addr_4 {| nodes := ns; ways := ws;
                        relations := pre ++ E :: post |}
  = infer_local addr_4 {| nodes := ns; ways := ws; relations := pre ++ [E] |}.
Proof.
  intros HE. unfold infer_local. cbn [nodes relations].
  destruct (for_each (scan_node addr_4) ns resolution_init) as [st |];
    cbn [and_then]; [| reflexivity].
  apply scan_relations_stops. exact HE.
Qed.

Lemma relations_after_exact_ignored_witness :
  infer_local "Yaohai" {| nodes := [sample_node]; ways := [];
                          relations := [yaohai_zone] ++ yaohai_exact
                                         :: [yaohai_zone; yaohai_zone] |}
  = infer_local "Yaohai" {| nodes := [sample_node]; ways := [];
                            relations := [yaohai_zone] ++ [yaohai_exact] |}.
Proof.
  apply (relations_after_exact_ignored "Yaohai" [sample_node] []
           [yaohai_zone] [yaohai_zone; yaohai_zone] yaohai_exact).
  unfold exact_boundary. repeat split; vm_compute; reflexivity.
Defined.

(** The boundary local resolution returns is the last relation it selects:
    every selected relation overwrites [boundary_id] until the scan stops
    at an exact boundary or runs out of relations, so among several
    relations that only contain the segment the last one wins, not the
    first. *)
Theorem boundary_is_last_selected (addr_4 : string) (osm_root : osm)
    (pre post : list osm_relation) (F : osm_relation) :
  relations osm_root = (pre ++ F :: post)%list →
  selected addr_4 F →
  (∀ r, r ∈ pre → ¬ exact_boundary addr_4 r) →
  (∀ r, r ∈ post → ¬ selected addr_4 r) →
  ∃ st, infer_local addr_4 osm_root = Ok st ∧ boundary_id st = r_id F.
Proof.
  intros Hrel (Hn & Hb & Hf) Hpre Hpost. unfold infer_local. rewrite Hrel.
  destruct (scan_nodes_total addr_4 (nodes osm_root) resolution_init
              cands_named_init) as (st0 & -> & Hc0 & _).
  step.
  destruct (scan_relations_through addr_4 pre (F :: post) Hpre st0 Hc0)
    as (st1 & Hc1 & ->).
  cbn [scan_relations]. rewrite Hn, Hb, Hf. step.
  destruct (scan_members_total addr_4 (tags_of (r_tag F)) (r_member F)
              (set_boundary_id (r_id F) st1) Hc1) as (st2 & -> & _ & Hbid).
  step. destruct (match_name_exact_total addr_4 (tags_of (r_tag F)))
    as [exact ->].
  step. destruct exact.
  - exists st2. split; [reflexivity | exact Hbid].
  - rewrite (scan_relations_unselected addr_4 post Hpost st2).
    exists st2. split; [reflexivity | exact Hbid].
Qed.

(** Of the two districts that contain [Yaohai] the second is returned. *)
Lemma boundary_is_last_selected_witness :
  ∃ st, infer_local "Yaohai" districts_graph = Ok st
        ∧ boundary_id st = 30%Z.
Proof.
  apply (boundary_is_last_selected "Yaohai" districts_graph
           [relation_with 10 [("boundary", "administrative");
                              ("name", "Yaohai District")]]
           [] yaohai_zone).
  - reflexivity.
  - unfold selected. repeat split; vm_compute; reflexivity.
  - intros r Hr (_ & _ & _ & He).
    apply elem_of_cons in Hr as [-> | Hr]; [| by apply elem_of_nil in Hr].
    vm_compute in He. discriminate He.
  - intros r Hr. by apply elem_of_nil in Hr.
Defined.

(** ** Entity resolution: the boundary tie-break *)





(** ** Acquisition: what a call leaves behind *)

Section Acquisition.
Local Open Scope nat_scope.
Local Open Scope list_scope.

(** How a call of [get_osm_data] ends. *)
Lemma get_osm_data_result (lon lat : float) (radius_m : Z) (osm_file : string)
    (force_update : bool) (w : world) :
  ∃ o w',
    get_osm_data lon lat radius_m osm_file force_update w = (Ok o, w')
    ∧ match o with
      | Some xml =>
          files w' !! osm_file = Some xml
          ∧ ∀ f, f ≠ osm_file → files w' !! f = files w !! f
      | None =>
          files w' = files w
          ∧ posted w' = posted w ++ replicate 5 (around radius_m lat lon)
          ∧ slept w' = slept w ++ [2; 4; 6; 8; 10]
          ∧ (has osm_file (files w) = false ∨ force_update = true)
      end.
Proof.
  unfold get_osm_data.
  rewrite (io_bind_ok _ _ w w (has osm_file (files w))) by reflexivity.
  destruct (has osm_file (files w) && negb force_update) eqn:Hhit.
  - apply andb_true_iff in Hhit as [Hf _]. unfold has in Hf.
    unfold io_bind, load_osm, io_ret.
    destruct (files w !! osm_file) as [content |] eqn:E; [| discriminate Hf].
    exists (Some content), w. auto.
  - unfold safe_overpass_xml, safe_post, io_bind.
    destruct (safe_post_attempts_spec (around radius_m lat lon) 5 1 w)
      as (k & _ & _ & Hs & Hfl & _ & Hres).
    destruct (safe_post_attempts (around radius_m lat lon) (seq 1 5) w)
      as [res w1] eqn:E.
    cbn [fst snd] in Hs, Hfl, Hres.
    destruct Hres as [(-> & -> & Hp) | (_ & r & _ & _ & -> & _)].
    + exists None, w1. cbn. split; [reflexivity |]. split; [exact Hfl |].
      split; [exact Hp |]. split; [exact Hs |].
      apply andb_false_iff in Hhit as [Hh | Hf]; [auto |].
      right. by apply negb_false_iff in Hf.
    + eexists (Some (text r)), _. cbn. split; [reflexivity |]. cbn. split.
      * apply lookup_insert_eq.
      * intros f Hne. rewrite lookup_insert_ne by auto. rewrite Hfl.
        reflexivity.
Qed.

(** [get_osm_data] never raises. When it returns a text, the cache file
    holds that text afterwards and no other file has changed. When it
    returns [None], no file has changed, the query was posted five times
    and the process slept 2, 4, 6, 8 and 10 seconds: a cached file is left
    in place, and it was not used because [force_update] was set. *)
Theorem get_osm_data_outcome (lon lat : float) (radius_m : Z)
    (osm_file : string) (force_update : bool) (w : world) :
  ∃ o w',
    get_osm_data lon lat radius_m osm_file force_update w = (Ok o, w')
    ∧ match o with
      | Some xml =>
          files w' !! osm_file = Some xml
          ∧ ∀ f, f ≠ osm_file → files w' !! f = files w !! f
      | None =>
          files w' = files w
          ∧ posted w' = posted w ++ replicate 5 (around radius_m lat lon)
          ∧ slept w' = slept w ++ [2; 4; 6; 8; 10]
          ∧ (has osm_file (files w) = false ∨ force_update = true)
      end.
Proof.
  apply get_osm_data_result.
Qed.

(** What an acquisition returned is what the next call without
    [force_update] returns for the same file, whatever its coordinate and
    radius, and that call touches neither the network nor the files. *)
Theorem get_osm_data_then_cached (lon lat lon' lat' : float)
    (radius_m radius_m' : Z) (osm_file xml : string) (force_update : bool)
    (w w1 : world) :
  get_osm_data lon lat radius_m osm_file force_update w = (Ok (Some xml), w1) →
  get_osm_data lon' lat' radius_m' osm_file false w1 = (Ok (Some xml), w1).
Proof.
  intros E. apply get_osm_data_cached.
  destruct (get_osm_data_result lon lat radius_m osm_file force_update w)
    as (o & w' & E' & H).
  rewrite E in E'. simplify_eq. apply H.
Qed.

End Acquisition.

(** The cached 3 km text of the sample place is served again, here for
    another point and radius. *)
Lemma get_osm_data_then_cached_witness :
  get_osm_data 0%float 0%float 1000 (cache_file sample_pname 3) false
    cached_world
  = (Ok (Some "<osm/>"), cached_world).
Proof.
  apply (get_osm_data_then_cached sample_lon sample_lat 0%float 0%float
           3000 1000 (cache_file sample_pname 3) "<osm/>" false
           cached_world cached_world).
  vm_compute. reflexivity.
Defined.

(** ** The pipeline when the service cannot be reached *)

Section NetworkDown.
Local Open Scope nat_scope.
Local Open Scope list_scope.

Variable parse_osm : string → result osm.

(** When every request fails, the attempts are used up: each one is posted
    and followed by its sleep. *)
Lemma safe_post_attempts_down (data : query) (m : nat) :
  ∀ (a : nat) (w : world),
  (∀ n q, attempt_fails (net w n q) = true) →
  safe_post_attempts data (seq a m) w
  = (Ok None,
     {| files := files w; net := net w;
        posted := posted w ++ replicate m data;
        slept := slept w ++ ((λ attempt, 2 * attempt) <$> seq a m) |}).
Proof.
  induction m as [| m IH]; intros a w Hdown.
  - destruct w. cbn. unfold io_ret. rewrite !app_nil_r. reflexivity.
  - cbn [seq]. rewrite (safe_post_attempts_fail data a (seq (S a) m) w)
      by apply Hdown.
    rewrite IH by exact Hdown. cbn.
    rewrite <- !app_assoc. reflexivity.
Qed.

Lemma safe_overpass_xml_down (data : query) (w : world) :
  (∀ n q, attempt_fails (net w n q) = true) →
  safe_overpass_xml data w
  = (Ok None,
     {| files := files w; net := net w;
        posted := posted w ++ replicate 5 data;
        slept := slept w ++ [2; 4; 6; 8; 10] |}).
Proof.
  intros Hdown. unfold safe_overpass_xml, safe_post, io_bind.
  rewrite (safe_post_attempts_down data 5 1 w Hdown). reflexivity.
Qed.

(** A place without a cached 3 km graph, processed while every request
    fails: the place keeps its input coordinate and gets the identifiers
    [-1] and no counts. The name query was posted five times, then the
    3 km query five times, each attempt followed by its sleep of 2, 4, 6,
    8 and 10 seconds; the 1 km query is never posted and no file is
    written. *)
Theorem process_place_network_down (addr : list string) (addr_4 : string)
    (lon lat : float) (pname : string) (w : world) :
  last addr = Some addr_4 →
  files w !! cache_file pname 3 = None →
  (∀ n q, attempt_fails (net w n q) = true) →
  ∃ w',
    process_place parse_osm addr lon lat pname w
    = (Ok {| p_lon := lon; p_lat := lat; p_node := -1; p_boundary := -1;
             p_force_update := false; p_counts := [] |}, w')
    ∧ files w' = files w
    ∧ posted w'
      = posted w ++ replicate 5 (named 15000 lat lon addr_4)
                 ++ replicate 5 (around 3000 lat lon)
    ∧ slept w' = slept w ++ [2; 4; 6; 8; 10; 2; 4; 6; 8; 10].
Proof.
  intros Hlast Hfile Hdown.
  set (w1 := {| files := files w; net := net w;
                posted := posted w ++ replicate 5 (named 15000 lat lon addr_4);
                slept := slept w ++ [2; 4; 6; 8; 10] |}).
  set (w2 := {| files := files w1; net := net w1;
                posted := posted w1 ++ replicate 5 (around 3000 lat lon);
                slept := slept w1 ++ [2; 4; 6; 8; 10] |}).
  exists w2. split.
  - unfold process_place.
    rewrite (io_bind_ok _ _ w w None).
    2:{ unfold cached_root.
        rewrite (io_bind_ok _ _ w w false)
          by (unfold path_exists, has; rewrite Hfile; reflexivity).
        reflexivity. }
    rewrite (io_bind_ok _ _ w w1 (-1, -1, None, None)%Z).
    2:{ unfold infer_node_and_boundary. rewrite Hlast.
        unfold infer_remote. cbn [OFF_LINE].
        unfold io_bind. rewrite (safe_overpass_xml_down _ w Hdown).
        reflexivity. }
    cbn [correct_coordinate].
    rewrite (io_bind_ok _ _ w1 w2 ([] : list (Z * feature_counts))).
    2:{ assert (E : get_osm_data lon lat (3 * 1000) (cache_file pname 3)
                      false w1 = (Ok None, w2)).
        { unfold get_osm_data.
          rewrite (io_bind_ok _ _ w1 w1 false)
            by (unfold path_exists, has; cbn; rewrite Hfile; reflexivity).
          cbn [andb]. unfold io_bind.
          rewrite (safe_overpass_xml_down _ w1) by exact Hdown.
          reflexivity. }
        cbn [count_radii]. unfold io_bind at 1. rewrite E. reflexivity. }
    reflexivity.
  - cbn. rewrite <- !app_assoc. auto.
Qed.

End NetworkDown.

(** The sample place in a world with an empty cache and no network. *)
Lemma process_place_network_down_witness :
  ∃ w',
    process_place sample_parse sample_addr sample_lon sample_lat sample_pname
      offline_world
    = (Ok {| p_lon := sample_lon; p_lat := sample_lat; p_node := -1;
             p_boundary := -1; p_force_update := false; p_counts := [] |}, w')
    ∧ files w' = files offline_world
    ∧ posted w'
      = (posted offline_world
         ++ replicate 5 (named 15000 sample_lat sample_lon
                           (default "" (last sample_addr)))
         ++ replicate 5 (around 3000 sample_lat sample_lon))%list
    ∧ slept w'
      = (slept offline_world ++ [2; 4; 6; 8; 10; 2; 4; 6; 8; 10])%list.
Proof.
  apply (process_place_network_down sample_parse sample_addr
           (default "" (last sample_addr)) sample_lon sample_lat sample_pname
           offline_world).
  - reflexivity.
  - vm_compute. reflexivity.
  - intros n q. reflexivity.
Defined.

(** ** The counts of a place and the cache it leaves *)

Section CacheConsistency.
Local Open Scope nat_scope.
Local Open Scope list_scope.

Variable parse_osm : string → result osm.

Lemma string_length_app (s t : string) :
  String.length (s ++ t)%string = String.length s + String.length t.
Proof.
  induction s as [| a s IH]; [reflexivity |].
  change (S (String.length (s ++ t)%string)
          = S (String.length s + String.length t)).
  f_equal. exact IH.
Qed.

Lemma string_app_inv_tail (t : string) :
  ∀ s1 s2 : string, (s1 ++ t = s2 ++ t)%string → s1 = s2.
Proof.
  induction s1 as [| a s1 IH]; intros [| b s2] H.
  - reflexivity.
  - exfalso. apply (f_equal String.length) in H.
    rewrite !string_length_app in H. cbn in H. lia.
  - exfalso. apply (f_equal String.length) in H.
    rewrite !string_length_app in H. cbn in H. lia.
  - cbn in H. injection H as -> H. f_equal. apply IH. exact H.
Qed.

(** The cache files of one place for two radii differ. *)
Lemma cache_file_inj (pname : string) (r r' : Z) :
  cache_file pname r = cache_file pname r' → r = r'.
Proof.
  unfold cache_file. intros H.
  do 3 apply String.app_inj in H.
  apply string_app_inv_tail in H. by apply pretty_Z_inj in H.
Qed.

(** Counting touches the cache files of its own radii only. *)
Lemma count_radii_files (pname : string) (lon lat : float) (force : bool)
    (radii : list Z) :
  ∀ (w w' : world) (res : result (list (Z * feature_counts))),
  count_radii parse_osm pname lon lat force radii w = (res, w') →
  ∀ f, (∀ r, r ∈ radii → f ≠ cache_file pname r) →
       files w' !! f = files w !! f.
Proof.
  induction radii as [| r radii IH]; intros w w' res H f Hf.
  - cbn in H. unfold io_ret in H. by simplify_eq.
  - cbn [count_radii] in H. unfold io_bind at 1 in H.
    destruct (get_osm_data_result lon lat (r * 1000) (cache_file pname r)
                force w) as (o & w1 & E & Ho).
    rewrite E in H.
    assert (Hw1 : files w1 !! f = files w !! f).
    { destruct o as [x |].
      - apply Ho. apply Hf. left.
      - destruct Ho as [-> _]. reflexivity. }
    destruct o as [x |].
    + unfold io_bind, io_lift, io_ret in H.
      destruct (parse_osm x) as [root | e]; [| by simplify_eq].
      destruct (count_features root) as [fc | e]; [| by simplify_eq].
      destruct (count_radii parse_osm pname lon lat force radii w1)
        as [[rest | e] w2] eqn:Hrest.
      * cbn in H. simplify_eq. rewrite <- Hw1.
        apply (IH _ _ _ Hrest). intros r' Hr'. apply Hf. by right.
      * simplify_eq. rewrite <- Hw1.
        apply (IH _ _ _ Hrest). intros r' Hr'. apply Hf. by right.
    + unfold io_ret in H. by simplify_eq.
Qed.

(** The radii counted are a prefix of the radii asked for, and every count
    is the count of the graph that the cache file of its radius holds when
    the loop is done. *)
Lemma count_radii_cache (pname : string) (lon lat : float) (force : bool)
    (radii : list Z) :
  NoDup radii →
  ∀ (w w' : world) (counts : list (Z * feature_counts)),
  count_radii parse_osm pname lon lat force radii w = (Ok counts, w') →
  (counts.*1) `prefix_of` radii
  ∧ ∀ r fc, (r, fc) ∈ counts →
      ∃ xml root,
        files w' !! cache_file pname r = Some xml
        ∧ parse_osm xml = Ok root
        ∧ count_features root = Ok fc.
Proof.
  induction radii as [| r radii IH]; intros Hnd w w' counts H.
  - cbn in H. unfold io_ret in H. simplify_eq. split.
    + reflexivity.
    + intros r fc Hin. by apply elem_of_nil in Hin.
  - apply NoDup_cons in Hnd as [Hr Hnd].
    cbn [count_radii] in H. unfold io_bind at 1 in H.
    destruct (get_osm_data_result lon lat (r * 1000) (cache_file pname r)
                force w) as (o & w1 & E & Ho).
    rewrite E in H. destruct o as [x |].
    + destruct Ho as [Hx _]. unfold io_bind, io_lift, io_ret in H.
      destruct (parse_osm x) as [root | e] eqn:Hp; [| by simplify_eq].
      destruct (count_features root) as [fc | e] eqn:Hc; [| by simplify_eq].
      destruct (count_radii parse_osm pname lon lat force radii w1)
        as [[rest | e] w2] eqn:Hrest; [| by simplify_eq].
      cbn in H. simplify_eq.
      destruct (IH Hnd _ _ _ Hrest) as [Hpre Hall]. split.
      * cbn. by apply prefix_cons.
      * intros r' fc' Hin. apply elem_of_cons in Hin as [Heq | Hin].
        -- simplify_eq. exists x, root. split; [| auto].
           rewrite (count_radii_files _ _ _ _ _ _ _ _ Hrest); [exact Hx |].
           intros r' Hr' Heq. apply cache_file_inj in Heq. by subst.
        -- by apply Hall.
    + unfold io_ret in H. simplify_eq. split.
      * apply prefix_nil.
      * intros r' fc' Hin. by apply elem_of_nil in Hin.
Qed.

(** Whenever [process_place] returns a place, its counts are for the 3 km
    radius, or for 3 km and then 1 km, or there are none; and each count is
    the count of the graph that the cache file of its radius holds when the
    place is done. *)
Theorem counts_match_cache (addr : list string) (lon lat : float)
    (pname : string) (w w' : world) (p : place) :
  process_place parse_osm addr lon lat pname w = (Ok p, w') →
  ((p_counts p).*1) `prefix_of` [3; 1]%Z
  ∧ ∀ r fc, (r, fc) ∈ p_counts p →
      ∃ xml root,
        files w' !! cache_file pname r = Some xml
        ∧ parse_osm xml = Ok root
        ∧ count_features root = Ok fc.
Proof.
  intros H. unfold process_place in H. unfold io_bind at 1 in H.
  destruct (cached_root parse_osm pname lon lat w) as [[osm_root | e] w0];
    [| discriminate H].
  unfold io_bind at 1 in H.
  destruct (infer_node_and_boundary parse_osm addr lon lat osm_root w0)
    as [[[[[node_id boundary_id] nlon] nlat] | e] w1]; [| discriminate H].
  destruct (correct_coordinate lon lat nlon nlat) as [[lon' lat'] force].
  unfold io_bind in H.
  destruct (count_radii parse_osm pname lon' lat' force [3; 1]%Z w1)
    as [[counts | e] w2] eqn:E; [| discriminate H].
  unfold io_ret in H. simplify_eq. cbn [p_counts].
  apply (count_radii_cache pname lon' lat' force [3; 1]%Z) with (w := w1).
  - repeat constructor; set_solver.
  - exact E.
Qed.

End CacheConsistency.

(** The sample place, both of whose graphs are cached. *)
Lemma counts_match_cache_witness :
  ∃ p w',
    process_place sample_parse sample_addr sample_lon sample_lat sample_pname
      cached_world = (Ok p, w')
    ∧ ((p_counts p).*1) `prefix_of` [3; 1]%Z
    ∧ ∀ r fc, (r, fc) ∈ p_counts p →
        ∃ xml root,
          files w' !! cache_file sample_pname r = Some xml
          ∧ sample_parse xml = Ok root
          ∧ count_features root = Ok fc.
Proof.
  destruct (process_place sample_parse sample_addr sample_lon sample_lat
              sample_pname cached_world) as [[p | e] w'] eqn:E;
    [| vm_compute in E; discriminate E].
  exists p, w'. split; [reflexivity |].
  apply (counts_match_cache sample_parse sample_addr sample_lon sample_lat
           sample_pname cached_world w' p E).
Defined.

(** ** The place list: which lines give a row *)

Section LineFacts.
Local Open Scope nat_scope.
Local Open Scope list_scope.

Variable parse_osm : string → result osm.
Variable to_float : string → option float.
Variable lazy_pinyin : string → list string.
Variable capitalize : string → string.

(** A line of four fields is never located: [gd_map] raises or returns the
    empty list. *)
Lemma locate_usable (parts : list string) :
  (usable to_float parts = false → locate to_float parts = None)
  ∧ (usable to_float parts = true →
     ∃ s_lon s_lat lon lat,
       parts !! 4 = Some s_lon ∧ parts !! 5 = Some s_lat
       ∧ to_float s_lon = Some lon ∧ to_float s_lat = Some lat
       ∧ length parts = 6
       ∧ locate to_float parts = Some (lon, lat)).
Proof.
  unfold usable, locate, gd_map.
  destruct (str_in "addr_1" (default "" (parts !! 0))).
  { rewrite andb_false_r. cbn. split; [reflexivity | discriminate]. }
  rewrite andb_true_r.
  destruct (Nat.eqb (length parts) 6) eqn:H6; cbn [andb].
  - apply Nat.eqb_eq in H6.
    destruct (parts !! 4) as [s_lon |], (parts !! 5) as [s_lat |]; cbn;
      try destruct (to_float s_lon) as [lon |] eqn:Elon;
      try destruct (to_float s_lat) as [lat |] eqn:Elat; cbn;
      (split;
       [ first [reflexivity | discriminate]
       | first [discriminate | intros _; eauto 12] ]).
  - split; [| discriminate]. intros _.
    destruct (Nat.eqb (length parts) 4); [| reflexivity].
    cbn [OFF_LINE]. reflexivity.
Qed.

Lemma process_lines_filter (lines : list (list string)) (w : world) :
  process_lines parse_osm to_float lazy_pinyin capitalize lines w
  = process_lines parse_osm to_float lazy_pinyin capitalize
      (filter (λ l, usable to_float l = true) lines) w.
Proof.
  revert w. induction lines as [| parts lines IH]; intros w; [reflexivity |].
  destruct (locate_usable parts) as [Hno Hyes].
  destruct (usable to_float parts) eqn:Hu.
  - rewrite filter_cons_True by exact Hu.
    destruct (Hyes eq_refl) as (s_lon & s_lat & lon & lat & _ & _ & _ & _
                                & Hlen & Hloc).
    cbn [process_lines]. rewrite Hlen, Hloc. cbn [Nat.eqb negb andb].
    unfold io_bind.
    destruct (process_place parse_osm (take 4 parts) lon lat _ w)
      as [[p | e] w1]; [| reflexivity].
    rewrite IH. reflexivity.
  - rewrite filter_cons_False by (rewrite Hu; discriminate).
    cbn [process_lines]. rewrite (Hno eq_refl).
    destruct (negb (Nat.eqb (length parts) 4)
              && negb (Nat.eqb (length parts) 6)); apply IH.
Qed.

(** Only a line of six fields whose first field does not contain [addr_1]
    and whose last two fields are numbers is processed. Every other line
    is passed over and leaves no trace: a line of four fields always is,
    since [gd_map] gives no coordinate. *)
Theorem unusable_lines_skipped (lines : list (list string)) (w : world) :
  process_lines parse_osm to_float lazy_pinyin capitalize lines w
  = process_lines parse_osm to_float lazy_pinyin capitalize
      (filter (λ l, usable to_float l = true) lines) w
  ∧ ∀ parts,
      length parts ≠ 6 →
      process_lines parse_osm to_float lazy_pinyin capitalize
        (parts :: lines) w
      = process_lines parse_osm to_float lazy_pinyin capitalize lines w.
Proof.
  split; [apply process_lines_filter |].
  intros parts Hlen.
  rewrite (process_lines_filter (parts :: lines)), (process_lines_filter lines).
  rewrite filter_cons_False; [reflexivity |].
  unfold usable. apply Nat.eqb_neq in Hlen. rewrite Hlen.
  discriminate.
Qed.

(** When the loop over the lines returns, there is one row for each line
    of six fields with two numbers and no [addr_1], in the order of the
    input, and the row carries the first four fields of its line. *)
Theorem rows_in_input_order (lines : list (list string)) (w w' : world)
    (rows : list (list string * place)) :
  process_lines parse_osm to_float lazy_pinyin capitalize lines w
  = (Ok rows, w') →
  rows.*1 = take 4 <$> filter (λ l, usable to_float l = true) lines.
Proof.
  revert w w' rows.
  induction lines as [| parts lines IH]; intros w w' rows H.
  - cbn in H. unfold io_ret in H. by simplify_eq.
  - destruct (locate_usable parts) as [Hno Hyes].
    destruct (usable to_float parts) eqn:Hu.
    + rewrite filter_cons_True by exact Hu.
      destruct (Hyes eq_refl) as (s_lon & s_lat & lon & lat & _ & _ & _ & _
                                  & Hlen & Hloc).
      cbn [process_lines] in H. rewrite Hlen, Hloc in H.
      cbn [Nat.eqb negb andb] in H. unfold io_bind, io_ret in H.
      destruct (process_place parse_osm (take 4 parts) lon lat _ w)
        as [[p | e] w1]; [| discriminate H].
      destruct (process_lines parse_osm to_float lazy_pinyin capitalize lines
                  w1)
        as [[rest | e] w2] eqn:Hrest; [| discriminate H].
      simplify_eq. cbn. f_equal. apply (IH _ _ _ Hrest).
    + rewrite filter_cons_False by (rewrite Hu; discriminate).
      cbn [process_lines] in H. rewrite (Hno eq_refl) in H.
      apply (IH w w').
      by destruct (negb (Nat.eqb (length parts) 4)
                   && negb (Nat.eqb (length parts) 6)).
Qed.

(** A place list without any such line ends the run in [exit(1)]: nothing
    is requested, nothing is written. *)
Theorem no_usable_line_exits (lines : list (list string)) (w : world) :
  (∀ parts, parts ∈ lines → usable to_float parts = false) →
  collect_rows parse_osm to_float lazy_pinyin capitalize lines w = (Ok None, w).
Proof.
  intros Hall. unfold collect_rows, io_bind.
  rewrite process_lines_filter.
  replace (filter (λ l, usable to_float l = true) lines)
    with (@nil (list string)).
  - reflexivity.
  - symmetry. induction lines as [| parts lines IH]; [reflexivity |].
    rewrite filter_cons_False.
    + apply IH. intros l Hin. apply Hall. by right.
    + rewrite (Hall parts) by left. discriminate.
Qed.

End LineFacts.

(** The sample list on the cached world: one row, for the sample place. *)
Lemma rows_in_input_order_witness :
  ∃ rows w',
    process_lines sample_parse sample_to_float sample_pinyin sample_capitalize
      [header_line; bare_line; broken_line; sample_line] cached_world
    = (Ok rows, w')
    ∧ rows.*1 = [sample_addr].
Proof.
  destruct (process_lines sample_parse sample_to_float sample_pinyin
              sample_capitalize
              [header_line; bare_line; broken_line; sample_line] cached_world)
    as [[rows | e] w'] eqn:E; [| vm_compute in E; discriminate E].
  exists rows, w'. split; [reflexivity |].
  apply (rows_in_input_order sample_parse sample_to_float sample_pinyin
           sample_capitalize
           [header_line; bare_line; broken_line; sample_line]
           cached_world w' rows E).
Defined.

(** A header, a line without coordinate and a line with a comma in its
    number: no row, whatever the network would answer. *)
Lemma no_usable_line_exits_witness :
  collect_rows sample_parse sample_to_float sample_pinyin sample_capitalize
    [header_line; bare_line; broken_line] offline_world
  = (Ok None, offline_world).
Proof.
  apply (no_usable_line_exits sample_parse sample_to_float sample_pinyin
           sample_capitalize [header_line; bare_line; broken_line]
           offline_world).
  intros parts Hin.
  repeat (apply elem_of_cons in Hin as [-> | Hin]; [reflexivity |]).
  by apply elem_of_nil in Hin.
Defined.
